(** * Gemini Slingshot: the grid, the match detector, the scoring and the advisor

    A shallow embedding of the simulation core of
    [components/GeminiSlingshot.tsx] and of the advisory service
    ([getStrategicHint] and its local fallback).

    Part I is the program, function by function.  Part II holds the
    notions the properties are stated with and the boards they are tried
    on.  Part III holds the properties of the match detector, the
    scoring, the landing and the advisor's fallback; Part IV those of the
    launch, the flight, the cluster search and the rest of the program.

    Number model.  A JavaScript [number] that only ever holds an integer
    (rows, columns, sizes, point values, counters, the score, the numbers
    of a reply) is a [Z]; a [number] that holds a coordinate, a distance or
    a multiplier is a real number [R], so [Math.sqrt] is [sqrt] and
    [Math.floor] is [Zfloor].  Rounding of IEEE doubles is not modelled.
    Strings are [string]; arrays are lists in array order.  A token object
    is identified by its id: a write to an object held in two arrays is a
    write to the token of that id.  Sounds, particles and floating labels
    are left out; of the drawing only the look-ups in the colour table are
    kept. *)

From Stdlib Require Import ZArith Zquot List Sorted String Ascii Bool Lia Arith.
From Stdlib Require Import DecimalString DecimalZ DecimalPos.
From Stdlib Require Import Reals Lra Psatz.
Import ListNotations.

Open Scope Z_scope.

(* ================================================================== *)
(** * Part I: the program                                              *)
(* ================================================================== *)

(** ** Constants *)

Definition BUBBLE_RADIUS : R := 22%R.
Definition ROW_HEIGHT : R := (BUBBLE_RADIUS * sqrt 3)%R.
Definition GRID_COLS : Z := 12.
Definition GRID_ROWS : Z := 14.

(** [Difficulty] and [DIFFICULTY_SETTINGS]. *)
Inductive Difficulty := easy | medium | hard | very_hard.

Record DifficultyConfig := mkDifficultyConfig {
  startingRows : Z;
  newRowFrequency : Z;
  pointsMultiplier : R
}.

Definition DIFFICULTY_SETTINGS (d : Difficulty) : DifficultyConfig :=
  match d with
  | easy => mkDifficultyConfig 3 12 (8 / 10)%R
  | medium => mkDifficultyConfig 5 8 1%R
  | hard => mkDifficultyConfig 7 5 (15 / 10)%R
  | very_hard => mkDifficultyConfig 9 3 (25 / 10)%R
  end.

(** [COLOR_CONFIG]: a colour is the string the program stores; the table
    is a lookup that fails on a key it does not have (in the program
    [COLOR_CONFIG[k]] is then [undefined], and reading [.hex] or
    [.points] from it throws).  The names of the members every object
    inherits ([constructor], [toString] and the like) are no keys of the
    table either; the look-up of such a name yields the inherited member
    in the program, whose [.hex] and [.points] are [undefined], and this
    is not told apart here from a look-up that fails. *)
Definition BubbleColor := string.

Record ColorEntry := mkColorEntry { hex : string; points : Z; label : string }.

Definition COLOR_CONFIG (c : BubbleColor) : option ColorEntry :=
  if String.eqb c "red" then Some (mkColorEntry "#ef5350" 100 "Red")
  else if String.eqb c "blue" then Some (mkColorEntry "#42a5f5" 150 "Blue")
  else if String.eqb c "green" then Some (mkColorEntry "#66bb6a" 200 "Green")
  else if String.eqb c "yellow" then Some (mkColorEntry "#ffee58" 250 "Yellow")
  else if String.eqb c "purple" then Some (mkColorEntry "#ab47bc" 300 "Purple")
  else if String.eqb c "orange" then Some (mkColorEntry "#ffa726" 500 "Orange")
  else None.

Definition COLOR_KEYS : list BubbleColor :=
  ["red"; "blue"; "green"; "yellow"; "purple"; "orange"]%string.

(** ** Points and tokens *)

Record Point := mkPoint { px : R; py : R }.

Module Bubble.
Record t := mk {
    id : string;
    row : Z;
    col : Z;
    x : R;
    y : R;
    color : BubbleColor;
    active : bool
}.
End Bubble.

(** [a % 2 !== 0]: the remainder of JavaScript has the sign of the
    dividend, as [Z.rem]. *)
Definition isOddRow (r : Z) : bool := negb (Z.rem r 2 =? 0).

(** ** GridTopology *)

Definition getBubblePos (row col : Z) (width : R) : Point :=
  let xOffset := ((width - IZR GRID_COLS * BUBBLE_RADIUS * 2) / 2 + BUBBLE_RADIUS)%R in
  let isOdd := isOddRow row in
  let x := (xOffset + IZR col * (BUBBLE_RADIUS * 2)
            + (if isOdd then BUBBLE_RADIUS else 0))%R in
  let y := (BUBBLE_RADIUS + IZR row * ROW_HEIGHT)%R in
  mkPoint x y.

Definition isNeighbor (a b : Bubble.t) : bool :=
  let dr := Bubble.row b - Bubble.row a in
  let dc := Bubble.col b - Bubble.col a in
  if 1 <? Z.abs dr then false
  else if dr =? 0 then Z.abs dc =? 1
  else if isOddRow (Bubble.row a) then (dc =? 0) || (dc =? 1)
  else (dc =? -1) || (dc =? 0).

(** ** Outcome of a call

    A call returns, or a [TypeError] escapes it, or (in the model only) a
    loop runs out of the fuel it was given. *)
Inductive Outcome (A : Type) : Type :=
| Returns (a : A)
| Throws
| OutOfFuel.
Arguments Returns {A} a.
Arguments Throws {A}.
Arguments OutOfFuel {A}.

Definition bind {A B : Type} (m : Outcome A) (k : A -> Outcome B) : Outcome B :=
  match m with
  | Returns a => k a
  | Throws => Throws
  | OutOfFuel => OutOfFuel
  end.

Notation "x <- m ;; k" := (bind m (fun x => k))
  (at level 61, m at next level, right associativity).

(** ** Small library: sets of strings in insertion order, ranges, decimal *)

(** A JavaScript [Set<string>]: membership and insertion order. *)
Definition setHas (s : list string) (k : string) : bool :=
  existsb (String.eqb k) s.

Definition setAdd (s : list string) (k : string) : list string :=
  if setHas s k then s else s ++ [k].

(** [for (let i = 0; i < n; i++)]: the values of [i] in order. *)
Definition range (n : Z) : list Z := map Z.of_nat (seq 0 (Z.to_nat n)).

(** Decimal rendering of an integer inside a template string. *)
Definition showZ (z : Z) : string :=
  NilZero.string_of_int (Z.to_int z).

(** ** The state of a round: the refs and state cells the engine uses *)

(** A value read from parsed JSON or from a hint, as far as the program
    distinguishes values: by [typeof], by truthiness and by content. *)
Inductive JsValue :=
| JUndefined
| JNull
| JBool (b : bool)
| JNumber (n : Z)
| JString (s : string)
| JObject.

(** Where the component keeps a state cell and a ref for one quantity,
    the record has one field for both.  [selectedColor] is the state cell
    as the continuation of [performAiAnalysis] and the colour buttons
    write it, and [selectedColorRef.current] as the frame handler reads
    it: an effect copies the state cell to the ref at the end of the
    render a [setSelectedColor] causes, so the two agree but for the time
    in between, and they stay apart if that render throws. *)
Record Game := mkGame {
  bubbles : list Bubble.t;
  score : Z;
  shotsTaken : Z;
  selectedColor : BubbleColor;
  availableColors : list BubbleColor;
  aiRecommendedColor : option BubbleColor;
  aimTarget : option Point;
  activeShotTarget : option Point;
  showSkipConfirm : bool;
  captureRequest : bool;
  isFlying : bool;
  ballPos : Point;
  ballVel : Point;
  anchorPos : Point;
  aiHint : JsValue;
  aiRationale : JsValue;
  isAiThinking : bool
}.

Definition setBubbles (g : Game) (bs : list Bubble.t) : Game :=
  mkGame bs (score g) (shotsTaken g) (selectedColor g) (availableColors g)
         (aiRecommendedColor g) (aimTarget g) (activeShotTarget g)
         (showSkipConfirm g) (captureRequest g) (isFlying g) (ballPos g)
         (ballVel g) (anchorPos g) (aiHint g) (aiRationale g)
         (isAiThinking g).

Definition setScore (g : Game) (s : Z) : Game :=
  mkGame (bubbles g) s (shotsTaken g) (selectedColor g) (availableColors g)
         (aiRecommendedColor g) (aimTarget g) (activeShotTarget g)
         (showSkipConfirm g) (captureRequest g) (isFlying g) (ballPos g)
         (ballVel g) (anchorPos g) (aiHint g) (aiRationale g)
         (isAiThinking g).

Definition setShotsTaken (g : Game) (n : Z) : Game :=
  mkGame (bubbles g) (score g) n (selectedColor g) (availableColors g)
         (aiRecommendedColor g) (aimTarget g) (activeShotTarget g)
         (showSkipConfirm g) (captureRequest g) (isFlying g) (ballPos g)
         (ballVel g) (anchorPos g) (aiHint g) (aiRationale g)
         (isAiThinking g).

Definition setSelectedColor (g : Game) (c : BubbleColor) : Game :=
  mkGame (bubbles g) (score g) (shotsTaken g) c (availableColors g)
         (aiRecommendedColor g) (aimTarget g) (activeShotTarget g)
         (showSkipConfirm g) (captureRequest g) (isFlying g) (ballPos g)
         (ballVel g) (anchorPos g) (aiHint g) (aiRationale g)
         (isAiThinking g).

Definition setAvailableColors (g : Game) (cs : list BubbleColor) : Game :=
  mkGame (bubbles g) (score g) (shotsTaken g) (selectedColor g) cs
         (aiRecommendedColor g) (aimTarget g) (activeShotTarget g)
         (showSkipConfirm g) (captureRequest g) (isFlying g) (ballPos g)
         (ballVel g) (anchorPos g) (aiHint g) (aiRationale g)
         (isAiThinking g).

Definition setAiRecommendedColor (g : Game) (c : option BubbleColor) : Game :=
  mkGame (bubbles g) (score g) (shotsTaken g) (selectedColor g)
         (availableColors g) c (aimTarget g) (activeShotTarget g)
         (showSkipConfirm g) (captureRequest g) (isFlying g) (ballPos g)
         (ballVel g) (anchorPos g) (aiHint g) (aiRationale g)
         (isAiThinking g).

Definition setAimTarget (g : Game) (t : option Point) : Game :=
  mkGame (bubbles g) (score g) (shotsTaken g) (selectedColor g)
         (availableColors g) (aiRecommendedColor g) t (activeShotTarget g)
         (showSkipConfirm g) (captureRequest g) (isFlying g) (ballPos g)
         (ballVel g) (anchorPos g) (aiHint g) (aiRationale g)
         (isAiThinking g).

Definition setActiveShotTarget (g : Game) (t : option Point) : Game :=
  mkGame (bubbles g) (score g) (shotsTaken g) (selectedColor g)
         (availableColors g) (aiRecommendedColor g) (aimTarget g) t
         (showSkipConfirm g) (captureRequest g) (isFlying g) (ballPos g)
         (ballVel g) (anchorPos g) (aiHint g) (aiRationale g)
         (isAiThinking g).

Definition setShowSkipConfirm (g : Game) (b : bool) : Game :=
  mkGame (bubbles g) (score g) (shotsTaken g) (selectedColor g)
         (availableColors g) (aiRecommendedColor g) (aimTarget g)
         (activeShotTarget g) b (captureRequest g) (isFlying g) (ballPos g)
         (ballVel g) (anchorPos g) (aiHint g) (aiRationale g)
         (isAiThinking g).

Definition setCaptureRequest (g : Game) (b : bool) : Game :=
  mkGame (bubbles g) (score g) (shotsTaken g) (selectedColor g)
         (availableColors g) (aiRecommendedColor g) (aimTarget g)
         (activeShotTarget g) (showSkipConfirm g) b (isFlying g) (ballPos g)
         (ballVel g) (anchorPos g) (aiHint g) (aiRationale g)
         (isAiThinking g).

Definition setFlight (g : Game) (flying : bool) (pos : Point) (vel : Point) : Game :=
  mkGame (bubbles g) (score g) (shotsTaken g) (selectedColor g)
         (availableColors g) (aiRecommendedColor g) (aimTarget g)
         (activeShotTarget g) (showSkipConfirm g) (captureRequest g) flying
         pos vel (anchorPos g) (aiHint g) (aiRationale g) (isAiThinking g).

Definition setAiHint (g : Game) (m : JsValue) (r : JsValue) : Game :=
  mkGame (bubbles g) (score g) (shotsTaken g) (selectedColor g)
         (availableColors g) (aiRecommendedColor g) (aimTarget g)
         (activeShotTarget g) (showSkipConfirm g) (captureRequest g)
         (isFlying g) (ballPos g) (ballVel g) (anchorPos g) m r
         (isAiThinking g).

Definition setIsAiThinking (g : Game) (b : bool) : Game :=
  mkGame (bubbles g) (score g) (shotsTaken g) (selectedColor g)
         (availableColors g) (aiRecommendedColor g) (aimTarget g)
         (activeShotTarget g) (showSkipConfirm g) (captureRequest g)
         (isFlying g) (ballPos g) (ballVel g) (anchorPos g) (aiHint g)
         (aiRationale g) b.

(** ** GridState *)

(** [updateAvailableColors]: the colours of the active tokens, in order of
    first appearance; the selected colour moves to the first of them when it
    is no longer on the board. *)
Definition activeColors (bs : list Bubble.t) : list BubbleColor :=
  fold_left (fun acc b => if Bubble.active b then setAdd acc (Bubble.color b) else acc)
            bs [].

Definition updateAvailableColors (g : Game) : Game :=
  let colors := activeColors (bubbles g) in
  let g1 := setAvailableColors g colors in
  match colors with
  | c0 :: _ => if negb (setHas colors (selectedColor g)) then setSelectedColor g1 c0 else g1
  | [] => g1
  end.

(** [b.row++] and the recomputed pixel position, for one token. *)
Definition shiftDown (width : R) (b : Bubble.t) : Bubble.t :=
  let r := Bubble.row b + 1 in
  let pos := getBubblePos r (Bubble.col b) width in
  Bubble.mk (Bubble.id b) r (Bubble.col b) (px pos) (py pos)
            (Bubble.color b) (Bubble.active b).

(** The colour drawn for a new token.  [k] stands for the value of
    [Math.floor(Math.random() * COLOR_KEYS.length)], an index of the
    palette. *)
Definition drawColor (k : nat) : BubbleColor :=
  nth (k mod List.length COLOR_KEYS)%nat COLOR_KEYS "red"%string.

Definition colsOfRow (r : Z) : Z :=
  if isOddRow r then GRID_COLS - 1 else GRID_COLS.

(** The [for] loop of [addNewRow]: the tokens pushed for the new row 0.
    [now] is the value of [Date.now()], [rnd c] the random index drawn for
    column [c]. *)
Definition newTopRow (width : R) (now : Z) (rnd : Z -> nat) : list Bubble.t :=
  let newRowIndex := 0 in
  let cols := colsOfRow newRowIndex in
  map (fun c =>
         let pos := getBubblePos newRowIndex c width in
         Bubble.mk (showZ now ++ "-" ++ showZ newRowIndex ++ "-" ++ showZ c)%string
                   newRowIndex c (px pos) (py pos) (drawColor (rnd c)) true)
      (range cols).

(** [addNewRow(width)]: every token moves down one row, the new row is
    pushed, the available colours are refreshed. *)
Definition addNewRow (width : R) (now : Z) (rnd : Z -> nat) (g : Game) : Game :=
  let shifted := map (shiftDown width) (bubbles g) in
  updateAvailableColors (setBubbles g (shifted ++ newTopRow width now rnd)).

(** [initGrid(width, diff)].  [keep r c] stands for
    [Math.random() > 0.05] in cell [(r, c)] and [rnd r c] for the random
    index drawn there.  The capture request it schedules for one second
    later is left out. *)
Definition initGrid (width : R) (diff : Difficulty) (keep : Z -> Z -> bool)
    (rnd : Z -> Z -> nat) (g : Game) : Game :=
  let config := DIFFICULTY_SETTINGS diff in
  let newBubbles :=
    flat_map (fun r =>
      flat_map (fun c =>
        if keep r c then
          let pos := getBubblePos r c width in
          [Bubble.mk (showZ r ++ "-" ++ showZ c)%string r c (px pos) (py pos)
                     (drawColor (rnd r c)) true]
        else [])
        (range (colsOfRow r)))
      (range (startingRows config)) in
  updateAvailableColors (setScore (setShotsTaken (setBubbles g newBubbles) 0) 0).

(** ** MatchEngine: [checkMatches] *)

(** The [while (toCheck.length > 0)] loop.  [toCheck] is kept top first:
    [pop()] takes the head, and [push(...l)] leaves the last element of [l]
    on top, so [rev l] goes in front.  [visited] is the set of ids,
    [matches] the array built by [matches.push].  The result is the pair of
    [matches] and [visited] when the stack is empty. *)
Fixpoint checkLoop (fuel : nat) (bs : list Bubble.t) (start : Bubble.t)
    (toCheck : list Bubble.t) (visited : list string) (matches : list Bubble.t)
  : option (list Bubble.t * list string) :=
  match toCheck with
  | [] => Some (matches, visited)
  | curr :: rest =>
    match fuel with
    | O => None
    | S fuel' =>
      if setHas visited (Bubble.id curr)
      then checkLoop fuel' bs start rest visited matches
      else
        let visited' := setAdd visited (Bubble.id curr) in
        if String.eqb (Bubble.color curr) (Bubble.color start) then
          let pushed :=
            filter (fun b => Bubble.active b
                             && negb (setHas visited' (Bubble.id b))
                             && isNeighbor curr b) bs in
          checkLoop fuel' bs start (rev pushed ++ rest) visited' (matches ++ [curr])
        else checkLoop fuel' bs start rest visited' matches
    end
  end.

(** Fuel that the loop never exhausts (see [checkLoop_enough_fuel]). *)
Definition loopFuel (bs : list Bubble.t) : nat :=
  S (S (List.length bs) * S (List.length bs)).

Definition findMatches (bs : list Bubble.t) (start : Bubble.t)
  : option (list Bubble.t * list string) :=
  checkLoop (loopFuel bs) bs start [start] [] [].

(** [b.active = false] on one token. *)
Definition setInactive (b : Bubble.t) : Bubble.t :=
  Bubble.mk (Bubble.id b) (Bubble.row b) (Bubble.col b) (Bubble.x b) (Bubble.y b)
            (Bubble.color b) false.

Definition hasId (l : list Bubble.t) (k : string) : bool :=
  existsb (fun m => String.eqb (Bubble.id m) k) l.

(** [matches.forEach(b => { b.active = false; ... })].  The elements of
    [matches] are the very objects held by [bubbles.current]; an object is
    identified by its id, so the write reaches the token of that id. *)
Definition deactivate (matches bs : list Bubble.t) : list Bubble.t :=
  map (fun b => if hasId matches (Bubble.id b) then setInactive b else b) bs.

(** The size bonus [(matches.length > 3 ? 1.5 : 1)]. *)
Definition sizeBonus (n : Z) : R := if 3 <? n then (15 / 10)%R else 1%R.

Definition pointsFor (difficulty : Difficulty) (accuracyBonus : R)
    (n : Z) (colorPoints : Z) : Z :=
  let multiplier := pointsMultiplier (DIFFICULTY_SETTINGS difficulty) in
  Zfloor (IZR n * IZR colorPoints * multiplier * sizeBonus n * accuracyBonus).

(** [checkMatches(start)], a closure over the difficulty and the accuracy
    bonus of the shot.  Reading [COLOR_CONFIG[c].hex] or [.points] for a
    colour outside the table throws. *)
Definition checkMatches (difficulty : Difficulty) (accuracyBonus : R)
    (start : Bubble.t) (g : Game) : Outcome Game :=
  match findMatches (bubbles g) start with
  | None => OutOfFuel
  | Some (matches, _) =>
    let n := Z.of_nat (List.length matches) in
    if 3 <=? n then
      match COLOR_CONFIG (Bubble.color start) with
      | None => Throws
      | Some cfg =>
        let g1 := setBubbles g (deactivate matches (bubbles g)) in
        let pointsGained := pointsFor difficulty accuracyBonus n (points cfg) in
        Returns (setScore g1 (score g1 + pointsGained))
      end
    else Returns g
  end.

(** ** ProjectileSimulator: resolution of a collision *)

(** [Math.sqrt(Math.pow(x1 - x2, 2) + Math.pow(y1 - y2, 2))]. *)
Definition distance (x1 y1 x2 y2 : R) : R :=
  sqrt ((x1 - x2) ^ 2 + (y1 - y2) ^ 2)%R.

(** The running minimum of the scan; [bestDist = None] is [Infinity]. *)
Record Best := mkBest {
  bestDist : option R;
  bestRow : Z;
  bestCol : Z;
  bestX : R;
  bestY : R
}.

Definition cellOccupied (bs : list Bubble.t) (r c : Z) : bool :=
  existsb (fun b => Bubble.active b && (Bubble.row b =? r) && (Bubble.col b =? c)) bs.

(** [d < bestDist]. *)
Definition closer (d : R) (bd : option R) : bool :=
  match bd with
  | None => true
  | Some b => if Rlt_dec d b then true else false
  end.

(** The body of the two nested loops for one cell [(r, c)]. *)
Definition scanCell (bs : list Bubble.t) (ball : Point) (width : R)
    (best : Best) (rc : Z * Z) : Best :=
  let r := fst rc in
  let c := snd rc in
  let p := getBubblePos r c width in
  if cellOccupied bs r c then best
  else
    let d := distance (px ball) (py ball) (px p) (py p) in
    if closer d (bestDist best) then mkBest (Some d) r c (px p) (py p) else best.

(** The cells in the order the loops visit them. *)
Definition gridCells : list (Z * Z) :=
  flat_map (fun r => map (fun c => (r, c)) (range (colsOfRow r))) (range GRID_ROWS).

Definition initialBest : Best := mkBest None 0 0 0%R 0%R.

Definition nearestFreeCell (bs : list Bubble.t) (ball : Point) (width : R) : Best :=
  fold_left (scanCell bs ball width) gridCells initialBest.

(** ** ScoringEngine: the accuracy of a shot *)

(** The label and the bonus, from the target stored at launch and the
    pixel the shot landed on. *)
Definition accuracy (target : option Point) (landX landY : R) : string * R :=
  match target with
  | None => (""%string, 1%R)
  | Some t =>
    let distToSuggested := distance landX landY (px t) (py t) in
    if Rlt_dec distToSuggested BUBBLE_RADIUS then ("CRITICAL HIT!"%string, 2%R)
    else if Rlt_dec distToSuggested (BUBBLE_RADIUS * (25 / 10))%R
         then ("GREAT AIM!"%string, (15 / 10)%R)
         else ("OFF TARGET"%string, 1%R)
  end.

(** The [if (collision)] branch of the frame handler: snap to the nearest
    free cell, rate the accuracy, place the token, resolve the match. *)
Definition resolveCollision (difficulty : Difficulty) (width : R) (now : Z)
    (g : Game) : Outcome Game :=
  let best := nearestFreeCell (bubbles g) (ballPos g) width in
  let acc := accuracy (activeShotTarget g) (bestX best) (bestY best) in
  let accuracyBonus := snd acc in
  let newB :=
    Bubble.mk (showZ (bestRow best) ++ "-" ++ showZ (bestCol best) ++ "-" ++ showZ now)%string
              (bestRow best) (bestCol best) (bestX best) (bestY best)
              (selectedColor g) true in
  let g1 := setBubbles (setFlight g false (ballPos g) (ballVel g))
                       (bubbles g ++ [newB]) in
  g2 <- checkMatches difficulty accuracyBonus newB g1 ;;
  let g3 := updateAvailableColors g2 in
  Returns (setCaptureRequest (setFlight g3 false (anchorPos g3) (ballVel g3)) true).

(** ** RoundController: launching and skipping *)

Definition MAX_DRAG_DIST : R := 180%R.
Definition MIN_FORCE_MULT : R := (15 / 100)%R.
Definition MAX_FORCE_MULT : R := (45 / 100)%R.

(** The release branch of the frame handler (the pinch ended while the
    ball was held).  [isLocked] is [isAiThinkingRef.current ||
    showSkipConfirm] as the handler sees it. *)
Definition releaseShot (difficulty : Difficulty) (width : R) (now : Z)
    (rnd : Z -> nat) (isLocked : bool) (g : Game) : Game :=
  if negb isLocked then
    let dx := (px (anchorPos g) - px (ballPos g))%R in
    let dy := (py (anchorPos g) - py (ballPos g))%R in
    let stretchDist := sqrt (dx * dx + dy * dy)%R in
    if Rlt_dec 30 stretchDist then
      let velMult :=
        (MIN_FORCE_MULT + (MAX_FORCE_MULT - MIN_FORCE_MULT)
                          * (Rmin (stretchDist / MAX_DRAG_DIST) 1) ^ 2)%R in
      let g1 := setFlight g true (ballPos g) (mkPoint (dx * velMult) (dy * velMult)) in
      let g2 := setShotsTaken g1 (shotsTaken g1 + 1) in
      let g3 := setActiveShotTarget g2 (aimTarget g2) in
      let diffCfg := DIFFICULTY_SETTINGS difficulty in
      if Z.rem (shotsTaken g3) (newRowFrequency diffCfg) =? 0
      then addNewRow width now rnd g3
      else g3
    else setFlight g (isFlying g) (anchorPos g) (ballVel g)
  else setFlight g (isFlying g) (anchorPos g) (ballVel g).

(** [skipTurn].  [canvas] is [canvasRef.current], by its width. *)
Definition skipTurn (difficulty : Difficulty) (canvas : option R) (now : Z)
    (rnd : Z -> nat) (g : Game) : Game :=
  let g1 := setShowSkipConfirm g false in
  let g2 := setShotsTaken g1 (shotsTaken g1 + 1) in
  let diffCfg := DIFFICULTY_SETTINGS difficulty in
  let g3 :=
    if Z.rem (shotsTaken g2) (newRowFrequency diffCfg) =? 0 then
      match canvas with
      | Some width => addNewRow width now rnd g2
      | None => g2
      end
    else g2 in
  setCaptureRequest g3 true.

(** ** AdvisorController: the service and its local fallback *)

Module TargetCandidate.
Record t := mk {
    id : string;
    color : string;
    size : Z;
    row : Z;
    col : Z;
    pointsPerBubble : Z;
    description : string
}.
End TargetCandidate.

Record StrategicHint := mkHint {
  message : JsValue;
  rationale : JsValue;
  targetRow : JsValue;
  targetCol : JsValue;
  recommendedColor : option string;
  suggestSkip : JsValue
}.

(** Truthiness, as [||] and [if] test it. *)
Definition truthy (v : JsValue) : bool :=
  match v with
  | JUndefined | JNull => false
  | JBool b => b
  | JNumber n => negb (n =? 0)
  | JString s => negb (String.eqb s "")
  | JObject => true
  end.

(** [a || b] on numbers. *)
Definition orElse (a b : Z) : Z := if a =? 0 then b else a.

(** The case of the ASCII letters. *)
Definition lowerAscii (a : ascii) : ascii :=
  let n := nat_of_ascii a in
  if ((65 <=? n) && (n <=? 90))%nat then ascii_of_nat (n + 32) else a.

Definition upperAscii (a : ascii) : ascii :=
  let n := nat_of_ascii a in
  if ((97 <=? n) && (n <=? 122))%nat then ascii_of_nat (n - 32) else a.

Fixpoint mapString (f : ascii -> ascii) (s : string) : string :=
  match s with
  | EmptyString => EmptyString
  | String a r => String (f a) (mapString f r)
  end.

(** A string of ASCII characters only. *)
Fixpoint asciiOnly (s : string) : bool :=
  match s with
  | EmptyString => true
  | String a r => (nat_of_ascii a <? 128)%nat && asciiOnly r
  end.

(** [s.toLowerCase()].  On a string of ASCII characters the method maps
    the letters A to Z and nothing else.  What it does to a string with
    other characters follows the case tables of Unicode, which are not
    written out here: [beyondAscii] stands for the method on such strings,
    and the statements hold whatever it is. *)
Definition toLowerCase (beyondAscii : string -> string) (s : string) : string :=
  if asciiOnly s then mapString lowerAscii s else beyondAscii s.

(** [s.toUpperCase()] on the ASCII letters.  It is used for the text of
    the fallback message alone, of which nothing is stated below but that
    it is not empty. *)
Definition toUpperCase : string -> string := mapString upperAscii.

(** [Array.prototype.sort(compare)]: a stable sort, here by insertion.  An
    element goes in front of the first one it does not compare greater
    than, so equal elements keep their order. *)
Fixpoint insertBy {A : Type} (compare : A -> A -> Z) (a : A) (l : list A) : list A :=
  match l with
  | [] => [a]
  | b :: r => if compare a b <=? 0 then a :: b :: r else b :: insertBy compare a r
  end.

Definition sortBy {A : Type} (compare : A -> A -> Z) (l : list A) : list A :=
  fold_right (insertBy compare) [] l.

(** The comparator of the fallback:
    [(scoreB - scoreA) || (a.row - b.row)]. *)
Definition compareTargets (a b : TargetCandidate.t) : Z :=
  let scoreA := TargetCandidate.size a * TargetCandidate.pointsPerBubble a in
  let scoreB := TargetCandidate.size b * TargetCandidate.pointsPerBubble b in
  orElse (scoreB - scoreA) (TargetCandidate.row a - TargetCandidate.row b).

(** [getBestLocalTarget(msg)]. *)
Definition getBestLocalTarget (validTargets : list TargetCandidate.t)
    (msg : string) : StrategicHint :=
  match sortBy compareTargets validTargets with
  | best :: _ =>
    mkHint (JString ("Fallback: Select " ++ toUpperCase (TargetCandidate.color best)
                     ++ " at Row " ++ showZ (TargetCandidate.row best))%string)
           (JString "Selected based on highest potential cluster score available locally.")
           (JNumber (TargetCandidate.row best))
           (JNumber (TargetCandidate.col best))
           (Some (TargetCandidate.color best))
           JUndefined
  | [] =>
    mkHint (JString msg) (JString "No valid clusters found to target.")
           JUndefined JUndefined None JUndefined
  end.

(** The fields the service reads from the parsed reply. *)
Record JsonFields := mkJson {
  json_message : JsValue;
  json_rationale : JsValue;
  json_targetRow : JsValue;
  json_targetCol : JsValue;
  json_recommendedColor : JsValue;
  json_suggestSkip : JsValue
}.

(** What comes back from the request: it fails, or its body does not
    parse, or parses to [null], or parses to a value whose fields are
    read (a field that is not there reads as [JUndefined]; so do all the
    fields of a parsed number, string, boolean or array).  An empty body is
    replaced by the text of the empty object before it is parsed
    ([response.text || "{}"]), and so is a parsed value without fields. *)
Inductive ServiceReply :=
| RequestFailed
| BodyUnparsable
| BodyNull
| BodyParsed (json : JsonFields).

(** [json.recommendedColor?.toLowerCase()]: absent stays absent, a string
    is lower-cased, anything else has no such method and throws. *)
Definition lowerCased (beyondAscii : string -> string) (v : JsValue)
    : Outcome (option string) :=
  match v with
  | JUndefined | JNull => Returns None
  | JString s => Returns (Some (toLowerCase beyondAscii s))
  | _ => Throws
  end.

(** [getStrategicHint], the [hint] of its result.  [aiReady] tells whether
    the client was created (an API key was present). *)
Definition getStrategicHint (beyondAscii : string -> string) (aiReady : bool)
    (validTargets : list TargetCandidate.t) (reply : ServiceReply) : StrategicHint :=
  if negb aiReady then
    mkHint (JString "API Key missing.") JUndefined JUndefined JUndefined None JUndefined
  else
    match reply with
    | RequestFailed => getBestLocalTarget validTargets "Service unreachable"
    | BodyUnparsable | BodyNull => getBestLocalTarget validTargets "Parse error"
    | BodyParsed json =>
      match lowerCased beyondAscii (json_recommendedColor json) with
      | Returns color =>
        mkHint (if truthy (json_message json) then json_message json else JString "Ready!")
               (json_rationale json) (json_targetRow json) (json_targetCol json)
               color (json_suggestSkip json)
      | _ => getBestLocalTarget validTargets "Parse error"
      end
    end.

(** [canvasRef.current?.width || 1000]. *)
Definition canvasWidthOr1000 (canvas : option R) : R :=
  match canvas with
  | Some w => if Req_dec_T w 0 then 1000%R else w
  | None => 1000%R
  end.

(** The continuation of [performAiAnalysis]: the hint folded into the
    state. *)
Definition applyHint (canvas : option R) (hint : StrategicHint) (g : Game) : Game :=
  let canvasWidth := canvasWidthOr1000 canvas in
  let g1 := setAiHint g (message hint)
                      (if truthy (rationale hint) then rationale hint else JNull) in
  let g2 := if truthy (suggestSkip hint) then setShowSkipConfirm g1 true else g1 in
  let g3 :=
    match targetRow hint, targetCol hint with
    | JNumber r, JNumber c =>
      let g21 :=
        match recommendedColor hint with
        | Some color =>
          if negb (String.eqb color "")
          then setSelectedColor (setAiRecommendedColor g2 (Some color)) color
          else g2
        | None => g2
        end in
      setAimTarget g21 (Some (getBubblePos r c canvasWidth))
    | _, _ => g2
    end in
  setIsAiThinking g3 false.

(** ** ProjectileSimulator: the flight of the ball *)

(** [Math.ceil(Math.sqrt(vx ** 2 + vy ** 2) / (BUBBLE_RADIUS * 0.8))]: the
    number of steps a frame of flight is cut into. *)
Definition flightSteps (vel : Point) : Z :=
  Zceil (sqrt (px vel ^ 2 + py vel ^ 2) / (BUBBLE_RADIUS * (8 / 10)))%R.

(** The ball after some steps of a frame: where it is, how it moves, and
    whether a collision was declared. *)
Record Flight := mkFlight {
  flightPos : Point;
  flightVel : Point;
  collision : bool
}.

(** The inner [for (const b of bubbles.current)] of a step: an active
    token nearer than 1.8 radii. *)
Definition hitsToken (bs : list Bubble.t) (pos : Point) : bool :=
  existsb (fun b =>
             Bubble.active b
             && (if Rlt_dec (distance (px pos) (py pos) (Bubble.x b) (Bubble.y b))
                            (BUBBLE_RADIUS * (18 / 10))%R
                 then true else false))
          bs.

(** One step of the loop: move, bounce off a side wall, test the top
    boundary, test the tokens. *)
Definition flightStep (bs : list Bubble.t) (width : R) (steps : Z)
    (pos vel : Point) : Flight :=
  let pos1 := mkPoint (px pos + px vel / IZR steps) (py pos + py vel / IZR steps) in
  let vel1 :=
    if (if Rlt_dec (px pos1) BUBBLE_RADIUS then true else false)
       || (if Rlt_dec (width - BUBBLE_RADIUS) (px pos1) then true else false)
    then mkPoint (px vel * -1) (py vel)
    else vel in
  if Rlt_dec (py pos1) BUBBLE_RADIUS then mkFlight pos1 vel1 true
  else mkFlight pos1 vel1 (hitsToken bs pos1).

(** [for (let i = 0; i < steps; i++)] with its [break] on a collision;
    [n] is the number of iterations left. *)
Fixpoint flightLoop (n : nat) (bs : list Bubble.t) (width : R) (steps : Z)
    (pos vel : Point) : Flight :=
  match n with
  | O => mkFlight pos vel false
  | S k =>
    let f := flightStep bs width steps pos vel in
    if collision f then f
    else flightLoop k bs width steps (flightPos f) (flightVel f)
  end.

(** The [if (isFlying.current)] part of the frame handler.  [elapsed] is
    [performance.now() - flightStartTime.current]. *)
Definition flightFrame (difficulty : Difficulty) (width : R) (now : Z)
    (elapsed : R) (g : Game) : Outcome Game :=
  if isFlying g then
    if Rlt_dec 5000 elapsed
    then Returns (setFlight g false (anchorPos g) (ballVel g))
    else
      let steps := flightSteps (ballVel g) in
      let f := flightLoop (Z.to_nat steps) (bubbles g) width steps
                          (ballPos g) (ballVel g) in
      let g1 := setFlight g true (flightPos f) (flightVel f) in
      if collision f then resolveCollision difficulty width now g1 else Returns g1
  else Returns g.

(** The last branch of the hand input of the frame handler, taken when the
    ball is neither flying nor held: the ball moves 15% of the way back to
    the anchor. *)
Definition settleBall (g : Game) : Game :=
  setFlight g (isFlying g)
            (mkPoint (px (ballPos g) + (px (anchorPos g) - px (ballPos g)) * (15 / 100))
                     (py (ballPos g) + (py (anchorPos g) - py (ballPos g)) * (15 / 100)))
            (ballVel g).

(** ** ReachabilityAnalyzer *)

(** The values of [i] in [for (let i = 1; i < steps - 2; i++)]. *)
Definition sampleIndices (steps : Z) : list Z :=
  map (fun k => k + 1) (range (steps - 3)).

(** The inner loop of [isPathClear] at the sample point [(cx, cy)]: an
    active token other than the target nearer than 1.8 radii. *)
Definition blockedAt (bs : list Bubble.t) (target : Bubble.t) (cx cy : R) : bool :=
  existsb (fun b =>
             negb (negb (Bubble.active b) || String.eqb (Bubble.id b) (Bubble.id target))
             && (if Rlt_dec ((cx - Bubble.x b) ^ 2 + (cy - Bubble.y b) ^ 2)%R
                            ((BUBBLE_RADIUS * (18 / 10)) ^ 2)%R
                 then true else false))
          bs.

(** [isPathClear(target)], over the anchor and the grid it reads. *)
Definition isPathClear (anchor : Point) (bs : list Bubble.t) (target : Bubble.t) : bool :=
  let startX := px anchor in
  let startY := py anchor in
  let dx := (Bubble.x target - startX)%R in
  let dy := (Bubble.y target - startY)%R in
  let distance := sqrt (dx * dx + dy * dy)%R in
  let steps := Zceil (distance / (BUBBLE_RADIUS / 2))%R in
  forallb (fun i =>
             let t := (IZR i / IZR steps)%R in
             let cx := (startX + dx * t)%R in
             let cy := (startY + dy * t)%R in
             negb (blockedAt bs target cx cy))
          (sampleIndices steps).

(** The [while (queue.length > 0)] loop of [getAllReachableClusters]:
    [shift()] takes the head of the queue, [push] adds at its end. *)
Fixpoint bfsLoop (fuel : nat) (activeBubbles : list Bubble.t) (color : BubbleColor)
    (queue : list Bubble.t) (visited : list string) (clusterMembers : list Bubble.t)
  : option (list Bubble.t * list string) :=
  match queue with
  | [] => Some (clusterMembers, visited)
  | curr :: rest =>
    match fuel with
    | O => None
    | S fuel' =>
      let neighbors :=
        filter (fun n => negb (setHas visited (Bubble.id n))
                         && String.eqb (Bubble.color n) color
                         && isNeighbor curr n) activeBubbles in
      let visited' := fold_left (fun v n => setAdd v (Bubble.id n)) neighbors visited in
      bfsLoop fuel' activeBubbles color (rest ++ neighbors) visited'
              (clusterMembers ++ [curr])
    end
  end.

(** Fuel that the queue loop never exhausts (see [bfsLoop_terminates]). *)
Definition bfsFuel (activeBubbles : list Bubble.t) : nat :=
  S (2 * List.length activeBubbles).

(** The sign of a comparison result, which is all that [sort] reads. *)
Definition signR (x : R) : Z :=
  if Rlt_dec x 0 then -1 else if Rlt_dec 0 x then 1 else 0.

(** ["Left"], ["Right"] or ["Center"], by the share of the width. *)
Definition describeSide (xPct : R) : string :=
  if Rlt_dec xPct (33 / 100) then "Left"
  else if Rlt_dec (66 / 100) xPct then "Right" else "Center".

(** The body of [for (const b of activeBubbles)] for one colour, on the
    visited set and the clusters collected so far.  [containerWidth] is
    [gameContainerRef.current?.clientWidth || window.innerWidth]. *)
Definition clusterStep (anchor : Point) (containerWidth : R) (bs : list Bubble.t)
    (activeBubbles : list Bubble.t) (color : BubbleColor)
    (acc : Outcome (list string * list TargetCandidate.t)) (b : Bubble.t)
  : Outcome (list string * list TargetCandidate.t) :=
  state <- acc ;;
  let visited := fst state in
  let allClusters := snd state in
  if negb (String.eqb (Bubble.color b) color) || setHas visited (Bubble.id b)
  then Returns (visited, allClusters)
  else
    match bfsLoop (bfsFuel activeBubbles) activeBubbles color [b]
                  (setAdd visited (Bubble.id b)) [] with
    | None => OutOfFuel
    | Some (clusterMembers, visited') =>
      let sorted :=
        sortBy (fun a b0 => signR (Bubble.y b0 - Bubble.y a)) clusterMembers in
      match find (isPathClear anchor bs) sorted with
      | Some hittableMember =>
        let xPct := (Bubble.x hittableMember / containerWidth)%R in
        match COLOR_CONFIG color with
        | None => Throws
        | Some cfg =>
          Returns (visited',
                   allClusters ++
                   [TargetCandidate.mk (Bubble.id hittableMember) color
                      (Z.of_nat (List.length clusterMembers))
                      (Bubble.row hittableMember) (Bubble.col hittableMember)
                      (points cfg) (describeSide xPct)])
        end
      | None => Returns (visited', allClusters)
      end
    end.

(** [getAllReachableClusters()]. *)
Definition getAllReachableClusters (anchor : Point) (containerWidth : R)
    (bs : list Bubble.t) : Outcome (list TargetCandidate.t) :=
  let activeBubbles := filter Bubble.active bs in
  let uniqueColors := fold_left setAdd (map Bubble.color activeBubbles) [] in
  fold_left
    (fun acc color =>
       allClusters <- acc ;;
       state <- fold_left (clusterStep anchor containerWidth bs activeBubbles color)
                          activeBubbles (Returns ([], allClusters)) ;;
       Returns (snd state))
    uniqueColors (Returns []).

(** ** AdvisorController: the danger level *)

(** [bubbles.current.reduce((max, b) => b.active ? Math.max(max, b.row) :
    max, 0)] of [performAiAnalysis]. *)
Definition maxRow (bs : list Bubble.t) : Z :=
  fold_left (fun max b => if Bubble.active b then Z.max max (Bubble.row b) else max)
            bs 0.

(** [dangerRow >= 6 ? "CRITICAL" : "Stable"] of the prompt. *)
Definition dangerLevel (dangerRow : Z) : string :=
  if 6 <=? dangerRow then "CRITICAL" else "Stable".

(** ** The animated score *)

(** One run of the effect on [score] and [displayScore], with its timer
    fired: [Math.ceil(diff / 10)] on integers is [- ((- diff) / 10)]. *)
Definition animateScore (score displayScore : Z) : Z :=
  if displayScore <? score then
    let diff := score - displayScore in
    let step := - ((- diff) / 10) in
    Z.min (displayScore + step) score
  else displayScore.

(** ** Renderer: the colour look-ups of a frame *)

(** [drawBubble]: [COLOR_CONFIG[colorKey].hex], the base colour of the
    gradient.  The canvas calls are left out; reading [.hex] for a colour
    outside the table throws. *)
Definition drawBubble (colorKey : BubbleColor) : Outcome string :=
  match COLOR_CONFIG colorKey with
  | Some config => Returns (hex config)
  | None => Throws
  end.

(** [bubbles.current.forEach(b => b.active && drawBubble(...))]: the base
    colours drawn, in order. *)
Definition drawTokens (bs : list Bubble.t) : Outcome (list string) :=
  fold_left (fun acc b =>
               drawn <- acc ;;
               if Bubble.active b
               then baseColor <- drawBubble (Bubble.color b) ;;
                    Returns (drawn ++ [baseColor])
               else Returns drawn)
            bs (Returns []).

(** The colour of the aim line, if the line is drawn.  [aiRecommendedColor]
    is the value of that state cell as the handler sees it. *)
Definition aimLineColor (aiRecommendedColor : option BubbleColor) (g : Game)
  : Outcome (option string) :=
  let currentAim := aimTarget g in
  let currentSelected := selectedColor g in
  if (match currentAim with Some _ => true | None => false end
      && negb (isFlying g)
      && match aiRecommendedColor with
         | None => true
         | Some c => String.eqb c "" || String.eqb c currentSelected
         end)
     || isAiThinking g
  then
    if isAiThinking g then Returns (Some "#a8c7fa"%string)
    else match COLOR_CONFIG currentSelected with
         | Some config => Returns (Some (hex config))
         | None => Throws
         end
  else Returns None.

(** The drawing part of the frame handler, by the colours it looks up:
    the tokens, the aim line, the ball. *)
Definition drawFrame (aiRecommendedColor : option BubbleColor) (g : Game)
  : Outcome (list string * option string * string) :=
  tokens <- drawTokens (bubbles g) ;;
  line <- aimLineColor aiRecommendedColor g ;;
  ball <- drawBubble (selectedColor g) ;;
  Returns (tokens, line, ball).

(** ** The colour buttons *)

(** [COLOR_KEYS.filter(c => availableColors.includes(c))]: the buttons of
    the colour selector; a click on one calls [setSelectedColor]. *)
Definition colorButtons (g : Game) : list BubbleColor :=
  filter (fun c => setHas (availableColors g) c) COLOR_KEYS.

(** ** Live audio: the samples *)

(** What storing a number into an [Int16Array] does to it: the number is
    truncated towards zero and wrapped into [-32768 .. 32767]. *)
Definition truncate (x : R) : Z :=
  if Rlt_dec x 0 then - Zfloor (- x) else Zfloor x.

Definition toInt16 (x : R) : Z :=
  let int16bit := truncate x mod 65536 in
  if 32768 <=? int16bit then int16bit - 65536 else int16bit.

(** [createBlob], by the contents of its [Int16Array]:
    [int16[i] = data[i] * 32768].  The base64 wrapping is left out. *)
Definition createBlob (data : list R) : list Z :=
  map (fun sample => toInt16 (sample * 32768)) data.

(** [dataInt16[...] / 32768.0], the sample [decodeAudioData] stores. *)
Definition decodeSample (pcm : Z) : R := (IZR pcm / 32768)%R.

(* ================================================================== *)
(** * Part II: notions and boards the properties are stated with       *)
(* ================================================================== *)

(** ** Notions *)

(** The rule [isNeighbor] applies, read off the row and column
    differences: the three cases of the offset-hex adjacency. *)
Definition offsetHexRule (a b : Bubble.t) : bool :=
  let dr := Bubble.row b - Bubble.row a in
  let dc := Bubble.col b - Bubble.col a in
  match Z.abs dr with
  | 0 => Z.abs dc =? 1
  | 1 => if Z.odd (Bubble.row a) then (dc =? 0) || (dc =? 1)
         else (dc =? -1) || (dc =? 0)
  | _ => false
  end.

(** The same-colour region of [start]: the tokens reached from [start]
    through neighbour edges that lead to active tokens of the grid carrying
    the colour of [start]. *)
Inductive connected (bs : list Bubble.t) (start : Bubble.t) : Bubble.t -> Prop :=
| connected_origin : connected bs start start
| connected_step (u v : Bubble.t) :
    connected bs start u ->
    In v bs ->
    Bubble.active v = true ->
    Bubble.color v = Bubble.color start ->
    isNeighbor u v = true ->
    connected bs start v.

(** Two tokens that differ at most in their [active] flag. *)
Definition sameButActive (b b' : Bubble.t) : Prop :=
  Bubble.id b' = Bubble.id b /\
  Bubble.row b' = Bubble.row b /\ Bubble.col b' = Bubble.col b /\
  Bubble.x b' = Bubble.x b /\ Bubble.y b' = Bubble.y b /\
  Bubble.color b' = Bubble.color b.

(** A grid [bs'] is [bs] with exactly the region of [start] deactivated:
    token by token, a member of the region is inactive afterwards and
    otherwise the token it was, and any other token is untouched (so it
    is active afterwards exactly when it was before). *)
Definition removesRegion (bs : list Bubble.t) (start : Bubble.t)
    (bs' : list Bubble.t) : Prop :=
  Forall2 (fun b b' =>
             (connected bs start b ->
              Bubble.active b' = false /\ sameButActive b b') /\
             (~ connected bs start b -> b' = b))
          bs bs'.

(** A cell the scan visits: within the row ceiling and the row's width. *)
Definition validCell (r c : Z) : Prop :=
  0 <= r < GRID_ROWS /\ 0 <= c < colsOfRow r.

(** The distance from the ball to the centre of a cell. *)
Definition cellDistance (ball : Point) (width : R) (rc : Z * Z) : R :=
  let p := getBubblePos (fst rc) (snd rc) width in
  distance (px ball) (py ball) (px p) (py p).

(** The record the scan keeps when it settles on a cell. *)
Definition bestAt (ball : Point) (width : R) (rc : Z * Z) : Best :=
  let p := getBubblePos (fst rc) (snd rc) width in
  mkBest (Some (cellDistance ball width rc)) (fst rc) (snd rc) (px p) (py p).

(** Row-major order: an earlier row, or the same row and an earlier column. *)
Definition cellBefore (a b : Z * Z) : Prop :=
  fst a < fst b \/ (fst a = fst b /\ snd a < snd b).

Definition cellBeforeb (a b : Z * Z) : bool :=
  (fst a <? fst b) || ((fst a =? fst b) && (snd a <? snd b)).

Fixpoint orderedCells (l : list (Z * Z)) : bool :=
  match l with
  | [] => true
  | a :: r => forallb (cellBeforeb a) r && orderedCells r
  end.

(** The potential score of a candidate, [size * pointsPerBubble]. *)
Definition clusterScore (t : TargetCandidate.t) : Z :=
  TargetCandidate.size t * TargetCandidate.pointsPerBubble t.

(** A candidate that no other beats: the largest potential score, and the
    smallest row among those with that score. *)
Definition bestCandidate (l : list TargetCandidate.t) (best : TargetCandidate.t) : Prop :=
  In best l /\
  forall c, In c l ->
    clusterScore c <= clusterScore best /\
    (clusterScore c = clusterScore best ->
     TargetCandidate.row best <= TargetCandidate.row c).

(** The replies after which the service answers from the fallback: the
    request failed, the body did not parse, or reading the parsed body
    threw, which it does when the body is [null] and when the colour it
    recommends is there and is not a string. *)
Definition failedReply (reply : ServiceReply) : bool :=
  match reply with
  | RequestFailed | BodyUnparsable | BodyNull => true
  | BodyParsed json =>
    match json_recommendedColor json with
    | JUndefined | JNull | JString _ => false
    | _ => true
    end
  end.

(** A hint that carries the fields of a parsed reply as they are, with
    ["Ready!"] for a message that is not truthy. *)
Definition fieldsPassedOn (json : JsonFields) (h : StrategicHint) : Prop :=
  message h = (if truthy (json_message json) then json_message json
               else JString "Ready!") /\
  rationale h = json_rationale json /\
  targetRow h = json_targetRow json /\
  targetCol h = json_targetCol json /\
  suggestSkip h = json_suggestSkip json.

(** An active token of the grid lies past the playable rows, which are
    the rows 0 to [GRID_ROWS - 1]. *)
Definition pastCeiling (bs : list Bubble.t) : Prop :=
  exists b, In b bs /\ Bubble.active b = true /\ GRID_ROWS <= Bubble.row b.

(** Tokens of the grid (and the origin) whose id is not yet visited, and
    the measure that decreases with every iteration of the match loop. *)
Definition unvisited (bs : list Bubble.t) (start : Bubble.t)
    (visited : list string) : list Bubble.t :=
  filter (fun b => negb (setHas visited (Bubble.id b))) (start :: bs).

Definition loopMeasure (bs : list Bubble.t) (start : Bubble.t)
    (toCheck : list Bubble.t) (visited : list string) : nat :=
  (List.length (unvisited bs start visited) * S (List.length bs)
   + List.length toCheck)%nat.

(** The state of the loop between two iterations. *)
Record loopInv (bs : list Bubble.t) (start : Bubble.t)
    (toCheck : list Bubble.t) (visited : list string)
    (matches : list Bubble.t) : Prop := mkLoopInv {
  inv_matches : forall m, In m matches ->
      connected bs start m /\ In (Bubble.id m) visited;
  inv_stack : forall b, In b toCheck ->
      In b bs /\ Bubble.active b = true /\
      (b = start \/ exists m, In m matches /\ isNeighbor m b = true);
  inv_frontier : forall m b, In m matches -> In b bs ->
      Bubble.active b = true -> isNeighbor m b = true ->
      In (Bubble.id b) visited \/ In b toCheck;
  inv_origin : In start toCheck \/ In (Bubble.id start) visited;
  inv_visited : forall b, In b bs -> In (Bubble.id b) visited ->
      Bubble.active b = true /\
      (Bubble.color b = Bubble.color start -> In b matches);
  inv_nodup : NoDup matches
}.

(** A list of strings without repetition, decided by computation. *)
Fixpoint distinct (l : list string) : bool :=
  match l with
  | [] => true
  | k :: r => negb (setHas r k) && distinct r
  end.

(** A cell no active token of the grid is in. *)
Definition freeCell (bs : list Bubble.t) (rc : Z * Z) : Prop :=
  cellOccupied bs (fst rc) (snd rc) = false.

(** The token a shot leaves behind when the scan found nothing: the
    record the scan started from is cell (0, 0) at pixel (0, 0). *)
Definition strayToken (now : Z) (color : BubbleColor) : Bubble.t :=
  Bubble.mk (showZ 0 ++ "-" ++ showZ 0 ++ "-" ++ showZ now)%string 0 0 0%R 0%R color true.

(** Order of the sorted array: [a] may stand before [b]. *)
Definition notAfter {A : Type} (compare : A -> A -> Z) (a b : A) : Prop :=
  compare a b <= 0.

(** Everything of the state but the grid, the available colours and the
    selected colour. *)
Definition untouchedByGrowth (g g' : Game) : Prop :=
  score g' = score g /\ shotsTaken g' = shotsTaken g /\
  aiRecommendedColor g' = aiRecommendedColor g /\ aimTarget g' = aimTarget g /\
  activeShotTarget g' = activeShotTarget g /\
  showSkipConfirm g' = showSkipConfirm g /\ captureRequest g' = captureRequest g /\
  isFlying g' = isFlying g /\ ballPos g' = ballPos g /\ ballVel g' = ballVel g /\
  anchorPos g' = anchorPos g /\ aiHint g' = aiHint g /\
  aiRationale g' = aiRationale g /\ isAiThinking g' = isAiThinking g.

(** Two different tokens of the grid, both active, in one cell. *)
Definition sharedCell (bs : list Bubble.t) : Prop :=
  exists a b : Bubble.t,
    In a bs /\ In b bs /\ Bubble.id a <> Bubble.id b /\
    Bubble.active a = true /\ Bubble.active b = true /\
    Bubble.row a = Bubble.row b /\ Bubble.col a = Bubble.col b.

(** A token drawn where its cell is, on a canvas of width [W]. *)
Definition onItsCell (W : R) (b : Bubble.t) : Prop :=
  mkPoint (Bubble.x b) (Bubble.y b) = getBubblePos (Bubble.row b) (Bubble.col b) W.

(** A token drawn where its cell is up to a hundredth of a pixel in each
    coordinate: the pixel the program stores is computed in floating
    point, from a row height that is itself a rounded value, and so is
    the centre of the cell only up to the rounding. *)
Definition nearItsCell (W : R) (b : Bubble.t) : Prop :=
  let p := getBubblePos (Bubble.row b) (Bubble.col b) W in
  (Rabs (Bubble.x b - px p) <= 1 / 100)%R /\
  (Rabs (Bubble.y b - py p) <= 1 / 100)%R.

(** [b'] is the token [b], possibly deactivated: the same id, cell, pixel
    and colour, and active only if [b] is. *)
Definition sameToken (b b' : Bubble.t) : Prop :=
  Bubble.id b' = Bubble.id b /\ Bubble.row b' = Bubble.row b /\
  Bubble.col b' = Bubble.col b /\ Bubble.x b' = Bubble.x b /\
  Bubble.y b' = Bubble.y b /\ Bubble.color b' = Bubble.color b /\
  (Bubble.active b' = true -> Bubble.active b = true).

(** The token the resolution of a collision pushes, as [onResults] builds
    it from the scan, the selected colour and the time. *)
Definition landedToken (width : R) (now : Z) (g : Game) : Bubble.t :=
  let best := nearestFreeCell (bubbles g) (ballPos g) width in
  Bubble.mk (showZ (bestRow best) ++ "-" ++ showZ (bestCol best) ++ "-" ++ showZ now)%string
            (bestRow best) (bestCol best) (bestX best) (bestY best)
            (selectedColor g) true.

(** The bonus of a shot as the specification words it, a function of the
    distance between the landing pixel and the target pixel. *)
Definition tierBonus (d : R) : R :=
  if Rlt_dec d BUBBLE_RADIUS then 2%R
  else if Rlt_dec d (BUBBLE_RADIUS * (25 / 10))%R then (15 / 10)%R
       else 1%R.

(** The bonus of the shot that collides in state [g]: the tier of the
    distance from the pixel of the cell the shot snaps to, to the target
    stored at launch; 1 when no target was stored. *)
Definition shotBonus (width : R) (g : Game) : R :=
  let best := nearestFreeCell (bubbles g) (ballPos g) width in
  match activeShotTarget g with
  | Some t => tierBonus (distance (bestX best) (bestY best) (px t) (py t))
  | None => 1%R
  end.

(** Several skipped turns in a row, each with its own clock reading and
    colour draws. *)
Fixpoint skipTurns (difficulty : Difficulty) (width : R)
    (inputs : list (Z * (Z -> nat))) (g : Game) : Game :=
  match inputs with
  | [] => g
  | (now, rnd) :: rest =>
    skipTurns difficulty width rest (skipTurn difficulty (Some width) now rnd g)
  end.

(** The tokens of [color] whose identifier the set [visited] does not
    hold: what the queue loop of the cluster search can still take up. *)
Definition unvisitedOf (activeBubbles : list Bubble.t) (color : BubbleColor)
    (visited : list string) : list Bubble.t :=
  filter (fun n => negb (setHas visited (Bubble.id n))
                   && String.eqb (Bubble.color n) color) activeBubbles.

(** A set of identifiers that no neighbour edge between two tokens of
    [color] leaves. *)
Definition closedSet (activeBubbles : list Bubble.t) (color : BubbleColor)
    (visited : list string) : Prop :=
  forall u v, In u activeBubbles -> In v activeBubbles ->
    Bubble.color u = color -> Bubble.color v = color ->
    In (Bubble.id u) visited -> isNeighbor u v = true -> In (Bubble.id v) visited.

Definition sideNames : list string := ["Left"; "Center"; "Right"]%string.

(** A candidate that names a token of the grid the ball has a clear path
    to, with the fields of that token, the points of its colour, and a size
    between 1 and the number of active tokens of that colour. *)
Definition hittableCandidate (anchor : Point) (bs : list Bubble.t)
    (c : TargetCandidate.t) : Prop :=
  exists (h : Bubble.t) (cfg : ColorEntry),
    In h bs /\ Bubble.active h = true /\ isPathClear anchor bs h = true /\
    TargetCandidate.id c = Bubble.id h /\
    TargetCandidate.color c = Bubble.color h /\
    TargetCandidate.row c = Bubble.row h /\
    TargetCandidate.col c = Bubble.col h /\
    COLOR_CONFIG (Bubble.color h) = Some cfg /\
    TargetCandidate.pointsPerBubble c = points cfg /\
    1 <= TargetCandidate.size c
      <= Z.of_nat (List.length
                     (filter (fun x => String.eqb (Bubble.color x) (Bubble.color h))
                             (filter Bubble.active bs))) /\
    In (TargetCandidate.description c) sideNames.

(** A candidate whose size is the size of the same-colour region of the
    token it names, that token being the lowest on the screen of the
    region's tokens with a clear path. *)
Definition regionCandidate (anchor : Point) (bs : list Bubble.t)
    (c : TargetCandidate.t) : Prop :=
  exists (h : Bubble.t) (members : list Bubble.t),
    In h bs /\ Bubble.active h = true /\ isPathClear anchor bs h = true /\
    TargetCandidate.id c = Bubble.id h /\
    NoDup members /\
    (forall v, In v members <-> connected bs h v) /\
    TargetCandidate.size c = Z.of_nat (List.length members) /\
    (forall v, In v members -> isPathClear anchor bs v = true ->
               (Bubble.y v <= Bubble.y h)%R).

(** What is known of an outcome: [I] of a returned value, [T] when it
    throws, and that the fuel was enough. *)
Definition outcomeIs {A : Type} (I : A -> Prop) (T : Prop) (o : Outcome A) : Prop :=
  match o with
  | Returns a => I a
  | Throws => T
  | OutOfFuel => False
  end.

(** An active token the ball has a clear path to and whose colour the
    colour table does not have. *)
Definition hittableOffPalette (anchor : Point) (bs : list Bubble.t) : Prop :=
  exists h, In h bs /\ Bubble.active h = true /\
            isPathClear anchor bs h = true /\ COLOR_CONFIG (Bubble.color h) = None.

(** The state of the queue loop of the cluster search between two
    iterations; [V0] is the visited set the search of this cluster began
    with. *)
Record bfsInv (bs : list Bubble.t) (color : BubbleColor) (V0 : list string)
    (start : Bubble.t) (queue : list Bubble.t) (visited : list string)
    (clusterMembers : list Bubble.t) : Prop := mkBfsInv {
  bfs_sub : forall x, In x (clusterMembers ++ queue) ->
      In x (filter Bubble.active bs) /\ Bubble.color x = color /\
      In (Bubble.id x) visited /\ ~ In (Bubble.id x) V0 /\ connected bs start x;
  bfs_visited : forall x, In x (filter Bubble.active bs) -> Bubble.color x = color ->
      In (Bubble.id x) visited ->
      In (Bubble.id x) V0 \/ In x (clusterMembers ++ queue);
  bfs_done : forall u v, In u clusterMembers -> In v (filter Bubble.active bs) ->
      Bubble.color v = color -> isNeighbor u v = true -> In (Bubble.id v) visited;
  bfs_nodup : NoDup (clusterMembers ++ queue);
  bfs_start : In start (clusterMembers ++ queue);
  bfs_grows : incl V0 visited
}.

(** A token some candidate stands for: the candidate names a token of the
    same region. *)
Definition covered (bs : list Bubble.t) (clusters : list TargetCandidate.t)
    (v : Bubble.t) : Prop :=
  exists c h, In c clusters /\ In h bs /\
              TargetCandidate.id c = Bubble.id h /\ connected bs h v.

(** No two candidates stand for the same region. *)
Definition onePerRegion (bs : list Bubble.t) (clusters : list TargetCandidate.t) : Prop :=
  forall c1 c2 h1 h2, In c1 clusters -> In c2 clusters -> In h1 bs -> In h2 bs ->
    TargetCandidate.id c1 = Bubble.id h1 -> TargetCandidate.id c2 = Bubble.id h2 ->
    connected bs h1 h2 -> TargetCandidate.id c1 = TargetCandidate.id c2.

(** The state of the pass over the active tokens for one colour, after the
    tokens [pre]; [cs0] are the candidates the pass began with. *)
Definition passInv (anchor : Point) (bs : list Bubble.t) (color : BubbleColor)
    (cs0 : list TargetCandidate.t) (pre : list Bubble.t)
    (state : list string * list TargetCandidate.t) : Prop :=
  closedSet (filter Bubble.active bs) color (fst state) /\
  (forall x, In x pre -> Bubble.color x = color -> In (Bubble.id x) (fst state)) /\
  incl cs0 (snd state) /\
  Forall (regionCandidate anchor bs) (snd state) /\
  (forall v, In v (filter Bubble.active bs) -> Bubble.color v = color ->
             In (Bubble.id v) (fst state) -> isPathClear anchor bs v = true ->
             covered bs (snd state) v) /\
  (forall c, In c (snd state) ->
             In c cs0 \/
             exists h, In h (filter Bubble.active bs) /\
                       TargetCandidate.id c = Bubble.id h /\
                       Bubble.color h = color /\ In (Bubble.id h) (fst state)) /\
  NoDup (map TargetCandidate.id (snd state)) /\
  onePerRegion bs (snd state).

(** The candidates collected after the colours [done]. *)
Definition searchInv (anchor : Point) (bs : list Bubble.t) (done : list BubbleColor)
    (cs : list TargetCandidate.t) : Prop :=
  Forall (regionCandidate anchor bs) cs /\
  (forall v, In v (filter Bubble.active bs) -> In (Bubble.color v) done ->
             isPathClear anchor bs v = true -> covered bs cs v) /\
  (forall c, In c cs ->
             exists h, In h (filter Bubble.active bs) /\
                       TargetCandidate.id c = Bubble.id h /\ In (Bubble.color h) done) /\
  NoDup (map TargetCandidate.id cs) /\
  onePerRegion bs cs.

(** Every colour the engine may have to look up is in the colour table:
    the colours of the active tokens and the selected colour. *)
Definition paletteTokens (bs : list Bubble.t) : Prop :=
  forall b, In b bs -> Bubble.active b = true -> In (Bubble.color b) COLOR_KEYS.

Definition paletteState (g : Game) : Prop :=
  paletteTokens (bubbles g) /\ In (selectedColor g) COLOR_KEYS.

(** A hint whose colour, if it has one, is blank or of the palette. *)
Definition hintInPalette (hint : StrategicHint) : Prop :=
  forall c, recommendedColor hint = Some c -> c = ""%string \/ In c COLOR_KEYS.

(** What can happen to the state of a round on a canvas of a given width:
    a new grid, a release, a frame of flight, a skip, a click on a colour
    button, a hint with a palette colour folded in. *)
Inductive engineStep (width : R) (g : Game) : Game -> Prop :=
| step_init (diff : Difficulty) (keep : Z -> Z -> bool) (rnd : Z -> Z -> nat) :
    engineStep width g (initGrid width diff keep rnd g)
| step_release (difficulty : Difficulty) (now : Z) (rnd : Z -> nat) (isLocked : bool) :
    engineStep width g (releaseShot difficulty width now rnd isLocked g)
| step_flight (difficulty : Difficulty) (now : Z) (elapsed : R) (g' : Game) :
    flightFrame difficulty width now elapsed g = Returns g' ->
    engineStep width g g'
| step_skip (difficulty : Difficulty) (canvas : option R) (now : Z) (rnd : Z -> nat) :
    engineStep width g (skipTurn difficulty canvas now rnd g)
| step_select (color : BubbleColor) :
    In color (colorButtons g) ->
    engineStep width g (setSelectedColor g color)
| step_hint (canvas : option R) (hint : StrategicHint) :
    hintInPalette hint ->
    engineStep width g (applyHint canvas hint g).

Inductive engineRuns (width : R) (g : Game) : Game -> Prop :=
| runs_here : engineRuns width g g
| runs_on (g1 g2 : Game) :
    engineRuns width g g1 -> engineStep width g1 g2 -> engineRuns width g g2.

(** Several frames of the flight in a row, each with its clock reading and
    the time since the launch. *)
Fixpoint flightFrames (difficulty : Difficulty) (width : R)
    (inputs : list (Z * R)) (g : Game) : Outcome Game :=
  match inputs with
  | [] => Returns g
  | (now, elapsed) :: rest =>
    g1 <- flightFrame difficulty width now elapsed g ;;
    flightFrames difficulty width rest g1
  end.

(** The ball between the side walls, or past one of them by no more than
    the step it has just made and already turned back. *)
Definition onCourt (width : R) (steps : Z) (pos vel : Point) : Prop :=
  (BUBBLE_RADIUS <= px pos <= width - BUBBLE_RADIUS)%R \/
  ((0 < px vel)%R /\
   (BUBBLE_RADIUS - px vel / IZR steps <= px pos < BUBBLE_RADIUS)%R) \/
  ((px vel < 0)%R /\
   (width - BUBBLE_RADIUS < px pos <= width - BUBBLE_RADIUS - px vel / IZR steps)%R).

(** A string without the separator of the token identifiers. *)
Fixpoint noDash (s : string) : bool :=
  match s with
  | EmptyString => true
  | String a r => negb (Ascii.eqb a "-") && noDash r
  end.

(** ** Boards used as examples *)

(** An active token in cell [(r, c)] of a board 1000 pixels wide. *)
Definition tokenAt (k : string) (r c : Z) (color : BubbleColor) : Bubble.t :=
  let pos := getBubblePos r c 1000 in
  Bubble.mk k r c (px pos) (py pos) color true.

(** The state the component is created with, on a canvas 1000 wide and 720
    high: nothing on the board yet, no score, red selected, the ball at rest
    on the anchor. *)
Definition emptyGame : Game :=
  mkGame [] 0 0 "red"%string [] None None None false false false
         (mkPoint 500 500) (mkPoint 0 0) (mkPoint 500 500)
         (JString "Initializing Fast strategy...") JNull false.

(** Two isolated red clusters: five tokens in row 0 and three in row 4. *)
Definition fiveCluster : list Bubble.t :=
  [tokenAt "0-0"%string 0 0 "red"%string;
   tokenAt "0-1"%string 0 1 "red"%string;
   tokenAt "0-2"%string 0 2 "red"%string;
   tokenAt "0-3"%string 0 3 "red"%string;
   tokenAt "0-4"%string 0 4 "red"%string].

Definition threeCluster : list Bubble.t :=
  [tokenAt "4-0"%string 4 0 "red"%string;
   tokenAt "4-1"%string 4 1 "red"%string;
   tokenAt "4-2"%string 4 2 "red"%string].

(** The tokens the two clusters are resolved from. *)
Definition originFive : Bubble.t := tokenAt "0-2"%string 0 2 "red"%string.
Definition originThree : Bubble.t := tokenAt "4-2"%string 4 2 "red"%string.

Definition twoClusters : Game := setBubbles emptyGame (fiveCluster ++ threeCluster).

(** A board on which every cell the scan visits is taken.  The round
    starts on the hardest level with nine full rows of red tokens, and the
    player confirms a skip forty-two times; every third skip adds a row, and
    all fourteen new rows are drawn blue.  [skips n g] is [n] skips in a
    row, the [k]-th at time [1000 + k]. *)
Fixpoint skips (n : nat) (g : Game) : Game :=
  match n with
  | O => g
  | S k => skipTurn very_hard (Some 1000%R) (1000 + Z.of_nat k) (fun _ => 1%nat)
                    (skips k g)
  end.

Definition nineRedRows : Game :=
  initGrid 1000 very_hard (fun _ _ => true) (fun _ _ => 0%nat) emptyGame.

Definition fullBoard : Game := skips 42 nineRedRows.

(** The board without a free cell, with the ball in flight at [ball]. *)
Definition fullBoardInFlight (ball : Point) : Game :=
  setFlight fullBoard true ball (ballVel fullBoard).

(** No two active tokens of a grid in one cell, as a computation. *)
Definition clash (a b : Bubble.t) : bool :=
  Bubble.active a && Bubble.active b
  && (Bubble.row a =? Bubble.row b) && (Bubble.col a =? Bubble.col b).

Fixpoint cellsDistinct (bs : list Bubble.t) : bool :=
  match bs with
  | [] => true
  | a :: r => forallb (fun b => negb (clash a b)) r && cellsDistinct r
  end.

(** Two candidates: a blue pair worth 150 a token, higher up, and a red
    cluster of four worth 100 a token. *)
Definition bluePair : TargetCandidate.t :=
  TargetCandidate.mk "3-1"%string "blue"%string 2 3 1 150 "Left"%string.

Definition redFour : TargetCandidate.t :=
  TargetCandidate.mk "5-2"%string "red"%string 4 5 2 100 "Center"%string.

(** The ball pulled 100 pixels below the anchor, before anything else
    happened in the round. *)
Definition aimedGame : Game :=
  setFlight emptyGame false (mkPoint 500 600) (mkPoint 0 0).

(** A reply that names a colour outside the palette and a cell outside the
    grid. *)
Definition offPaletteReply : JsonFields :=
  mkJson (JString "Go") JUndefined (JNumber 40) (JNumber 99) (JString "PINK") JUndefined.

(** The reply without any of the fields: the empty object, which is also
    what an empty body is read as. *)
Definition emptyObjectReply : JsonFields :=
  mkJson JUndefined JUndefined JUndefined JUndefined JUndefined JUndefined.

(** A reply of the wrong shape: the cell is given by two strings. *)
Definition wrongTypesReply : JsonFields :=
  mkJson (JString "Go") JUndefined (JString "5") (JString "2") (JString "red")
         JUndefined.

(** The lower-casing of the examples, whose strings are all ASCII: strings
    with other characters are left as they are. *)
Definition asciiCaseOnly : string -> string := fun s => s.

(** A reply that recommends a colour of the palette and no cell. *)
Definition colorOnlyReply : JsonFields :=
  mkJson (JString "Go") JUndefined JUndefined JUndefined (JString "Blue") JUndefined.

(** One red token in the last row under the ceiling, and the same token in
    row 0. *)
Definition lastRowBoard : Game :=
  setBubbles emptyGame [tokenAt "13-0"%string 13 0 "red"%string].

Definition topRowBoard : Game :=
  setBubbles emptyGame [tokenAt "13-0"%string 0 0 "red"%string].

(** A lone red token thirty pixels straight above the anchor. *)
Definition nearToken : Bubble.t := tokenAt "12-5"%string 12 5 "red"%string.

Definition nearAnchor : Point :=
  mkPoint (Bubble.x nearToken) (Bubble.y nearToken + 30)%R.

(** A ball over an empty board, launched straight up at ten pixels a
    frame. *)
Definition risingBall : Game :=
  setFlight emptyGame true (mkPoint 500 500) (mkPoint 0 (-10)).

(* ================================================================== *)
(** * Part III: the properties                                         *)
(* ================================================================== *)

(** ** Adjacency *)

Lemma isOddRow_odd (r : Z) : isOddRow r = Z.odd r.
Proof. unfold isOddRow. symmetry. apply Zodd_rem. Qed.

Lemma isOddRow_step (r d : Z) :
  Z.abs d = 1 -> isOddRow (r + d) = negb (isOddRow r).
Proof.
  intros Hd. rewrite !isOddRow_odd, Z.odd_add.
  assert (Hc : d = 1 \/ d = -1) by lia.
  destruct Hc as [-> | ->]; cbn; destruct (Z.odd r); reflexivity.
Qed.

Lemma isNeighbor_rule (a b : Bubble.t) : isNeighbor a b = offsetHexRule a b.
Proof.
  unfold isNeighbor, offsetHexRule. rewrite isOddRow_odd.
  set (dr := Bubble.row b - Bubble.row a).
  destruct (1 <? Z.abs dr) eqn:E1.
  - apply Z.ltb_lt in E1.
    destruct (Z.abs dr) as [|p|p] eqn:E; try lia.
    destruct p; try reflexivity; lia.
  - apply Z.ltb_ge in E1.
    destruct (dr =? 0) eqn:E0.
    + apply Z.eqb_eq in E0. rewrite E0. reflexivity.
    + apply Z.eqb_neq in E0.
      assert (H1 : Z.abs dr = 1) by lia. rewrite H1. reflexivity.
Qed.

Lemma isNeighbor_sym (a b : Bubble.t) : isNeighbor a b = isNeighbor b a.
Proof.
  unfold isNeighbor.
  set (ra := Bubble.row a). set (rb := Bubble.row b).
  set (ca := Bubble.col a). set (cb := Bubble.col b).
  replace (Z.abs (ra - rb)) with (Z.abs (rb - ra)) by lia.
  destruct (1 <? Z.abs (rb - ra)) eqn:E1; [reflexivity|].
  apply Z.ltb_ge in E1.
  destruct (rb - ra =? 0) eqn:E0.
  - apply Z.eqb_eq in E0.
    replace (ra - rb =? 0) with true by (symmetry; apply Z.eqb_eq; lia).
    replace (Z.abs (ca - cb)) with (Z.abs (cb - ca)) by lia. reflexivity.
  - apply Z.eqb_neq in E0.
    replace (ra - rb =? 0) with false by (symmetry; apply Z.eqb_neq; lia).
    assert (Hd : Z.abs (rb - ra) = 1) by lia.
    assert (Hp : isOddRow rb = negb (isOddRow ra)).
    { rewrite <- (isOddRow_step ra (rb - ra) Hd). f_equal. lia. }
    rewrite Hp.
    destruct (isOddRow ra); cbn [negb];
      destruct (cb - ca =? 0) eqn:A, (cb - ca =? 1) eqn:B,
               (cb - ca =? -1) eqn:C, (ca - cb =? 0) eqn:D,
               (ca - cb =? 1) eqn:F, (ca - cb =? -1) eqn:G;
      try reflexivity; exfalso;
      repeat match goal with
             | H : (_ =? _) = true |- _ => apply Z.eqb_eq in H
             | H : (_ =? _) = false |- _ => apply Z.eqb_neq in H
             end; lia.
Qed.

(** C6.  Adjacency is symmetric, [isNeighbor a b = isNeighbor b a] for all
    tokens, and it is the offset-hex rule: a row difference larger than one
    is never a neighbour, the same row needs a column difference of exactly
    one, and adjacent rows use the column offsets fixed by the parity of the
    first token's row. *)
Theorem isNeighbor_symmetric_offset_hex (a b : Bubble.t) :
  isNeighbor a b = isNeighbor b a /\ isNeighbor a b = offsetHexRule a b.
Proof. split; [apply isNeighbor_sym | apply isNeighbor_rule]. Qed.

(** ** Sets of ids *)

Lemma setHas_In (s : list string) (k : string) : setHas s k = true <-> In k s.
Proof.
  unfold setHas. rewrite existsb_exists. split.
  - intros [x [Hx He]]. apply String.eqb_eq in He. subst. exact Hx.
  - intros H. exists k. split; [exact H | apply String.eqb_refl].
Qed.

Lemma setHas_false (s : list string) (k : string) : setHas s k = false <-> ~ In k s.
Proof.
  rewrite <- setHas_In. destruct (setHas s k); split; intros; congruence.
Qed.

Lemma setAdd_fresh (s : list string) (k : string) :
  setHas s k = false -> setAdd s k = s ++ [k].
Proof. unfold setAdd. intros ->. reflexivity. Qed.

Lemma setAdd_In (s : list string) (k x : string) :
  In x (setAdd s k) <-> In x s \/ x = k.
Proof.
  unfold setAdd. destruct (setHas s k) eqn:E.
  - apply setHas_In in E. split; [auto | intros [H | ->]; assumption].
  - rewrite in_app_iff. cbn. intuition.
Qed.

Lemma hasId_In (l : list Bubble.t) (k : string) :
  hasId l k = true <-> exists m, In m l /\ Bubble.id m = k.
Proof.
  unfold hasId. rewrite existsb_exists.
  split; intros [m [Hm He]]; exists m; split; trivial;
    [apply String.eqb_eq | apply String.eqb_eq]; exact He.
Qed.

(** Ids identify the tokens of a grid whose ids are pairwise different. *)
Lemma same_id_same_token (bs : list Bubble.t) (a b : Bubble.t) :
  NoDup (map Bubble.id bs) -> In a bs -> In b bs ->
  Bubble.id a = Bubble.id b -> a = b.
Proof.
  induction bs as [|x r IH]; cbn; intros Hnd Ha Hb He; [contradiction|].
  inversion Hnd as [|? ? Hx Hr]; subst.
  destruct Ha as [-> | Ha], Hb as [-> | Hb]; trivial.
  - exfalso. apply Hx. rewrite He. apply in_map. exact Hb.
  - exfalso. apply Hx. rewrite <- He. apply in_map. exact Ha.
  - apply IH; assumption.
Qed.

(** ** The available colours *)

Lemma bubbles_updateAvailableColors (g : Game) :
  bubbles (updateAvailableColors g) = bubbles g.
Proof.
  unfold updateAvailableColors.
  destruct (activeColors (bubbles g)) as [|c0 cs]; [reflexivity|].
  destruct (negb (setHas (c0 :: cs) (selectedColor g))); reflexivity.
Qed.

Lemma updateAvailableColors_untouched (g : Game) :
  untouchedByGrowth g (updateAvailableColors g).
Proof.
  unfold updateAvailableColors, untouchedByGrowth.
  destruct (activeColors (bubbles g)) as [|c0 cs]; [repeat apply conj; reflexivity|].
  destruct (negb (setHas (c0 :: cs) (selectedColor g))); repeat apply conj; reflexivity.
Qed.

(** ** The match loop terminates *)

Section LoopTermination.
Variable bs : list Bubble.t.
Variable start : Bubble.t.

Lemma filter_length_lt {A : Type} (p q : A -> bool) (l : list A) (a : A) :
  (forall x, q x = true -> p x = true) ->
  In a l -> p a = true -> q a = false ->
  (List.length (filter q l) < List.length (filter p l))%nat.
Proof.
  intros Hqp. induction l as [|x r IH]; cbn; intros Hin Hp Hq; [contradiction|].
  assert (Hle : (List.length (filter q r) <= List.length (filter p r))%nat).
  { clear IH Hin Hp Hq. induction r as [|y r' IHr]; cbn; [lia|].
    destruct (q y) eqn:Q.
    - rewrite (Hqp y Q). cbn. lia.
    - destruct (p y); cbn; lia. }
  destruct Hin as [-> | Hin].
  - rewrite Hp, Hq. cbn. lia.
  - specialize (IH Hin Hp Hq).
    destruct (q x) eqn:Q.
    + rewrite (Hqp x Q). cbn. lia.
    + destruct (p x); cbn; lia.
Qed.

Lemma unvisited_shrinks (visited : list string) (curr : Bubble.t) :
  In curr (start :: bs) ->
  setHas visited (Bubble.id curr) = false ->
  (List.length (unvisited bs start (setAdd visited (Bubble.id curr)))
   < List.length (unvisited bs start visited))%nat.
Proof.
  intros Hin Hv. unfold unvisited.
  apply filter_length_lt with (a := curr); trivial.
  - intros x Hx. apply negb_true_iff in Hx. apply negb_true_iff.
    apply setHas_false. apply setHas_false in Hx.
    intros Hc. apply Hx. apply setAdd_In. left. exact Hc.
  - rewrite Hv. reflexivity.
  - apply negb_false_iff. apply setHas_In. apply setAdd_In. right. reflexivity.
Qed.

Lemma pushed_length (f : Bubble.t -> bool) :
  (List.length (rev (filter f bs)) <= List.length bs)%nat.
Proof. rewrite length_rev. apply filter_length_le. Qed.

Lemma checkLoop_terminates (fuel : nat) :
  forall toCheck visited matches,
    (forall b, In b toCheck -> In b (start :: bs)) ->
    (loopMeasure bs start toCheck visited <= fuel)%nat ->
    exists r, checkLoop fuel bs start toCheck visited matches = Some r.
Proof.
  induction fuel as [|fuel IH]; intros toCheck visited matches Hsub Hm.
  - destruct toCheck as [|curr rest]; cbn.
    + eexists; reflexivity.
    + unfold loopMeasure in Hm. cbn [List.length] in Hm. lia.
  - destruct toCheck as [|curr rest]; cbn.
    + eexists; reflexivity.
    + assert (Hrest : forall b, In b rest -> In b (start :: bs)).
      { intros b Hb. apply Hsub. right. exact Hb. }
      destruct (setHas visited (Bubble.id curr)) eqn:Hv.
      * apply IH; trivial. unfold loopMeasure in *. cbn [List.length] in Hm. lia.
      * pose proof (unvisited_shrinks visited curr (Hsub curr (or_introl eq_refl)) Hv) as Hlt.
        destruct (String.eqb (Bubble.color curr) (Bubble.color start)).
        -- apply IH.
           ++ intros b Hb. apply in_app_or in Hb. destruct Hb as [Hb | Hb].
              ** right. apply in_rev in Hb. apply filter_In in Hb. tauto.
              ** apply Hrest. exact Hb.
           ++ unfold loopMeasure in *. rewrite length_app. cbn [List.length] in Hm.
              match goal with
              | |- context [rev (filter ?f bs)] => pose proof (pushed_length f) as Hp
              end.
              nia.
        -- apply IH; trivial. unfold loopMeasure in *. cbn [List.length] in Hm. nia.
Qed.

Lemma unvisited_bound : (List.length (unvisited bs start []) <= S (List.length bs))%nat.
Proof.
  unfold unvisited.
  change (S (List.length bs)) with (List.length (start :: bs)).
  apply filter_length_le.
Qed.

Lemma findMatches_total : exists r, findMatches bs start = Some r.
Proof.
  unfold findMatches. apply checkLoop_terminates.
  - intros b [<- | []]. left. reflexivity.
  - unfold loopMeasure, loopFuel. pose proof unvisited_bound. cbn [List.length]. nia.
Qed.

(** More fuel does not change a result. *)
Lemma checkLoop_more_fuel (fuel : nat) :
  forall toCheck visited matches r extra,
    checkLoop fuel bs start toCheck visited matches = Some r ->
    checkLoop (fuel + extra) bs start toCheck visited matches = Some r.
Proof.
  induction fuel as [|fuel IH]; intros toCheck visited matches r extra.
  - destruct toCheck; cbn; [|discriminate].
    intros H. destruct extra; exact H.
  - destruct toCheck as [|curr rest]; cbn; [trivial|].
    destruct (setHas visited (Bubble.id curr)); [apply IH|].
    destruct (String.eqb (Bubble.color curr) (Bubble.color start)); apply IH.
Qed.
End LoopTermination.

(** ** What the match loop computes *)

Lemma connected_in_grid (bs : list Bubble.t) (start b : Bubble.t) :
  In start bs -> connected bs start b -> In b bs.
Proof. intros Hs H. destruct H; assumption. Qed.

Lemma connected_color (bs : list Bubble.t) (start b : Bubble.t) :
  connected bs start b -> Bubble.color b = Bubble.color start.
Proof. intros H. destruct H; trivial. Qed.

Lemma connected_active (bs : list Bubble.t) (start b : Bubble.t) :
  Bubble.active start = true -> connected bs start b -> Bubble.active b = true.
Proof. intros Hs H. destruct H; assumption. Qed.

Section LoopInvariant.
Variable bs : list Bubble.t.
Variable start : Bubble.t.
Hypothesis ids_unique : NoDup (map Bubble.id bs).
Hypothesis start_in : In start bs.
Hypothesis start_active : Bubble.active start = true.

Lemma loopInv_initial : loopInv bs start [start] [] [].
Proof.
  constructor.
  - intros m [].
  - intros b [<- | []]. repeat split; auto.
  - intros m b [].
  - left. left. reflexivity.
  - intros b _ [].
  - constructor.
Qed.

Lemma loopInv_skip (curr : Bubble.t) (rest : list Bubble.t)
    (visited : list string) (matches : list Bubble.t) :
  loopInv bs start (curr :: rest) visited matches ->
  setHas visited (Bubble.id curr) = true ->
  loopInv bs start rest visited matches.
Proof.
  intros [I1 I2 I3 I4 I5 I6] Hv. apply setHas_In in Hv.
  constructor; trivial.
  - intros b Hb. apply I2. right. exact Hb.
  - intros m b Hm Hb Ha Hn.
    destruct (I3 m b Hm Hb Ha Hn) as [H | [<- | H]]; auto.
  - destruct I4 as [[<- | H] | H]; auto.
Qed.

Lemma loopInv_other (curr : Bubble.t) (rest : list Bubble.t)
    (visited : list string) (matches : list Bubble.t) :
  loopInv bs start (curr :: rest) visited matches ->
  setHas visited (Bubble.id curr) = false ->
  String.eqb (Bubble.color curr) (Bubble.color start) = false ->
  loopInv bs start rest (setAdd visited (Bubble.id curr)) matches.
Proof.
  intros [I1 I2 I3 I4 I5 I6] Hv Hc. apply String.eqb_neq in Hc.
  destruct (I2 curr (or_introl eq_refl)) as [Hcin [Hcact _]].
  constructor; trivial.
  - intros m Hm. destruct (I1 m Hm) as [H1 H2]. split; trivial.
    apply setAdd_In. left. exact H2.
  - intros b Hb. apply I2. right. exact Hb.
  - intros m b Hm Hb Ha Hn.
    destruct (I3 m b Hm Hb Ha Hn) as [H | [<- | H]].
    + left. apply setAdd_In. left. exact H.
    + left. apply setAdd_In. right. reflexivity.
    + right. exact H.
  - destruct I4 as [[<- | H] | H].
    + right. apply setAdd_In. right. reflexivity.
    + left. exact H.
    + right. apply setAdd_In. left. exact H.
  - intros b Hb Hvb. apply setAdd_In in Hvb. destruct Hvb as [Hvb | Heq].
    + apply I5; assumption.
    + assert (b = curr) by (apply (same_id_same_token bs); assumption).
      subst b. split; trivial. intros Hcol. contradiction.
Qed.

Lemma loopInv_match (curr : Bubble.t) (rest : list Bubble.t)
    (visited : list string) (matches : list Bubble.t) :
  loopInv bs start (curr :: rest) visited matches ->
  setHas visited (Bubble.id curr) = false ->
  String.eqb (Bubble.color curr) (Bubble.color start) = true ->
  loopInv bs start
    (rev (filter (fun b => Bubble.active b
                           && negb (setHas (setAdd visited (Bubble.id curr)) (Bubble.id b))
                           && isNeighbor curr b) bs) ++ rest)
    (setAdd visited (Bubble.id curr)) (matches ++ [curr]).
Proof.
  intros [I1 I2 I3 I4 I5 I6] Hv Hc. apply String.eqb_eq in Hc.
  destruct (I2 curr (or_introl eq_refl)) as [Hcin [Hcact Hcwhy]].
  assert (Hconn : connected bs start curr).
  { destruct Hcwhy as [-> | [m [Hm Hn]]].
    - constructor.
    - apply connected_step with (u := m); trivial. apply I1. exact Hm. }
  assert (Hfresh : ~ In curr matches).
  { intros Hm. apply setHas_false in Hv. apply Hv. apply I1. exact Hm. }
  constructor.
  - intros m Hm. apply in_app_or in Hm. destruct Hm as [Hm | [<- | []]].
    + destruct (I1 m Hm) as [H1 H2]. split; trivial. apply setAdd_In. left. exact H2.
    + split; trivial. apply setAdd_In. right. reflexivity.
  - intros b Hb. apply in_app_or in Hb. destruct Hb as [Hb | Hb].
    + apply in_rev in Hb. apply filter_In in Hb. destruct Hb as [Hb Hf].
      apply andb_true_iff in Hf. destruct Hf as [Hf Hn].
      apply andb_true_iff in Hf. destruct Hf as [Ha _].
      repeat split; trivial. right. exists curr. split; trivial.
      apply in_or_app. right. left. reflexivity.
    + destruct (I2 b (or_intror Hb)) as [H1 [H2 H3]]. repeat split; trivial.
      destruct H3 as [-> | [m [Hm Hn]]]; [left; reflexivity|].
      right. exists m. split; trivial. apply in_or_app. left. exact Hm.
  - intros m b Hm Hb Ha Hn. apply in_app_or in Hm. destruct Hm as [Hm | [<- | []]].
    + destruct (I3 m b Hm Hb Ha Hn) as [H | [<- | H]].
      * left. apply setAdd_In. left. exact H.
      * left. apply setAdd_In. right. reflexivity.
      * right. apply in_or_app. right. exact H.
    + destruct (setHas (setAdd visited (Bubble.id curr)) (Bubble.id b)) eqn:Hvb.
      * left. apply setHas_In. exact Hvb.
      * right. apply in_or_app. left. apply -> in_rev. apply filter_In.
        split; trivial. rewrite Ha, Hvb, Hn. reflexivity.
  - destruct I4 as [[<- | H] | H].
    + right. apply setAdd_In. right. reflexivity.
    + left. apply in_or_app. right. exact H.
    + right. apply setAdd_In. left. exact H.
  - intros b Hb Hvb. apply setAdd_In in Hvb. destruct Hvb as [Hvb | Heq].
    + destruct (I5 b Hb Hvb) as [H1 H2]. split; trivial.
      intros Hcol. apply in_or_app. left. apply H2. exact Hcol.
    + assert (b = curr) by (apply (same_id_same_token bs); assumption).
      subst b. split; trivial. intros _. apply in_or_app. right. left. reflexivity.
  - apply NoDup_app; trivial.
    + constructor; [intros [] | constructor].
    + intros x Hx [<- | []]. contradiction.
Qed.

Lemma checkLoop_invariant (fuel : nat) :
  forall toCheck visited matches matches' visited',
    loopInv bs start toCheck visited matches ->
    checkLoop fuel bs start toCheck visited matches = Some (matches', visited') ->
    loopInv bs start [] visited' matches'.
Proof.
  induction fuel as [|fuel IH]; intros toCheck visited matches matches' visited' Hinv.
  - destruct toCheck; cbn; [|discriminate].
    intros H. inversion H; subst. exact Hinv.
  - destruct toCheck as [|curr rest]; cbn.
    + intros H. inversion H; subst. exact Hinv.
    + destruct (setHas visited (Bubble.id curr)) eqn:Hv.
      * apply IH. apply loopInv_skip with (curr := curr); assumption.
      * destruct (String.eqb (Bubble.color curr) (Bubble.color start)) eqn:Hc.
        -- apply IH. apply loopInv_match; assumption.
        -- apply IH. apply loopInv_other with (curr := curr); assumption.
Qed.

(** At the end the matches are the region of the origin, each once, and
    the visited ids are ids of active tokens. *)
Lemma findMatches_region (matches : list Bubble.t) (visited : list string) :
  findMatches bs start = Some (matches, visited) ->
  (forall b, In b matches <-> connected bs start b) /\
  NoDup matches /\
  (forall b, In b bs -> In (Bubble.id b) visited -> Bubble.active b = true).
Proof.
  intros H. unfold findMatches in H.
  apply (checkLoop_invariant _ _ _ _ _ _ loopInv_initial) in H.
  destruct H as [I1 I2 I3 I4 I5 I6].
  assert (Hstart : In start matches).
  { destruct I4 as [[] | Hv]. apply (I5 start start_in Hv). reflexivity. }
  split; [|split]; trivial.
  - intros b. split.
    + intros Hb. apply I1. exact Hb.
    + intros Hc. induction Hc as [|u v Hu IHu Hv Ha Hcol Hn]; trivial.
      destruct (I3 u v IHu Hv Ha Hn) as [Hvis | []].
      apply (I5 v Hv Hvis). exact Hcol.
  - intros b Hb Hv. apply (I5 b Hb Hv).
Qed.
End LoopInvariant.

(** ** Match resolution *)

Lemma Forall2_map_self {A : Type} (P : A -> A -> Prop) (f : A -> A) (l : list A) :
  (forall x, In x l -> P x (f x)) -> Forall2 P l (map f l).
Proof.
  induction l as [|x r IH]; cbn; intros H; constructor.
  - apply H. left. reflexivity.
  - apply IH. intros y Hy. apply H. right. exact Hy.
Qed.

Lemma deactivate_removesRegion (bs matches : list Bubble.t) (start : Bubble.t) :
  NoDup (map Bubble.id bs) ->
  In start bs ->
  (forall b, In b matches <-> connected bs start b) ->
  removesRegion bs start (deactivate matches bs).
Proof.
  intros Hnd Hs Hm. unfold removesRegion, deactivate.
  apply Forall2_map_self. intros b Hb.
  destruct (hasId matches (Bubble.id b)) eqn:E.
  - apply hasId_In in E. destruct E as [m [Hmm He]].
    assert (m = b).
    { apply (same_id_same_token bs); trivial.
      apply (connected_in_grid bs start); trivial. apply Hm. exact Hmm. }
    subst m. split.
    + intros _. unfold sameButActive. cbn. repeat split; reflexivity.
    + intros Hn. exfalso. apply Hn. apply Hm. exact Hmm.
  - split; [|reflexivity]. intros Hc. exfalso.
    assert (hasId matches (Bubble.id b) = true).
    { apply hasId_In. exists b. split; [apply Hm; exact Hc | reflexivity]. }
    congruence.
Qed.

Lemma Forall2_In_left {A B : Type} (P : A -> B -> Prop) (l : list A) (l' : list B) :
  Forall2 P l l' -> forall x, In x l -> exists y, In y l' /\ P x y.
Proof.
  induction 1 as [|a b l l' Hab _ IH]; intros x Hx; [destruct Hx|].
  destruct Hx as [<- | Hx].
  - exists b. split; [left; reflexivity | exact Hab].
  - destruct (IH x Hx) as [y [Hy Hp]]. exists y. split; [right; exact Hy | exact Hp].
Qed.

(** C1.  Resolving a match from an active token of a grid whose ids are
    pairwise different: the loop ends; [matches] lists, each once, exactly
    the tokens connected to the origin through same-colour neighbour edges;
    with three or more of them the grid afterwards is the grid with exactly
    these tokens deactivated (each of them is in the grid afterwards with
    [active = false] and its other fields as before, every other token is
    as it was), and with fewer the state is unchanged; no inactive token
    is ever visited and no token of another colour changes. *)
Theorem checkMatches_removes_exactly_the_region
    (difficulty : Difficulty) (accuracyBonus : R) (start : Bubble.t) (g : Game) :
  NoDup (map Bubble.id (bubbles g)) ->
  In start (bubbles g) ->
  Bubble.active start = true ->
  COLOR_CONFIG (Bubble.color start) <> None ->
  exists (matches : list Bubble.t) (visited : list string) (g' : Game),
    findMatches (bubbles g) start = Some (matches, visited) /\
    checkMatches difficulty accuracyBonus start g = Returns g' /\
    (forall b, In b matches <-> connected (bubbles g) start b) /\
    NoDup matches /\
    ((3 <= List.length matches)%nat -> removesRegion (bubbles g) start (bubbles g')) /\
    ((3 <= List.length matches)%nat ->
       forall b, In b matches ->
         exists b', In b' (bubbles g') /\ Bubble.id b' = Bubble.id b /\
                    Bubble.active b' = false) /\
    ((List.length matches < 3)%nat -> g' = g) /\
    (forall b, In b (bubbles g) -> Bubble.active b = false ->
               ~ In (Bubble.id b) visited) /\
    (forall b, In b (bubbles g) -> Bubble.color b <> Bubble.color start ->
               In b (bubbles g')).
Proof.
  intros Hnd Hin Hact Hcol.
  destruct (findMatches_total (bubbles g) start) as [[matches visited] Hf].
  destruct (findMatches_region (bubbles g) start Hnd Hin Hact matches visited Hf)
    as [Hreg [Hnodup Hvis]].
  pose proof (deactivate_removesRegion (bubbles g) matches start Hnd Hin Hreg) as Hrem.
  destruct (COLOR_CONFIG (Bubble.color start)) as [cfg|] eqn:Hcfg; [|congruence].
  assert (Hrun : exists g',
             checkMatches difficulty accuracyBonus start g = Returns g' /\
             ((3 <= List.length matches)%nat ->
                bubbles g' = deactivate matches (bubbles g)) /\
             ((List.length matches < 3)%nat -> g' = g)).
  { unfold checkMatches. rewrite Hf, Hcfg.
    destruct (3 <=? Z.of_nat (List.length matches)) eqn:E.
    - apply Z.leb_le in E. eexists. split; [reflexivity|]. split.
      + intros _. reflexivity.
      + intros Hlt. lia.
    - apply Z.leb_gt in E. exists g. split; [reflexivity|]. split.
      + intros Hge. lia.
      + intros _. reflexivity. }
  destruct Hrun as [g' [Hrun [Hbig Hsmall]]].
  exists matches, visited, g'.
  repeat split; try apply Hreg; trivial.
  - intros Hge. rewrite (Hbig Hge). exact Hrem.
  - intros Hge b Hb. rewrite (Hbig Hge).
    assert (Hc : connected (bubbles g) start b) by (apply Hreg; exact Hb).
    destruct (Forall2_In_left _ _ _ Hrem b (connected_in_grid (bubbles g) start b Hin Hc))
      as [b' [Hb' [Hyes _]]].
    destruct (Hyes Hc) as [Hoff [Hid _]].
    exists b'. split; [exact Hb' | split; [exact Hid | exact Hoff]].
  - intros b Hb Hina Hv. specialize (Hvis b Hb Hv). congruence.
  - intros b Hb Hne.
    destruct (Nat.lt_ge_cases (List.length matches) 3) as [Hlt | Hge].
    + rewrite (Hsmall Hlt). exact Hb.
    + rewrite (Hbig Hge). unfold deactivate.
      apply in_map_iff. exists b. split; trivial.
      destruct (hasId matches (Bubble.id b)) eqn:E; trivial.
      exfalso. apply hasId_In in E. destruct E as [m [Hm He]].
      assert (m = b).
      { apply (same_id_same_token (bubbles g)); trivial.
        apply (connected_in_grid (bubbles g) start); trivial. apply Hreg. exact Hm. }
      subst m. apply Hne. apply (connected_color (bubbles g)). apply Hreg. exact Hm.
Qed.

Lemma NoDup_strings (l : list string) : distinct l = true -> NoDup l.
Proof.
  induction l as [|k r IH]; cbn; intros H; constructor.
  - apply andb_true_iff in H. destruct H as [H _].
    apply negb_true_iff in H. apply setHas_false. exact H.
  - apply IH. apply andb_true_iff in H. tauto.
Qed.

Lemma twoClusters_ids : NoDup (map Bubble.id (bubbles twoClusters)).
Proof. apply NoDup_strings. vm_compute. reflexivity. Qed.

Lemma originFive_in : In originFive (bubbles twoClusters).
Proof. right. right. left. reflexivity. Qed.

Lemma originThree_in : In originThree (bubbles twoClusters).
Proof. do 7 right. left. reflexivity. Qed.

Lemma red_in_table : COLOR_CONFIG (Bubble.color originFive) <> None.
Proof. discriminate. Qed.

(** The theorem above at the five-cluster of [twoClusters]. *)
Lemma checkMatches_region_witness :
  exists (matches : list Bubble.t) (visited : list string) (g' : Game),
    findMatches (bubbles twoClusters) originFive = Some (matches, visited) /\
    checkMatches medium 1 originFive twoClusters = Returns g' /\
    (forall b, In b matches <-> connected (bubbles twoClusters) originFive b) /\
    NoDup matches /\
    ((3 <= List.length matches)%nat ->
       removesRegion (bubbles twoClusters) originFive (bubbles g')) /\
    ((3 <= List.length matches)%nat ->
       forall b, In b matches ->
         exists b', In b' (bubbles g') /\ Bubble.id b' = Bubble.id b /\
                    Bubble.active b' = false) /\
    ((List.length matches < 3)%nat -> g' = twoClusters) /\
    (forall b, In b (bubbles twoClusters) -> Bubble.active b = false ->
               ~ In (Bubble.id b) visited) /\
    (forall b, In b (bubbles twoClusters) ->
               Bubble.color b <> Bubble.color originFive -> In b (bubbles g')).
Proof.
  exact (checkMatches_removes_exactly_the_region medium 1 originFive twoClusters
           twoClusters_ids originFive_in eq_refl red_in_table).
Defined.

(** ** Scoring *)

Lemma COLOR_CONFIG_points (c : BubbleColor) (cfg : ColorEntry) :
  COLOR_CONFIG c = Some cfg -> 100 <= points cfg.
Proof.
  unfold COLOR_CONFIG.
  repeat match goal with
         | |- context [String.eqb c ?k] => destruct (String.eqb c k)
         end; intros H; inversion H; subst; cbn; lia.
Qed.

Lemma pointsMultiplier_pos (d : Difficulty) :
  (0 < pointsMultiplier (DIFFICULTY_SETTINGS d))%R.
Proof. destruct d; cbn; lra. Qed.

Lemma sizeBonus_pos (n : Z) : (0 < sizeBonus n)%R.
Proof. unfold sizeBonus. destruct (3 <? n); lra. Qed.

Lemma pointsFor_nonneg (d : Difficulty) (accuracyBonus : R) (n colorPoints : Z) :
  (0 <= accuracyBonus)%R -> 0 <= n -> 0 <= colorPoints ->
  0 <= pointsFor d accuracyBonus n colorPoints.
Proof.
  intros Hb Hn Hp. unfold pointsFor. apply Zfloor_lub.
  apply IZR_le in Hn. apply IZR_le in Hp.
  pose proof (pointsMultiplier_pos d) as Hm.
  pose proof (sizeBonus_pos n) as Hs.
  repeat apply Rmult_le_pos; trivial; lra.
Qed.

Lemma checkMatches_returns (difficulty : Difficulty) (accuracyBonus : R)
    (start : Bubble.t) (g : Game) (cfg : ColorEntry)
    (matches : list Bubble.t) (visited : list string) :
  findMatches (bubbles g) start = Some (matches, visited) ->
  COLOR_CONFIG (Bubble.color start) = Some cfg ->
  checkMatches difficulty accuracyBonus start g =
  Returns
    (if 3 <=? Z.of_nat (List.length matches) then
       setScore (setBubbles g (deactivate matches (bubbles g)))
                (score g + pointsFor difficulty accuracyBonus
                                     (Z.of_nat (List.length matches)) (points cfg))
     else g).
Proof.
  intros Hf Hc. unfold checkMatches. rewrite Hf, Hc.
  destruct (3 <=? Z.of_nat (List.length matches)); reflexivity.
Qed.

Lemma five_matches :
  option_map (fun r => List.length (fst r)) (findMatches (bubbles twoClusters) originFive)
  = Some 5%nat.
Proof. vm_compute. reflexivity. Qed.

Lemma three_matches :
  option_map (fun r => List.length (fst r)) (findMatches (bubbles twoClusters) originThree)
  = Some 3%nat.
Proof. vm_compute. reflexivity. Qed.

Lemma floor_of_integer (x : R) (z : Z) : x = IZR z -> Zfloor x = z.
Proof. intros ->. apply Zfloor_eq. lra. Qed.

Lemma accuracy_bonus_range (target : option Point) (landX landY : R) :
  (1 <= snd (accuracy target landX landY) <= 2)%R.
Proof.
  unfold accuracy. destruct target as [t|]; [|cbn; lra].
  destruct (Rlt_dec _ BUBBLE_RADIUS); [cbn; lra|].
  destruct (Rlt_dec _ _); cbn; lra.
Qed.

Lemma checkMatches_score_monotone (difficulty : Difficulty) (accuracyBonus : R)
    (start : Bubble.t) (g g' : Game) :
  (0 <= accuracyBonus)%R ->
  checkMatches difficulty accuracyBonus start g = Returns g' ->
  score g <= score g'.
Proof.
  intros Hb. unfold checkMatches.
  destruct (findMatches (bubbles g) start) as [[matches visited]|]; [|discriminate].
  destruct (3 <=? Z.of_nat (List.length matches)).
  - destruct (COLOR_CONFIG (Bubble.color start)) as [cfg|] eqn:Hc; [|discriminate].
    intros H. injection H as <-. cbn [score setScore setBubbles].
    pose proof (COLOR_CONFIG_points _ _ Hc) as Hp.
    pose proof (pointsFor_nonneg difficulty accuracyBonus
                  (Z.of_nat (List.length matches)) (points cfg) Hb
                  (Nat2Z.is_nonneg _)) as Hnn.
    lia.
  - intros H. injection H as <-. lia.
Qed.

Lemma resolveCollision_score_monotone (difficulty : Difficulty) (width : R) (now : Z)
    (g g' : Game) :
  resolveCollision difficulty width now g = Returns g' -> score g <= score g'.
Proof.
  unfold resolveCollision.
  match goal with
  | |- bind (checkMatches ?d ?b ?st ?g1) _ = _ -> _ =>
    destruct (checkMatches d b st g1) as [g2| |] eqn:Hrun;
      [|discriminate|discriminate];
    assert (Hb : (0 <= b)%R)
      by (pose proof (accuracy_bonus_range (activeShotTarget g)
                        (bestX (nearestFreeCell (bubbles g) (ballPos g) width))
                        (bestY (nearestFreeCell (bubbles g) (ballPos g) width))); lra);
    pose proof (checkMatches_score_monotone d b st g1 g2 Hb Hrun) as Hle
  end.
  cbn [bind]. intros H. injection H as <-.
  cbn [score setCaptureRequest setFlight setBubbles] in *.
  destruct (updateAvailableColors_untouched g2) as [Hs _]. rewrite Hs. exact Hle.
Qed.

(** C2.  A triggered match of [matchSize] tokens adds exactly
    [floor(matchSize * colorValue * multiplier * (1.5 if matchSize > 3 else
    1) * accuracyBonus)] to the score, a match that is not triggered adds
    nothing, and the score does not decrease, neither by a match with a
    bonus that is not negative nor by the resolution of a collision as a
    whole.  On the board with a red
    cluster of five and a red cluster of three (value 100, multiplier 1.0,
    no accuracy bonus) the five-cluster scores 750 and the three-cluster
    300. *)
Theorem checkMatches_score :
  (forall (difficulty : Difficulty) (accuracyBonus : R) (start : Bubble.t)
          (g : Game) (cfg : ColorEntry),
      (0 <= accuracyBonus)%R ->
      COLOR_CONFIG (Bubble.color start) = Some cfg ->
      exists (matches : list Bubble.t) (visited : list string) (g' : Game),
        findMatches (bubbles g) start = Some (matches, visited) /\
        checkMatches difficulty accuracyBonus start g = Returns g' /\
        let matchSize := Z.of_nat (List.length matches) in
        let colorValue := points cfg in
        let multiplier := pointsMultiplier (DIFFICULTY_SETTINGS difficulty) in
        score g' =
          score g +
          (if 3 <=? matchSize
           then Zfloor (IZR matchSize * IZR colorValue * multiplier
                        * (if 3 <? matchSize then 15 / 10 else 1) * accuracyBonus)%R
           else 0) /\
        score g <= score g') /\
  (forall (difficulty : Difficulty) (width : R) (now : Z) (g g' : Game),
      resolveCollision difficulty width now g = Returns g' -> score g <= score g') /\
  (exists g5 : Game,
      checkMatches medium 1 originFive twoClusters = Returns g5 /\
      score g5 = score twoClusters + 750) /\
  (exists g3 : Game,
      checkMatches medium 1 originThree twoClusters = Returns g3 /\
      score g3 = score twoClusters + 300).
Proof.
  split; [|split; [exact resolveCollision_score_monotone|split]].
  - intros difficulty accuracyBonus start g cfg Hb Hc.
    destruct (findMatches_total (bubbles g) start) as [[matches visited] Hf].
    exists matches, visited. eexists. split; [exact Hf|]. split.
    + apply (checkMatches_returns _ _ _ _ cfg matches visited); assumption.
    + cbv zeta.
      pose proof (pointsFor_nonneg difficulty accuracyBonus
                    (Z.of_nat (List.length matches)) (points cfg) Hb
                    (Nat2Z.is_nonneg _)) as Hnn.
      pose proof (COLOR_CONFIG_points _ _ Hc) as Hp.
      unfold pointsFor, sizeBonus in Hnn.
      destruct (3 <=? Z.of_nat (List.length matches)); cbn [score setScore setBubbles].
      * split; [reflexivity|]. unfold pointsFor, sizeBonus. lia.
      * split; lia.
  - destruct (findMatches (bubbles twoClusters) originFive) as [[matches visited]|] eqn:Hf;
      pose proof five_matches as H5; rewrite Hf in H5; [|discriminate].
    cbn in H5. injection H5 as H5.
    eexists. split.
    + apply (checkMatches_returns _ _ _ _ (mkColorEntry "#ef5350" 100 "Red") matches visited);
        [exact Hf | reflexivity].
    + rewrite H5. cbn [Z.of_nat Pos.of_succ_nat Pos.succ Z.leb Z.compare Pos.compare
                       Pos.compare_cont score setScore setBubbles points].
      f_equal. unfold pointsFor, sizeBonus. cbn [Z.ltb Z.compare Pos.compare Pos.compare_cont
                                                 pointsMultiplier DIFFICULTY_SETTINGS].
      apply floor_of_integer. lra.
  - destruct (findMatches (bubbles twoClusters) originThree) as [[matches visited]|] eqn:Hf;
      pose proof three_matches as H3; rewrite Hf in H3; [|discriminate].
    cbn in H3. injection H3 as H3.
    eexists. split.
    + apply (checkMatches_returns _ _ _ _ (mkColorEntry "#ef5350" 100 "Red") matches visited);
        [exact Hf | reflexivity].
    + rewrite H3. cbn [Z.of_nat Pos.of_succ_nat Pos.succ Z.leb Z.compare Pos.compare
                       Pos.compare_cont score setScore setBubbles points].
      f_equal. unfold pointsFor, sizeBonus. cbn [Z.ltb Z.compare Pos.compare Pos.compare_cont
                                                 pointsMultiplier DIFFICULTY_SETTINGS].
      apply floor_of_integer. lra.
Qed.

(** ** Accuracy *)

Lemma accuracy_critical (t : Point) (landX landY : R) :
  (distance landX landY (px t) (py t) < BUBBLE_RADIUS)%R ->
  accuracy (Some t) landX landY = ("CRITICAL HIT!"%string, 2%R).
Proof.
  intros H. unfold accuracy.
  destruct (Rlt_dec (distance landX landY (px t) (py t)) BUBBLE_RADIUS); [reflexivity|].
  contradiction.
Qed.

Lemma accuracy_great (t : Point) (landX landY : R) :
  (BUBBLE_RADIUS <= distance landX landY (px t) (py t) < BUBBLE_RADIUS * (25 / 10))%R ->
  accuracy (Some t) landX landY = ("GREAT AIM!"%string, (15 / 10)%R).
Proof.
  intros [H1 H2]. unfold accuracy.
  destruct (Rlt_dec (distance landX landY (px t) (py t)) BUBBLE_RADIUS); [lra|].
  destruct (Rlt_dec (distance landX landY (px t) (py t)) (BUBBLE_RADIUS * (25 / 10)));
    [reflexivity | contradiction].
Qed.

Lemma accuracy_off_target (t : Point) (landX landY : R) :
  (BUBBLE_RADIUS * (25 / 10) <= distance landX landY (px t) (py t))%R ->
  accuracy (Some t) landX landY = ("OFF TARGET"%string, 1%R).
Proof.
  intros H. unfold accuracy, BUBBLE_RADIUS in *.
  destruct (Rlt_dec (distance landX landY (px t) (py t)) 22); [lra|].
  destruct (Rlt_dec (distance landX landY (px t) (py t)) (22 * (25 / 10))); [lra|].
  reflexivity.
Qed.

(** The distance from the origin to a point on the positive x axis. *)
Lemma distance_on_axis (a : R) : (0 <= a)%R -> distance 0 0 a 0 = a.
Proof.
  intros H. unfold distance.
  replace ((0 - a) ^ 2 + (0 - 0) ^ 2)%R with (a * a)%R by ring.
  apply sqrt_square. exact H.
Qed.

Lemma accuracy_tierBonus (t : Point) (landX landY : R) :
  snd (accuracy (Some t) landX landY)
  = tierBonus (distance landX landY (px t) (py t)).
Proof.
  unfold accuracy, tierBonus. cbv zeta.
  destruct (Rlt_dec _ BUBBLE_RADIUS); [reflexivity|].
  destruct (Rlt_dec _ (BUBBLE_RADIUS * (25 / 10))); reflexivity.
Qed.

(** The bonus [resolveCollision] hands to [checkMatches]. *)
Lemma accuracy_shotBonus (width : R) (g : Game) :
  snd (accuracy (activeShotTarget g)
                (bestX (nearestFreeCell (bubbles g) (ballPos g) width))
                (bestY (nearestFreeCell (bubbles g) (ballPos g) width)))
  = shotBonus width g.
Proof.
  unfold shotBonus. cbv zeta.
  destruct (activeShotTarget g) as [t|]; [apply accuracy_tierBonus | reflexivity].
Qed.

Lemma shotBonus_tiers (width : R) (g : Game) (target : Point) :
  activeShotTarget g = Some target ->
  let best := nearestFreeCell (bubbles g) (ballPos g) width in
  let dist := distance (bestX best) (bestY best) (px target) (py target) in
  ((dist < BUBBLE_RADIUS)%R -> shotBonus width g = 2%R) /\
  ((BUBBLE_RADIUS <= dist < BUBBLE_RADIUS * (25 / 10))%R ->
   shotBonus width g = (15 / 10)%R) /\
  ((BUBBLE_RADIUS * (25 / 10) <= dist)%R -> shotBonus width g = 1%R).
Proof.
  intros Ht. cbv zeta. unfold shotBonus, tierBonus. cbv zeta. rewrite Ht.
  set (dist := distance _ _ _ _). unfold BUBBLE_RADIUS.
  destruct (Rlt_dec dist 22), (Rlt_dec dist (22 * (25 / 10)));
    repeat apply conj; intros; try reflexivity; lra.
Qed.

(** The score after the resolution of a collision. *)
Lemma resolveCollision_score (difficulty : Difficulty) (width : R) (now : Z)
    (g : Game) (matches : list Bubble.t) (visited : list string) (cfg : ColorEntry) :
  findMatches (bubbles g ++ [landedToken width now g]) (landedToken width now g)
  = Some (matches, visited) ->
  COLOR_CONFIG (selectedColor g) = Some cfg ->
  exists g',
    resolveCollision difficulty width now g = Returns g' /\
    activeShotTarget g' = activeShotTarget g /\
    score g' = score g +
               (if 3 <=? Z.of_nat (List.length matches)
                then pointsFor difficulty (shotBonus width g)
                               (Z.of_nat (List.length matches)) (points cfg)
                else 0).
Proof.
  intros Hf Hc.
  change (resolveCollision difficulty width now g)
    with (bind (checkMatches difficulty
                  (snd (accuracy (activeShotTarget g)
                          (bestX (nearestFreeCell (bubbles g) (ballPos g) width))
                          (bestY (nearestFreeCell (bubbles g) (ballPos g) width))))
                  (landedToken width now g)
                  (setBubbles (setFlight g false (ballPos g) (ballVel g))
                              (bubbles g ++ [landedToken width now g])))
               (fun g2 =>
                  Returns (setCaptureRequest
                             (setFlight (updateAvailableColors g2) false
                                        (anchorPos (updateAvailableColors g2))
                                        (ballVel (updateAvailableColors g2))) true))).
  rewrite accuracy_shotBonus.
  rewrite (checkMatches_returns difficulty (shotBonus width g) (landedToken width now g)
             (setBubbles (setFlight g false (ballPos g) (ballVel g))
                         (bubbles g ++ [landedToken width now g]))
             cfg matches visited Hf Hc).
  cbn [bind]. eexists. split; [reflexivity|].
  cbn [activeShotTarget score setCaptureRequest setFlight].
  match goal with
  | |- activeShotTarget (updateAvailableColors ?s) = _ /\ _ =>
    destruct (updateAvailableColors_untouched s) as [Hs [_ [_ [_ [Ht _]]]]]
  end.
  rewrite Hs, Ht.
  destruct (3 <=? Z.of_nat (List.length matches)).
  - cbn [activeShotTarget score setScore setBubbles setFlight]. split; reflexivity.
  - cbn [activeShotTarget score setBubbles setFlight]. split; [reflexivity | lia].
Qed.

(** The target of a shot is the aim point of the moment of its launch. *)
Lemma releaseShot_stores_target (difficulty : Difficulty) (width : R) (now : Z)
    (rnd : Z -> nat) (g : Game) :
  (30 < sqrt ((px (anchorPos g) - px (ballPos g)) * (px (anchorPos g) - px (ballPos g))
              + (py (anchorPos g) - py (ballPos g)) * (py (anchorPos g) - py (ballPos g))))%R ->
  activeShotTarget (releaseShot difficulty width now rnd false g) = aimTarget g.
Proof.
  intros Hs. unfold releaseShot. cbn [negb].
  destruct (Rlt_dec 30 _) as [_ | Hn]; [|contradiction].
  cbn [shotsTaken setShotsTaken setActiveShotTarget setFlight aimTarget].
  destruct (Z.rem _ _ =? 0); [|reflexivity].
  match goal with
  | |- activeShotTarget (addNewRow _ _ _ ?s) = _ =>
    destruct (updateAvailableColors_untouched
                (setBubbles s (map (shiftDown width) (bubbles s)
                               ++ newTopRow width now rnd)))
      as [_ [_ [_ [_ [Ht _]]]]]
  end.
  unfold addNewRow. rewrite Ht. reflexivity.
Qed.

(** C3.  With a target stored at launch the bonus and the label depend on
    the distance [d] from the landing pixel to the target alone: below one
    radius the shot is critical (2.0), from one radius up to 2.5 radii it is
    great (1.5), from 2.5 radii on it is off target (1.0).  A distance equal
    to a threshold is in the tier of the larger distances, a larger distance
    never has a larger bonus, and without a target the bonus is 1.0 and the
    label is empty.  This is the bonus of the resolution of a collision:
    the landing pixel is the pixel of the cell the shot snaps to, the
    target is the one stored at launch, and the points of a match are
    computed with the bonus of that distance. *)
Theorem accuracy_tiers (t : Point) (landX landY : R) :
  let d := distance landX landY (px t) (py t) in
  ((d < BUBBLE_RADIUS)%R ->
     accuracy (Some t) landX landY = ("CRITICAL HIT!"%string, 2%R)) /\
  ((BUBBLE_RADIUS <= d < BUBBLE_RADIUS * (25 / 10))%R ->
     accuracy (Some t) landX landY = ("GREAT AIM!"%string, (15 / 10)%R)) /\
  ((BUBBLE_RADIUS * (25 / 10) <= d)%R ->
     accuracy (Some t) landX landY = ("OFF TARGET"%string, 1%R)) /\
  (forall (t' : Point) (x' y' : R),
      distance x' y' (px t') (py t') = d ->
      accuracy (Some t') x' y' = accuracy (Some t) landX landY) /\
  (forall (t' : Point) (x' y' : R),
      (d < distance x' y' (px t') (py t'))%R ->
      (snd (accuracy (Some t') x' y') <= snd (accuracy (Some t) landX landY))%R) /\
  accuracy (Some (mkPoint BUBBLE_RADIUS 0)) 0 0 = ("GREAT AIM!"%string, (15 / 10)%R) /\
  accuracy (Some (mkPoint (BUBBLE_RADIUS * (25 / 10)) 0)) 0 0 = ("OFF TARGET"%string, 1%R) /\
  accuracy None landX landY = (""%string, 1%R) /\
  snd (accuracy (Some t) landX landY) = tierBonus d /\
  (forall (width : R) (g : Game),
      shotBonus width g
      = snd (accuracy (activeShotTarget g)
                      (bestX (nearestFreeCell (bubbles g) (ballPos g) width))
                      (bestY (nearestFreeCell (bubbles g) (ballPos g) width)))) /\
  (forall (width : R) (g : Game) (target : Point),
      activeShotTarget g = Some target ->
      let best := nearestFreeCell (bubbles g) (ballPos g) width in
      let dist := distance (bestX best) (bestY best) (px target) (py target) in
      ((dist < BUBBLE_RADIUS)%R -> shotBonus width g = 2%R) /\
      ((BUBBLE_RADIUS <= dist < BUBBLE_RADIUS * (25 / 10))%R ->
       shotBonus width g = (15 / 10)%R) /\
      ((BUBBLE_RADIUS * (25 / 10) <= dist)%R -> shotBonus width g = 1%R)) /\
  (forall (width : R) (g : Game),
      activeShotTarget g = None -> shotBonus width g = 1%R) /\
  (forall (difficulty : Difficulty) (width : R) (now : Z) (g : Game)
          (matches : list Bubble.t) (visited : list string) (cfg : ColorEntry),
      findMatches (bubbles g ++ [landedToken width now g]) (landedToken width now g)
      = Some (matches, visited) ->
      COLOR_CONFIG (selectedColor g) = Some cfg ->
      exists g',
        resolveCollision difficulty width now g = Returns g' /\
        activeShotTarget g' = activeShotTarget g /\
        score g' = score g +
                   (if 3 <=? Z.of_nat (List.length matches)
                    then pointsFor difficulty (shotBonus width g)
                                   (Z.of_nat (List.length matches)) (points cfg)
                    else 0)) /\
  (forall (difficulty : Difficulty) (width : R) (now : Z) (rnd : Z -> nat) (g : Game),
      (30 < sqrt ((px (anchorPos g) - px (ballPos g)) * (px (anchorPos g) - px (ballPos g))
                  + (py (anchorPos g) - py (ballPos g))
                    * (py (anchorPos g) - py (ballPos g))))%R ->
      activeShotTarget (releaseShot difficulty width now rnd false g) = aimTarget g).
Proof.
  cbv zeta.
  repeat apply conj.
  14: exact releaseShot_stores_target.
  13: exact resolveCollision_score.
  12: intros width g Hnone; unfold shotBonus; rewrite Hnone; reflexivity.
  11: exact shotBonus_tiers.
  10: intros width g; symmetry; apply accuracy_shotBonus.
  9: apply accuracy_tierBonus.
  8: reflexivity.
  - apply accuracy_critical.
  - intros [H1 H2]. apply accuracy_great. split; assumption.
  - apply accuracy_off_target.
  - intros t' x' y' H. unfold accuracy. rewrite H. reflexivity.
  - intros t' x' y' H. unfold accuracy.
    set (d := distance landX landY (px t) (py t)) in *.
    set (d' := distance x' y' (px t') (py t')) in *.
    destruct (Rlt_dec d' BUBBLE_RADIUS), (Rlt_dec d BUBBLE_RADIUS),
             (Rlt_dec d' (BUBBLE_RADIUS * (25 / 10))),
             (Rlt_dec d (BUBBLE_RADIUS * (25 / 10)));
      cbn [snd]; unfold BUBBLE_RADIUS in *; lra.
  - apply accuracy_great. cbn [px py]. rewrite distance_on_axis;
      unfold BUBBLE_RADIUS; lra.
  - apply accuracy_off_target. cbn [px py]. rewrite distance_on_axis;
      unfold BUBBLE_RADIUS; lra.
Qed.

(** ** The nearest free cell *)

Lemma range_In (n z : Z) : In z (range n) <-> 0 <= z < n.
Proof.
  unfold range. rewrite in_map_iff. split.
  - intros [k [<- Hk]]. apply in_seq in Hk. lia.
  - intros H. exists (Z.to_nat z). split; [lia|]. apply in_seq. lia.
Qed.

Lemma gridCells_In (r c : Z) : In (r, c) gridCells <-> validCell r c.
Proof.
  unfold gridCells, validCell. rewrite in_flat_map. split.
  - intros [r' [Hr Hc]]. apply in_map_iff in Hc. destruct Hc as [c' [E Hc]].
    inversion E; subst. apply range_In in Hr. apply range_In in Hc. tauto.
  - intros [Hr Hc]. exists r. split; [apply range_In; exact Hr|].
    apply in_map_iff. exists c. split; [reflexivity | apply range_In; exact Hc].
Qed.

Lemma orderedCells_sorted (l : list (Z * Z)) :
  orderedCells l = true -> StronglySorted cellBefore l.
Proof.
  induction l as [|a r IH]; cbn; intros H; constructor.
  - apply IH. apply andb_true_iff in H. tauto.
  - apply andb_true_iff in H. destruct H as [H _].
    rewrite forallb_forall in H. apply Forall_forall. intros b Hb.
    specialize (H b Hb). unfold cellBeforeb in H. unfold cellBefore.
    apply orb_true_iff in H. destruct H as [H | H].
    + left. apply Z.ltb_lt. exact H.
    + right. apply andb_true_iff in H. destruct H as [H1 H2].
      split; [apply Z.eqb_eq | apply Z.ltb_lt]; assumption.
Qed.

Lemma gridCells_row_major : StronglySorted cellBefore gridCells.
Proof. apply orderedCells_sorted. vm_compute. reflexivity. Qed.

Section Scan.
Variable bs : list Bubble.t.
Variable ball : Point.
Variable width : R.

Lemma closer_inf (d : R) : closer d None = true.
Proof. reflexivity. Qed.

Lemma closer_lt (d b : R) : closer d (Some b) = true <-> (d < b)%R.
Proof. cbn. destruct (Rlt_dec d b); split; intros; trivial; [discriminate | contradiction]. Qed.

Lemma closer_ge (d b : R) : closer d (Some b) = false <-> (b <= d)%R.
Proof.
  cbn. destruct (Rlt_dec d b); split; intros; trivial; try discriminate; lra.
Qed.

Lemma scanCell_cases (best : Best) (rc : Z * Z) :
  (scanCell bs ball width best rc = best /\
   (freeCell bs rc -> closer (cellDistance ball width rc) (bestDist best) = false)) \/
  (scanCell bs ball width best rc = bestAt ball width rc /\ freeCell bs rc /\
   closer (cellDistance ball width rc) (bestDist best) = true).
Proof.
  unfold scanCell, freeCell, bestAt, cellDistance.
  destruct (cellOccupied bs (fst rc) (snd rc)) eqn:E.
  - left. split; [reflexivity | discriminate].
  - destruct (closer _ (bestDist best)) eqn:C.
    + right. auto.
    + left. auto.
Qed.

(** The scan keeps the first cell of smallest distance among the free
    cells that beat the record it started from. *)
Lemma scan_first_minimum (l : list (Z * Z)) :
  forall best : Best,
    (fold_left (scanCell bs ball width) l best = best /\
     (forall j, In j l -> freeCell bs j ->
                closer (cellDistance ball width j) (bestDist best) = false)) \/
    (exists l1 k l2,
        l = l1 ++ k :: l2 /\ freeCell bs k /\
        fold_left (scanCell bs ball width) l best = bestAt ball width k /\
        closer (cellDistance ball width k) (bestDist best) = true /\
        (forall j, In j l1 -> freeCell bs j ->
                   (cellDistance ball width k < cellDistance ball width j)%R) /\
        (forall j, In j l2 -> freeCell bs j ->
                   (cellDistance ball width k <= cellDistance ball width j)%R)).
Proof.
  induction l as [|x r IH]; intros best; cbn [fold_left].
  - left. split; [reflexivity | intros j []].
  - destruct (scanCell_cases best x) as [[Hx Hxc] | [Hx [Hxf Hxc]]]; rewrite Hx.
    + destruct (IH best) as [[Hr Hrc] | [l1 [k [l2 [El [Hk [Hr [Hkc [H1 H2]]]]]]]]].
      * left. split; trivial. intros j [<- | Hj] Hf; auto.
      * right. exists (x :: l1), k, l2.
        repeat apply conj; trivial; [rewrite El; reflexivity|].
        intros j [<- | Hj] Hf; [|auto].
        specialize (Hxc Hf). destruct (bestDist best) as [b|]; [|discriminate].
        apply closer_lt in Hkc. apply closer_ge in Hxc. lra.
    + destruct (IH (bestAt ball width x))
        as [[Hr Hrc] | [l1 [k [l2 [El [Hk [Hr [Hkc [H1 H2]]]]]]]]].
      * right. exists [], x, r. repeat apply conj; trivial.
        -- intros j [].
        -- intros j Hj Hf. specialize (Hrc j Hj Hf). cbn [bestAt bestDist] in Hrc.
           apply closer_ge in Hrc. exact Hrc.
      * right. exists (x :: l1), k, l2. cbn [bestAt bestDist] in Hkc.
        apply closer_lt in Hkc. repeat apply conj; trivial.
        -- rewrite El. reflexivity.
        -- destruct (bestDist best) as [b|]; [|reflexivity].
           apply closer_lt. apply closer_lt in Hxc. lra.
        -- intros j [<- | Hj] Hf; auto.
Qed.
End Scan.

(** ** Cells and pixels *)

Lemma distance_same (x1 y1 : R) : distance x1 y1 x1 y1 = 0%R.
Proof.
  unfold distance.
  replace ((x1 - x1) ^ 2 + (y1 - y1) ^ 2)%R with 0%R by ring.
  apply sqrt_0.
Qed.

Lemma distance_pos (x1 y1 x2 y2 : R) :
  x1 <> x2 \/ y1 <> y2 -> (0 < distance x1 y1 x2 y2)%R.
Proof.
  intros H. unfold distance. apply sqrt_lt_R0.
  pose proof (Rle_0_sqr (x1 - x2)) as Hx. pose proof (Rle_0_sqr (y1 - y2)) as Hy.
  cbn [pow]. unfold Rsqr in *. destruct H as [H | H].
  - assert (0 < Rsqr (x1 - x2))%R by (apply Rsqr_pos_lt; lra). unfold Rsqr in *. lra.
  - assert (0 < Rsqr (y1 - y2))%R by (apply Rsqr_pos_lt; lra). unfold Rsqr in *. lra.
Qed.

Lemma ROW_HEIGHT_pos : (0 < ROW_HEIGHT)%R.
Proof.
  unfold ROW_HEIGHT, BUBBLE_RADIUS.
  assert (0 < sqrt 3)%R by (apply sqrt_lt_R0; lra). lra.
Qed.

(** Different cells have different centres. *)
Lemma getBubblePos_injective (r c r' c' : Z) (width : R) :
  (r, c) <> (r', c') ->
  px (getBubblePos r c width) <> px (getBubblePos r' c' width) \/
  py (getBubblePos r c width) <> py (getBubblePos r' c' width).
Proof.
  intros Hne. destruct (Z.eq_dec r r') as [-> | Hr].
  - left. assert (Hc : c <> c') by congruence.
    unfold getBubblePos. cbn [px]. apply eq_IZR_contrapositive in Hc.
    unfold BUBBLE_RADIUS. intros E. apply Hc.
    destruct (isOddRow r'); lra.
  - right. unfold getBubblePos. cbn [py]. apply eq_IZR_contrapositive in Hr.
    pose proof ROW_HEIGHT_pos as Hh. intros E. apply Hr.
    apply (Rmult_eq_reg_r ROW_HEIGHT); lra.
Qed.

Lemma cellDistance_own (r c : Z) (width : R) :
  cellDistance (getBubblePos r c width) width (r, c) = 0%R.
Proof. unfold cellDistance. cbn [fst snd]. apply distance_same. Qed.

Lemma cellDistance_other (r c : Z) (width : R) (j : Z * Z) :
  j <> (r, c) -> (0 < cellDistance (getBubblePos r c width) width j)%R.
Proof.
  intros Hne. unfold cellDistance. apply distance_pos.
  destruct j as [r' c']. cbn [fst snd].
  apply getBubblePos_injective. congruence.
Qed.

Lemma prod_eq_dec_Z (a b : Z * Z) : {a = b} + {a <> b}.
Proof. decide equality; apply Z.eq_dec. Qed.

Lemma freeCell_empty (rc : Z * Z) : freeCell [] rc.
Proof. reflexivity. Qed.

(** With a free cell among those it visits, the scan settles on one: on
    the first of the free cells nearest to the ball. *)
Lemma nearestFreeCell_first_minimum (bs : list Bubble.t) (ball : Point) (W : R)
    (r c : Z) :
  validCell r c -> cellOccupied bs r c = false ->
  exists l1 k l2,
    gridCells = l1 ++ k :: l2 /\ freeCell bs k /\
    nearestFreeCell bs ball W = bestAt ball W k /\
    (forall j, In j l1 -> freeCell bs j ->
               (cellDistance ball W k < cellDistance ball W j)%R) /\
    (forall j, In j l2 -> freeCell bs j ->
               (cellDistance ball W k <= cellDistance ball W j)%R).
Proof.
  intros Hv Hfree. unfold nearestFreeCell.
  destruct (scan_first_minimum bs ball W gridCells initialBest)
    as [[_ Hnone] | [l1 [k [l2 [El [Hk [Hr [_ [H1 H2]]]]]]]]].
  - exfalso. apply gridCells_In in Hv.
    specialize (Hnone (r, c) Hv Hfree). cbn in Hnone. discriminate.
  - exists l1, k, l2. repeat apply conj; trivial.
Qed.

(** C5.  On an empty grid the nearest free cell of the pixel of a valid
    cell [(r, c)] is [(r, c)], for every viewport width.  In general the
    scan settles on a free cell that no free cell beats, and every free cell
    enumerated before it is strictly farther, so a tie goes to the cell
    enumerated first; the enumeration is row-major, then by column. *)
Theorem nearestFreeCell_round_trip :
  (forall (r c : Z) (W : R),
      validCell r c ->
      nearestFreeCell [] (getBubblePos r c W) W = bestAt (getBubblePos r c W) W (r, c) /\
      bestRow (nearestFreeCell [] (getBubblePos r c W) W) = r /\
      bestCol (nearestFreeCell [] (getBubblePos r c W) W) = c) /\
  (forall (bs : list Bubble.t) (ball : Point) (W : R) (r c : Z),
      validCell r c -> cellOccupied bs r c = false ->
      exists l1 k l2,
        gridCells = l1 ++ k :: l2 /\ freeCell bs k /\
        nearestFreeCell bs ball W = bestAt ball W k /\
        (forall j, In j l1 -> freeCell bs j ->
                   (cellDistance ball W k < cellDistance ball W j)%R) /\
        (forall j, In j l2 -> freeCell bs j ->
                   (cellDistance ball W k <= cellDistance ball W j)%R)) /\
  StronglySorted cellBefore gridCells.
Proof.
  split; [|split; [exact nearestFreeCell_first_minimum | exact gridCells_row_major]].
  intros r c W Hv.
  destruct (nearestFreeCell_first_minimum [] (getBubblePos r c W) W r c Hv eq_refl)
    as [l1 [k [l2 [El [Hk [Hr [H1 H2]]]]]]].
  assert (Hin : In (r, c) (l1 ++ k :: l2)).
  { rewrite <- El. apply gridCells_In. exact Hv. }
  assert (Hkeq : k = (r, c)).
  { destruct (prod_eq_dec_Z k (r, c)) as [E | Hne]; trivial. exfalso.
    pose proof (cellDistance_other r c W k Hne) as Hpos.
    pose proof (cellDistance_own r c W) as Hzero.
    apply in_app_or in Hin. destruct Hin as [Hin | [Hin | Hin]].
    - specialize (H1 (r, c) Hin (freeCell_empty _)). lra.
    - congruence.
    - specialize (H2 (r, c) Hin (freeCell_empty _)). lra. }
  subst k. rewrite Hr. cbn [bestAt bestRow bestCol fst snd]. auto.
Qed.

(** ** Row growth *)

Lemma shiftDown_fields (width : R) (b : Bubble.t) :
  Bubble.id (shiftDown width b) = Bubble.id b /\
  Bubble.row (shiftDown width b) = Bubble.row b + 1 /\
  Bubble.col (shiftDown width b) = Bubble.col b /\
  mkPoint (Bubble.x (shiftDown width b)) (Bubble.y (shiftDown width b))
    = getBubblePos (Bubble.row b + 1) (Bubble.col b) width /\
  Bubble.color (shiftDown width b) = Bubble.color b /\
  Bubble.active (shiftDown width b) = Bubble.active b.
Proof. repeat apply conj; reflexivity. Qed.

Lemma drawColor_in_palette (k : nat) : In (drawColor k) COLOR_KEYS.
Proof.
  unfold drawColor. apply nth_In. apply Nat.mod_upper_bound. cbn. discriminate.
Qed.

Lemma newTopRow_tokens (width : R) (now : Z) (rnd : Z -> nat) :
  List.length (newTopRow width now rnd) = 12%nat /\
  forall b, In b (newTopRow width now rnd) ->
    Bubble.row b = 0 /\ 0 <= Bubble.col b < GRID_COLS /\
    Bubble.active b = true /\ In (Bubble.color b) COLOR_KEYS /\
    mkPoint (Bubble.x b) (Bubble.y b) = getBubblePos 0 (Bubble.col b) width.
Proof.
  unfold newTopRow. split.
  - rewrite length_map. reflexivity.
  - intros b Hb. apply in_map_iff in Hb. destruct Hb as [c [<- Hc]].
    apply range_In in Hc. cbn [Bubble.row Bubble.col Bubble.active Bubble.color
                                 Bubble.x Bubble.y].
    repeat apply conj; trivial; try apply Hc.
    apply drawColor_in_palette.
Qed.

Lemma addNewRow_bubbles (width : R) (now : Z) (rnd : Z -> nat) (g : Game) :
  bubbles (addNewRow width now rnd g)
  = map (shiftDown width) (bubbles g) ++ newTopRow width now rnd.
Proof. unfold addNewRow. rewrite bubbles_updateAvailableColors. reflexivity. Qed.

Lemma addNewRow_untouched (width : R) (now : Z) (rnd : Z -> nat) (g : Game) :
  untouchedByGrowth g (addNewRow width now rnd g).
Proof.
  unfold addNewRow.
  exact (updateAvailableColors_untouched
           (setBubbles g (map (shiftDown width) (bubbles g) ++ newTopRow width now rnd))).
Qed.

(** ** Occupancy of the cells *)

Lemma cellOccupied_exists (bs : list Bubble.t) (r c : Z) :
  cellOccupied bs r c = true <->
  exists b, In b bs /\ Bubble.active b = true /\ Bubble.row b = r /\ Bubble.col b = c.
Proof.
  unfold cellOccupied. rewrite existsb_exists. split.
  - intros [b [Hb H]]. apply andb_true_iff in H. destruct H as [H Hc].
    apply andb_true_iff in H. destruct H as [Ha Hr].
    exists b. repeat apply conj; trivial; [apply Z.eqb_eq | apply Z.eqb_eq]; assumption.
  - intros [b [Hb [Ha [Hr Hc]]]]. exists b. split; trivial.
    rewrite Ha. cbn. apply andb_true_iff. split; apply Z.eqb_eq; assumption.
Qed.

Lemma cellsDistinct_sound (bs : list Bubble.t) :
  cellsDistinct bs = true -> ~ sharedCell bs.
Proof.
  induction bs as [|a0 r IH]; cbn [cellsDistinct]; intros H [a [b Hab]].
  - destruct Hab as [[] _].
  - apply andb_true_iff in H. destruct H as [Hhead Htail].
    rewrite forallb_forall in Hhead.
    destruct Hab as [Ha [Hb [Hid [Haa [Hba [Hr Hc]]]]]].
    assert (Hclash : forall u v, Bubble.active u = true -> Bubble.active v = true ->
                Bubble.row u = Bubble.row v -> Bubble.col u = Bubble.col v ->
                clash u v = true).
    { intros u v Hu Hv Hrow Hcol. unfold clash.
      rewrite Hu, Hv, Hrow, Hcol, !Z.eqb_refl. reflexivity. }
    destruct Ha as [<- | Ha], Hb as [<- | Hb].
    + congruence.
    + specialize (Hhead b Hb). rewrite (Hclash a0 b) in Hhead; trivial. discriminate.
    + specialize (Hhead a Ha). rewrite (Hclash a0 a) in Hhead; auto. discriminate.
    + apply (IH Htail). exists a, b. repeat apply conj; trivial.
Qed.

(** When every cell is taken the scan changes nothing. *)
Lemma scan_all_occupied (bs : list Bubble.t) (ball : Point) (width : R)
    (l : list (Z * Z)) (best : Best) :
  forallb (fun rc => cellOccupied bs (fst rc) (snd rc)) l = true ->
  fold_left (scanCell bs ball width) l best = best.
Proof.
  revert best. induction l as [|x r IH]; intros best H; cbn [fold_left]; trivial.
  cbn [forallb] in H. apply andb_true_iff in H. destruct H as [Hx Hr].
  unfold scanCell at 2. rewrite Hx. apply IH. exact Hr.
Qed.

Lemma checkMatches_below_three (difficulty : Difficulty) (accuracyBonus : R)
    (start : Bubble.t) (g : Game) :
  option_map (fun r => List.length (fst r)) (findMatches (bubbles g) start) = Some 1%nat ->
  checkMatches difficulty accuracyBonus start g = Returns g.
Proof.
  unfold checkMatches.
  destruct (findMatches (bubbles g) start) as [[matches visited]|]; [|discriminate].
  cbn [option_map fst]. intros H. injection H as H. rewrite H. reflexivity.
Qed.

(** *** Where the invariant is kept *)

Lemma deactivate_origin (matches bs : list Bubble.t) (b' : Bubble.t) :
  In b' (deactivate matches bs) ->
  exists b, In b bs /\ Bubble.id b' = Bubble.id b /\
            Bubble.row b' = Bubble.row b /\ Bubble.col b' = Bubble.col b /\
            (Bubble.active b' = true -> Bubble.active b = true).
Proof.
  unfold deactivate. intros H. apply in_map_iff in H. destruct H as [b [<- Hb]].
  exists b. split; trivial.
  destruct (hasId matches (Bubble.id b)); cbn; repeat apply conj; trivial.
  discriminate.
Qed.

(** Match removal keeps the invariant. *)
Lemma deactivate_keeps_cells (matches bs : list Bubble.t) :
  ~ sharedCell bs -> ~ sharedCell (deactivate matches bs).
Proof.
  intros Hok [a' [b' [Ha [Hb [Hid [Haa [Hba [Hr Hc]]]]]]]]. apply Hok.
  destruct (deactivate_origin _ _ _ Ha) as [a [Ha0 [Ea [Era [Eca Aa]]]]].
  destruct (deactivate_origin _ _ _ Hb) as [b [Hb0 [Eb [Erb [Ecb Ab]]]]].
  exists a, b. repeat apply conj; trivial; try congruence; auto.
Qed.

(** Row growth keeps the invariant on a grid whose rows start at 0. *)
Lemma addNewRow_keeps_cells (width : R) (now : Z) (rnd : Z -> nat) (g : Game) :
  ~ sharedCell (bubbles g) ->
  (forall b, In b (bubbles g) -> 0 <= Bubble.row b) ->
  ~ sharedCell (bubbles (addNewRow width now rnd g)).
Proof.
  intros Hok Hrows. rewrite addNewRow_bubbles.
  intros [a' [b' [Ha [Hb [Hid [Haa [Hba [Hr Hc]]]]]]]].
  apply in_app_or in Ha. apply in_app_or in Hb.
  destruct Ha as [Ha | Ha], Hb as [Hb | Hb].
  - apply in_map_iff in Ha. destruct Ha as [a [<- Ha]].
    apply in_map_iff in Hb. destruct Hb as [b [<- Hb]].
    apply Hok. exists a, b. cbn in *. repeat apply conj; trivial. lia.
  - apply in_map_iff in Ha. destruct Ha as [a [<- Ha]].
    apply newTopRow_tokens in Hb. destruct Hb as [H0 _].
    specialize (Hrows a Ha). cbn in Hr. lia.
  - apply in_map_iff in Hb. destruct Hb as [b [<- Hb]].
    apply newTopRow_tokens in Ha. destruct Ha as [H0 _].
    specialize (Hrows b Hb). cbn in Hr. lia.
  - unfold newTopRow in Ha, Hb.
    apply in_map_iff in Ha. destruct Ha as [ca [<- Ha]].
    apply in_map_iff in Hb. destruct Hb as [cb [<- Hb]].
    cbn in Hc. subst cb. apply Hid. reflexivity.
Qed.

(** A token pushed into a free cell keeps the invariant. *)
Lemma push_into_free_cell (bs : list Bubble.t) (newB : Bubble.t) :
  ~ sharedCell bs ->
  cellOccupied bs (Bubble.row newB) (Bubble.col newB) = false ->
  ~ sharedCell (bs ++ [newB]).
Proof.
  intros Hok Hfree [a [b [Ha [Hb [Hid [Haa [Hba [Hr Hc]]]]]]]].
  assert (Hnone : forall u, In u bs -> Bubble.active u = true ->
                  Bubble.row u = Bubble.row newB -> Bubble.col u = Bubble.col newB -> False).
  { intros u Hu Hact Hru Hcu.
    assert (cellOccupied bs (Bubble.row newB) (Bubble.col newB) = true).
    { apply cellOccupied_exists. exists u. auto. }
    congruence. }
  apply in_app_or in Ha. apply in_app_or in Hb.
  destruct Ha as [Ha | [<- | []]], Hb as [Hb | [<- | []]].
  - apply Hok. exists a, b. repeat apply conj; trivial.
  - apply (Hnone a); trivial.
  - apply (Hnone b); auto.
  - apply Hid. reflexivity.
Qed.

Lemma checkMatches_bubbles (difficulty : Difficulty) (accuracyBonus : R)
    (start : Bubble.t) (g g' : Game) :
  checkMatches difficulty accuracyBonus start g = Returns g' ->
  bubbles g' = bubbles g \/ exists matches, bubbles g' = deactivate matches (bubbles g).
Proof.
  unfold checkMatches.
  destruct (findMatches (bubbles g) start) as [[matches visited]|]; [|discriminate].
  destruct (3 <=? Z.of_nat (List.length matches)).
  - destruct (COLOR_CONFIG (Bubble.color start)); [|discriminate].
    intros H. injection H as <-. right. exists matches. reflexivity.
  - intros H. injection H as <-. left. reflexivity.
Qed.

(** The resolution of a collision keeps the invariant as long as one of
    the cells the scan visits is free. *)
Lemma resolveCollision_keeps_cells (difficulty : Difficulty) (width : R) (now : Z)
    (g g' : Game) (r c : Z) :
  ~ sharedCell (bubbles g) ->
  validCell r c -> cellOccupied (bubbles g) r c = false ->
  resolveCollision difficulty width now g = Returns g' ->
  ~ sharedCell (bubbles g').
Proof.
  intros Hok Hv Hfree.
  destruct (nearestFreeCell_first_minimum (bubbles g) (ballPos g) width r c Hv Hfree)
    as [l1 [k [l2 [_ [Hk [Hbest _]]]]]].
  unfold resolveCollision. rewrite Hbest.
  cbn [bestAt bestRow bestCol bestX bestY].
  match goal with
  | |- bind (checkMatches ?d ?b ?st ?g1) _ = _ -> _ =>
    destruct (checkMatches d b st g1) as [g2| |] eqn:Hrun;
      [|discriminate|discriminate];
    assert (Hpushed : ~ sharedCell (bubbles g1))
      by (cbn [bubbles setBubbles]; apply push_into_free_cell; [exact Hok | exact Hk])
  end.
  cbn [bind]. intros H. injection H as <-.
  cbn [bubbles setCaptureRequest setFlight]. rewrite bubbles_updateAvailableColors.
  destruct (checkMatches_bubbles _ _ _ _ _ Hrun) as [-> | [matches ->]]; trivial.
  apply deactivate_keeps_cells. exact Hpushed.
Qed.

(** A collision on a board without a free cell, when the stray token
    matches nothing: the token is added in cell (0, 0) and stays. *)
Lemma resolveCollision_without_free_cell (difficulty : Difficulty) (width : R)
    (now : Z) (g : Game) :
  forallb (fun rc => cellOccupied (bubbles g) (fst rc) (snd rc)) gridCells = true ->
  activeShotTarget g = None ->
  option_map (fun r => List.length (fst r))
             (findMatches (bubbles g ++ [strayToken now (selectedColor g)])
                          (strayToken now (selectedColor g))) = Some 1%nat ->
  exists g' : Game,
    resolveCollision difficulty width now g = Returns g' /\
    bubbles g' = bubbles g ++ [strayToken now (selectedColor g)].
Proof.
  intros Hfull Htarget Halone.
  unfold resolveCollision, nearestFreeCell.
  rewrite (scan_all_occupied _ _ _ _ _ Hfull), Htarget.
  cbn [initialBest bestRow bestCol bestX bestY accuracy snd].
  fold (strayToken now (selectedColor g)).
  rewrite checkMatches_below_three; [|exact Halone].
  cbn [bind]. eexists. split; [reflexivity|].
  cbn [bubbles setCaptureRequest setFlight]. rewrite bubbles_updateAvailableColors.
  reflexivity.
Qed.

Lemma fullBoard_cells_taken (ball : Point) :
  forallb (fun rc => cellOccupied (bubbles (fullBoardInFlight ball)) (fst rc) (snd rc))
          gridCells = true.
Proof. vm_compute. reflexivity. Qed.

Lemma fullBoard_cells_distinct : cellsDistinct (bubbles fullBoard) = true.
Proof. vm_compute. reflexivity. Qed.

Lemma fullBoard_no_target (ball : Point) :
  activeShotTarget (fullBoardInFlight ball) = None.
Proof. vm_compute. reflexivity. Qed.

Lemma fullBoard_stray_alone (ball : Point) :
  option_map (fun r => List.length (fst r))
    (findMatches
       (bubbles (fullBoardInFlight ball)
        ++ [strayToken 5000 (selectedColor (fullBoardInFlight ball))])
       (strayToken 5000 (selectedColor (fullBoardInFlight ball)))) = Some 1%nat.
Proof. vm_compute. reflexivity. Qed.

Lemma fullBoard_stray_id (ball : Point) :
  forallb (fun b => negb (String.eqb
                            (Bubble.id b)
                            (Bubble.id (strayToken 5000 (selectedColor (fullBoardInFlight ball))))))
          (bubbles (fullBoardInFlight ball)) = true.
Proof. vm_compute. reflexivity. Qed.

Lemma fullBoard_origin_taken (ball : Point) :
  cellOccupied (bubbles (fullBoardInFlight ball)) 0 0 = true.
Proof. vm_compute. reflexivity. Qed.

(** C4.  The occupancy invariant and the landing on a board without a free
    cell.  [fullBoard] is reached from the start of a round by skips alone
    and no two of its active tokens share a cell; there every cell the scan
    visits is taken, and a shot that collides, wherever the ball is, is
    placed as a second active token in cell (0, 0). *)
Theorem landing_on_full_board_shares_a_cell (ball : Point) :
  ~ sharedCell (bubbles fullBoard) /\
  exists g' : Game,
    resolveCollision very_hard 1000 5000 (fullBoardInFlight ball) = Returns g' /\
    sharedCell (bubbles g').
Proof.
  split; [apply cellsDistinct_sound; exact fullBoard_cells_distinct|].
  destruct (resolveCollision_without_free_cell very_hard 1000 5000
              (fullBoardInFlight ball) (fullBoard_cells_taken ball)
              (fullBoard_no_target ball) (fullBoard_stray_alone ball))
    as [g' [Hrun Hbs]].
  exists g'. split; [exact Hrun|]. rewrite Hbs.
  pose proof (fullBoard_origin_taken ball) as Hocc.
  apply cellOccupied_exists in Hocc. destruct Hocc as [a [Ha [Hact [Hr Hc]]]].
  pose proof (fullBoard_stray_id ball) as Hid. rewrite forallb_forall in Hid.
  specialize (Hid a Ha). apply negb_true_iff in Hid. apply String.eqb_neq in Hid.
  exists a, (strayToken 5000 (selectedColor (fullBoardInFlight ball))).
  split; [apply in_or_app; left; exact Ha|].
  split; [apply in_or_app; right; left; reflexivity|].
  split; [exact Hid|].
  split; [exact Hact|].
  split; [reflexivity|].
  split; [exact Hr | exact Hc].
Qed.

(** ** The fallback of the advisor *)

Section StableSort.
Context {A : Type}.
Variable compare : A -> A -> Z.
Hypothesis compare_total : forall a b, 0 < compare a b -> compare b a <= 0.
Hypothesis compare_trans :
  forall a b c, compare a b <= 0 -> compare b c <= 0 -> compare a c <= 0.

Lemma insertBy_In (a x : A) (l : list A) :
  In x (insertBy compare a l) <-> x = a \/ In x l.
Proof.
  induction l as [|b r IH]; cbn.
  - intuition.
  - destruct (compare a b <=? 0); cbn; [intuition|].
    rewrite IH. intuition.
Qed.

Lemma sortBy_In (x : A) (l : list A) : In x (sortBy compare l) <-> In x l.
Proof.
  induction l as [|a r IH]; cbn; [tauto|].
  fold (sortBy compare r). rewrite insertBy_In, IH. intuition.
Qed.

Lemma insertBy_sorted (a : A) (l : list A) :
  StronglySorted (notAfter compare) l -> StronglySorted (notAfter compare) (insertBy compare a l).
Proof.
  induction l as [|b r IH]; cbn; intros Hs.
  - constructor; [constructor | constructor].
  - inversion Hs as [|? ? Hr Hb]; subst.
    destruct (compare a b <=? 0) eqn:E.
    + apply Z.leb_le in E. constructor; trivial.
      constructor; trivial.
      rewrite Forall_forall in Hb. apply Forall_forall. intros x Hx.
      apply (compare_trans a b x); trivial. apply Hb. exact Hx.
    + apply Z.leb_gt in E. constructor; [apply IH; exact Hr|].
      apply Forall_forall. intros x Hx. apply insertBy_In in Hx.
      destruct Hx as [-> | Hx].
      * apply compare_total. exact E.
      * rewrite Forall_forall in Hb. apply Hb. exact Hx.
Qed.

Lemma sortBy_sorted (l : list A) : StronglySorted (notAfter compare) (sortBy compare l).
Proof.
  induction l as [|a r IH]; cbn; [constructor|].
  apply insertBy_sorted. exact IH.
Qed.

(** The first element of the sorted array is not after any element. *)
Lemma sortBy_head (l : list A) (h : A) (r : list A) :
  (forall a, compare a a <= 0) ->
  sortBy compare l = h :: r ->
  In h l /\ forall c, In c l -> compare h c <= 0.
Proof.
  intros Hrefl E. pose proof (sortBy_sorted l) as Hs. rewrite E in Hs.
  split.
  - apply sortBy_In. rewrite E. left. reflexivity.
  - intros c Hc. apply sortBy_In in Hc. rewrite E in Hc.
    inversion Hs as [|? ? _ Hall]; subst.
    destruct Hc as [<- | Hc]; [apply Hrefl|].
    rewrite Forall_forall in Hall. apply Hall. exact Hc.
Qed.

Lemma sortBy_nil (l : list A) : sortBy compare l = [] -> l = [].
Proof.
  destruct l as [|a r]; trivial. intros E. exfalso.
  assert (H : In a (sortBy compare (a :: r))) by (apply sortBy_In; left; reflexivity).
  rewrite E in H. exact H.
Qed.
End StableSort.

Lemma compareTargets_le (a b : TargetCandidate.t) :
  compareTargets a b <= 0 <->
  clusterScore b < clusterScore a \/
  (clusterScore b = clusterScore a /\ TargetCandidate.row a <= TargetCandidate.row b).
Proof.
  unfold compareTargets, orElse, clusterScore.
  destruct (_ - _ =? 0) eqn:E.
  - apply Z.eqb_eq in E. lia.
  - apply Z.eqb_neq in E. lia.
Qed.

Lemma compareTargets_total (a b : TargetCandidate.t) :
  0 < compareTargets a b -> compareTargets b a <= 0.
Proof.
  intros H. apply compareTargets_le.
  assert (Hn : ~ compareTargets a b <= 0) by lia.
  rewrite compareTargets_le in Hn. lia.
Qed.

Lemma compareTargets_trans (a b c : TargetCandidate.t) :
  compareTargets a b <= 0 -> compareTargets b c <= 0 -> compareTargets a c <= 0.
Proof. rewrite !compareTargets_le. lia. Qed.

Lemma compareTargets_refl (a : TargetCandidate.t) : compareTargets a a <= 0.
Proof. apply compareTargets_le. lia. Qed.

Lemma getBestLocalTarget_best (validTargets : list TargetCandidate.t) (msg : string) :
  validTargets <> [] ->
  exists best,
    bestCandidate validTargets best /\
    targetRow (getBestLocalTarget validTargets msg) = JNumber (TargetCandidate.row best) /\
    targetCol (getBestLocalTarget validTargets msg) = JNumber (TargetCandidate.col best) /\
    recommendedColor (getBestLocalTarget validTargets msg)
      = Some (TargetCandidate.color best).
Proof.
  intros Hne. unfold getBestLocalTarget.
  destruct (sortBy compareTargets validTargets) as [|best r] eqn:E.
  - apply sortBy_nil in E. contradiction.
  - destruct (sortBy_head compareTargets compareTargets_total compareTargets_trans
                validTargets best r compareTargets_refl E) as [Hin Hmin].
    exists best. split; [|cbn; auto].
    split; trivial. intros c Hc. specialize (Hmin c Hc).
    apply compareTargets_le in Hmin. lia.
Qed.

Lemma getStrategicHint_failed (beyondAscii : string -> string)
    (validTargets : list TargetCandidate.t) (reply : ServiceReply) :
  failedReply reply = true ->
  exists msg, msg <> ""%string /\
              getStrategicHint beyondAscii true validTargets reply
              = getBestLocalTarget validTargets msg.
Proof.
  unfold getStrategicHint, failedReply. cbn [negb].
  destruct reply as [| | |json]; intros H;
    try (eexists; split; [|reflexivity]; discriminate).
  destruct (json_recommendedColor json); try discriminate;
    (eexists; split; [|reflexivity]; discriminate).
Qed.

(** A parsed reply whose colour is absent or a string is passed on. *)
Lemma getStrategicHint_parsed (beyondAscii : string -> string)
    (validTargets : list TargetCandidate.t) (json : JsonFields) :
  failedReply (BodyParsed json) = false ->
  fieldsPassedOn json (getStrategicHint beyondAscii true validTargets (BodyParsed json)) /\
  recommendedColor (getStrategicHint beyondAscii true validTargets (BodyParsed json))
  = match json_recommendedColor json with
    | JString s => Some (toLowerCase beyondAscii s)
    | _ => None
    end.
Proof.
  unfold getStrategicHint, failedReply, fieldsPassedOn. cbn [negb].
  destruct (json_recommendedColor json); intros H; try discriminate;
    cbn [lowerCased message rationale targetRow targetCol suggestSkip recommendedColor];
    repeat apply conj; reflexivity.
Qed.

(** A parsed reply whose colour is there and is not a string. *)
Lemma getStrategicHint_colour_throws (beyondAscii : string -> string)
    (validTargets : list TargetCandidate.t) (json : JsonFields) :
  failedReply (BodyParsed json) = true ->
  getStrategicHint beyondAscii true validTargets (BodyParsed json)
  = getBestLocalTarget validTargets "Parse error".
Proof.
  unfold getStrategicHint, failedReply. cbn [negb].
  destruct (json_recommendedColor json); intros H; try discriminate; reflexivity.
Qed.

Lemma failedReply_cases (reply : ServiceReply) :
  failedReply reply = true <->
  reply = RequestFailed \/ reply = BodyUnparsable \/ reply = BodyNull \/
  exists json, reply = BodyParsed json /\
               ((exists b, json_recommendedColor json = JBool b) \/
                (exists n, json_recommendedColor json = JNumber n) \/
                json_recommendedColor json = JObject).
Proof.
  split.
  - destruct reply as [| | |json]; cbn [failedReply]; intros H; auto.
    do 3 right. exists json. split; [reflexivity|].
    destruct (json_recommendedColor json) as [| |b|n|s|]; try discriminate.
    + left. exists b. reflexivity.
    + right. left. exists n. reflexivity.
    + right. right. reflexivity.
  - intros [-> | [-> | [-> | [json [-> H]]]]]; try reflexivity.
    cbn [failedReply].
    destruct H as [[b ->] | [[n ->] | ->]]; reflexivity.
Qed.

Lemma applyHint_aim (canvas : option R) (hint : StrategicHint) (g : Game) (r c : Z) :
  targetRow hint = JNumber r -> targetCol hint = JNumber c ->
  aimTarget (applyHint canvas hint g)
  = Some (getBubblePos r c (canvasWidthOr1000 canvas)).
Proof.
  intros Hr Hc. unfold applyHint. rewrite Hr, Hc.
  destruct (recommendedColor hint) as [color|], (truthy (suggestSkip hint));
    try destruct (negb (String.eqb color "")); reflexivity.
Qed.

Lemma applyHint_no_aim (canvas : option R) (hint : StrategicHint) (g : Game) :
  targetRow hint = JUndefined ->
  aimTarget (applyHint canvas hint g) = aimTarget g.
Proof.
  intros Hr. unfold applyHint. rewrite Hr.
  destruct (truthy (suggestSkip hint)); reflexivity.
Qed.

(** C7, as stated, fails.  A payload that parses but is not what was asked
    for is not an advisor failure to the service: the empty object (which
    is also what an empty body is read as) is passed on as a hint with
    the message "Ready!" and neither a cell nor a colour, and a payload
    whose cell is given by strings ([wrongTypesReply]) is passed on as it
    is; with the candidates [bluePair] and [redFour] at hand neither hint
    aims at the best candidate, and folding it into the state sets no aim
    point.
    Without an API key the request is not made and the hint is the fixed
    message, again with no aim at the best candidate. *)
Lemma malformed_payload_is_passed_on :
  let cs := [bluePair; redFour] in
  let h1 := getStrategicHint asciiCaseOnly true cs (BodyParsed emptyObjectReply) in
  let h2 := getStrategicHint asciiCaseOnly true cs (BodyParsed wrongTypesReply) in
  let h3 := getStrategicHint asciiCaseOnly false cs RequestFailed in
  bestCandidate cs redFour /\
  (message h1 = JString "Ready!" /\ targetRow h1 = JUndefined /\
   targetCol h1 = JUndefined /\ recommendedColor h1 = None /\
   aimTarget (applyHint (Some 1000%R) h1 emptyGame) = None) /\
  (message h2 = JString "Go" /\ targetRow h2 = JString "5" /\
   targetCol h2 = JString "2" /\ recommendedColor h2 = Some "red"%string /\
   aimTarget (applyHint (Some 1000%R) h2 emptyGame) = None) /\
  (message h3 = JString "API Key missing." /\ targetRow h3 = JUndefined /\
   targetCol h3 = JUndefined /\ recommendedColor h3 = None /\
   aimTarget (applyHint (Some 1000%R) h3 emptyGame) = None).
Proof.
  cbv zeta. split; [|split; [|split]].
  - split; [right; left; reflexivity|].
    intros c [<- | [<- | []]]; cbn; split; intros; lia.
  - repeat apply conj; reflexivity.
  - repeat apply conj; reflexivity.
  - repeat apply conj; reflexivity.
Qed.

(** C7, amended.  The hint is the local fallback after a failed request,
    an unparsable body and a body whose reading throws (the body [null],
    and a body whose recommended colour is there and is not a string),
    and after these alone.  Then, with candidates, it aims at a candidate
    of largest [size * pointsPerBubble], of smallest row among those, and
    recommends its colour, and folding it into the state sets the aim
    point to the pixel of that candidate's cell; it is a function of the
    candidate list; of a blue pair worth 150 and a red four worth 100 it
    takes the red four; without candidates the hint has a message and no
    aim point, and the aim point of the state stays as it was.  Every
    other parsed body is passed on field by field, whatever its shape, and
    without an API key the hint is a fixed message with no aim point. *)
Theorem fallback_selects_best_candidate (beyondAscii : string -> string) :
  (forall (validTargets : list TargetCandidate.t) (reply : ServiceReply),
      failedReply reply = true ->
      validTargets <> [] ->
      exists best,
        bestCandidate validTargets best /\
        targetRow (getStrategicHint beyondAscii true validTargets reply)
          = JNumber (TargetCandidate.row best) /\
        targetCol (getStrategicHint beyondAscii true validTargets reply)
          = JNumber (TargetCandidate.col best) /\
        recommendedColor (getStrategicHint beyondAscii true validTargets reply)
          = Some (TargetCandidate.color best) /\
        forall (canvas : option R) (g : Game),
          aimTarget (applyHint canvas
                       (getStrategicHint beyondAscii true validTargets reply) g)
          = Some (getBubblePos (TargetCandidate.row best) (TargetCandidate.col best)
                               (canvasWidthOr1000 canvas))) /\
  (forall reply : ServiceReply,
      failedReply reply = true ->
      targetRow (getStrategicHint beyondAscii true [bluePair; redFour] reply)
        = JNumber 5 /\
      targetCol (getStrategicHint beyondAscii true [bluePair; redFour] reply)
        = JNumber 2 /\
      recommendedColor (getStrategicHint beyondAscii true [bluePair; redFour] reply)
        = Some "red"%string) /\
  (forall reply : ServiceReply,
      failedReply reply = true ->
      truthy (message (getStrategicHint beyondAscii true [] reply)) = true /\
      targetRow (getStrategicHint beyondAscii true [] reply) = JUndefined /\
      targetCol (getStrategicHint beyondAscii true [] reply) = JUndefined /\
      recommendedColor (getStrategicHint beyondAscii true [] reply) = None /\
      forall (canvas : option R) (g : Game),
        aimTarget (applyHint canvas (getStrategicHint beyondAscii true [] reply) g)
        = aimTarget g) /\
  (forall reply : ServiceReply,
      failedReply reply = true <->
      reply = RequestFailed \/ reply = BodyUnparsable \/ reply = BodyNull \/
      exists json, reply = BodyParsed json /\
                   ((exists b, json_recommendedColor json = JBool b) \/
                    (exists n, json_recommendedColor json = JNumber n) \/
                    json_recommendedColor json = JObject)) /\
  (forall (validTargets : list TargetCandidate.t) (reply : ServiceReply),
      failedReply reply = false ->
      exists json,
        reply = BodyParsed json /\
        fieldsPassedOn json (getStrategicHint beyondAscii true validTargets reply)) /\
  (forall (validTargets : list TargetCandidate.t) (reply : ServiceReply),
      getStrategicHint beyondAscii false validTargets reply
      = mkHint (JString "API Key missing.") JUndefined JUndefined JUndefined None
               JUndefined /\
      forall (canvas : option R) (g : Game),
        aimTarget (applyHint canvas
                     (getStrategicHint beyondAscii false validTargets reply) g)
        = aimTarget g).
Proof.
  split; [|split; [|split; [|split; [|split]]]].
  - intros validTargets reply Hf Hne.
    destruct (getStrategicHint_failed beyondAscii validTargets reply Hf) as [msg [_ ->]].
    destruct (getBestLocalTarget_best validTargets msg Hne)
      as [best [Hbest [Hr [Hc Hcol]]]].
    exists best.
    split; [exact Hbest|]. split; [exact Hr|]. split; [exact Hc|]. split; [exact Hcol|].
    intros canvas g. apply applyHint_aim; assumption.
  - intros reply Hf.
    destruct (getStrategicHint_failed beyondAscii [bluePair; redFour] reply Hf)
      as [msg [_ ->]].
    repeat apply conj; reflexivity.
  - intros reply Hf.
    destruct (getStrategicHint_failed beyondAscii [] reply Hf) as [msg [Hne ->]].
    split.
    { cbn. apply negb_true_iff. apply String.eqb_neq. exact Hne. }
    split; [reflexivity|]. split; [reflexivity|].
    split; [reflexivity|].
    intros canvas g. apply applyHint_no_aim. reflexivity.
  - exact failedReply_cases.
  - intros validTargets reply Hf.
    destruct reply as [| | |json]; try discriminate.
    exists json. split; [reflexivity|].
    apply (getStrategicHint_parsed beyondAscii validTargets json Hf).
  - intros validTargets reply. split; [reflexivity|].
    intros canvas g. apply applyHint_no_aim. reflexivity.
Qed.

(** ** The hint folded into the state *)

Lemma canvasWidthOr1000_1000 : canvasWidthOr1000 (Some 1000%R) = 1000%R.
Proof.
  unfold canvasWidthOr1000. destruct (Req_dec_T 1000 0); [lra | reflexivity].
Qed.

Lemma pink_not_in_palette : ~ In "pink"%string COLOR_KEYS.
Proof. cbn. intros H. repeat (destruct H as [H | H]; [discriminate|]). exact H. Qed.

(** C8, as stated, fails.  The reply [offPaletteReply] recommends "PINK"
    and the cell (40, 99): the colour is lower-cased and then selected
    although the palette has no such colour, and the aim point is set to the
    pixel of a cell outside the grid.  The reply [colorOnlyReply] recommends
    a colour of the palette and no cell: the colour is not applied. *)
Lemma advisor_fields_not_validated :
  let g1 := applyHint (Some 1000%R)
                      (getStrategicHint asciiCaseOnly true []
                                        (BodyParsed offPaletteReply)) emptyGame in
  let g2 := applyHint (Some 1000%R)
                      (getStrategicHint asciiCaseOnly true []
                                        (BodyParsed colorOnlyReply)) emptyGame in
  (selectedColor g1 = "pink"%string /\
   ~ In (selectedColor g1) COLOR_KEYS /\
   COLOR_CONFIG (selectedColor g1) = None) /\
  (aimTarget g1 = Some (getBubblePos 40 99 1000) /\ ~ validCell 40 99) /\
  (recommendedColor (getStrategicHint asciiCaseOnly true [] (BodyParsed colorOnlyReply))
     = Some "blue"%string /\
   In "blue"%string COLOR_KEYS /\
   selectedColor g2 = "red"%string /\ aiRecommendedColor g2 = None).
Proof.
  cbv zeta. unfold applyHint. rewrite canvasWidthOr1000_1000.
  split; [|split].
  - split; [reflexivity|]. split; [exact pink_not_in_palette | reflexivity].
  - split; [reflexivity|]. unfold validCell, GRID_ROWS. lia.
  - split; [reflexivity|]. split; [right; left; reflexivity|].
    split; reflexivity.
Qed.

(** C8, amended.  A reply that parses to a value other than [null]: when
    the colour it recommends is absent, the hint has no colour; when it is
    a string, the hint has that string lower-cased; in both cases the
    other fields are passed on as they are, with "Ready!" for a message
    that is not truthy, and nothing is checked against the palette or the
    grid; when the colour is there and is not a string, reading it throws
    and the hint is the local fallback with all its fields.  Folding a
    hint into the state: the message and the skip request are applied
    whatever the other fields are; the aim point is set exactly when
    [targetRow] and [targetCol] are both numbers, to the pixel of that
    cell; the recommended colour is selected exactly when, besides, it is
    a non-empty string. *)
Theorem applyHint_fields (beyondAscii : string -> string) (canvas : option R)
    (hint : StrategicHint) (g : Game) :
  let g' := applyHint canvas hint g in
  (forall (validTargets : list TargetCandidate.t) (json : JsonFields),
      let h := getStrategicHint beyondAscii true validTargets (BodyParsed json) in
      (json_recommendedColor json = JUndefined \/ json_recommendedColor json = JNull ->
       recommendedColor h = None /\ fieldsPassedOn json h) /\
      (forall s : string,
          json_recommendedColor json = JString s ->
          recommendedColor h = Some (toLowerCase beyondAscii s) /\
          fieldsPassedOn json h) /\
      ((exists b, json_recommendedColor json = JBool b) \/
       (exists n, json_recommendedColor json = JNumber n) \/
       json_recommendedColor json = JObject ->
       h = getBestLocalTarget validTargets "Parse error")) /\
  (forall s : string,
      asciiOnly s = true -> toLowerCase beyondAscii s = mapString lowerAscii s) /\
  toLowerCase beyondAscii "PINK" = "pink"%string /\
  aiHint g' = message hint /\
  showSkipConfirm g' = truthy (suggestSkip hint) || showSkipConfirm g /\
  (forall r c : Z,
      targetRow hint = JNumber r -> targetCol hint = JNumber c ->
      aimTarget g' = Some (getBubblePos r c (canvasWidthOr1000 canvas)) /\
      (forall color : string,
          recommendedColor hint = Some color -> color <> ""%string ->
          selectedColor g' = color /\ aiRecommendedColor g' = Some color) /\
      (recommendedColor hint = None \/ recommendedColor hint = Some ""%string ->
       selectedColor g' = selectedColor g /\
       aiRecommendedColor g' = aiRecommendedColor g)) /\
  ((forall r, targetRow hint <> JNumber r) \/ (forall c, targetCol hint <> JNumber c) ->
   aimTarget g' = aimTarget g /\
   selectedColor g' = selectedColor g /\
   aiRecommendedColor g' = aiRecommendedColor g).
Proof.
  cbv zeta. split; [|split; [|split; [|split; [|split; [|split]]]]].
  - intros validTargets json. split; [|split].
    + intros Hc.
      assert (Hf : failedReply (BodyParsed json) = false)
        by (cbn [failedReply]; destruct Hc as [-> | ->]; reflexivity).
      destruct (getStrategicHint_parsed beyondAscii validTargets json Hf) as [Hp Hcol].
      split; [|exact Hp]. rewrite Hcol. destruct Hc as [-> | ->]; reflexivity.
    + intros s Hs.
      assert (Hf : failedReply (BodyParsed json) = false)
        by (cbn [failedReply]; rewrite Hs; reflexivity).
      destruct (getStrategicHint_parsed beyondAscii validTargets json Hf) as [Hp Hcol].
      split; [|exact Hp]. rewrite Hcol, Hs. reflexivity.
    + intros Hc. apply getStrategicHint_colour_throws.
      cbn [failedReply]. destruct Hc as [[b ->] | [[n ->] | ->]]; reflexivity.
  - intros s Hs. unfold toLowerCase. rewrite Hs. reflexivity.
  - reflexivity.
  - unfold applyHint.
    destruct (targetRow hint), (targetCol hint), (recommendedColor hint) as [color|],
             (truthy (suggestSkip hint));
      try destruct (negb (String.eqb color "")); reflexivity.
  - unfold applyHint.
    destruct (targetRow hint), (targetCol hint), (recommendedColor hint) as [color|],
             (truthy (suggestSkip hint));
      try destruct (negb (String.eqb color "")); reflexivity.
  - intros r c Hr Hc. unfold applyHint. rewrite Hr, Hc.
    split; [|split].
    + destruct (recommendedColor hint) as [color|], (truthy (suggestSkip hint));
        try destruct (negb (String.eqb color "")); reflexivity.
    + intros color Hcol Hne. rewrite Hcol.
      apply String.eqb_neq in Hne. rewrite Hne. cbn [negb].
      destruct (truthy (suggestSkip hint)); split; reflexivity.
    + intros [Hcol | Hcol]; rewrite Hcol; cbn [String.eqb negb];
        destruct (truthy (suggestSkip hint)); split; reflexivity.
  - intros Hno. unfold applyHint.
    destruct (targetRow hint) as [| | | r | |] eqn:Er;
      try (destruct (truthy (suggestSkip hint)); repeat apply conj; reflexivity).
    destruct (targetCol hint) as [| | | c | |] eqn:Ec;
      try (destruct (truthy (suggestSkip hint)); repeat apply conj; reflexivity).
    exfalso. destruct Hno as [Hno | Hno]; [apply (Hno r) | apply (Hno c)]; reflexivity.
Qed.

(** ** Row growth and the row ceiling *)

(** C9, as stated, fails.  On [lastRowBoard] the only token is in row 13;
    after a row growth it is in row 14, past the ceiling, and still active.
    On [topRowBoard] the same token is in row 0 and stays under the ceiling.
    Apart from the grid the two results are the same state: nothing in what
    the growth produces tells the overflow from its absence. *)
Lemma row_growth_past_ceiling_signals_nothing :
  let grown := addNewRow 1000 7 (fun _ => 0%nat) lastRowBoard in
  let plain := addNewRow 1000 7 (fun _ => 0%nat) topRowBoard in
  pastCeiling (bubbles grown) /\
  ~ pastCeiling (bubbles plain) /\
  setBubbles grown [] = setBubbles plain [].
Proof.
  cbv zeta. split; [|split].
  - rewrite addNewRow_bubbles.
    exists (shiftDown 1000 (tokenAt "13-0"%string 13 0 "red"%string)).
    split; [left; reflexivity|]. split; [reflexivity|].
    cbn. unfold GRID_ROWS. lia.
  - rewrite addNewRow_bubbles. intros [b [Hb [_ Hrow]]].
    apply in_app_or in Hb. destruct Hb as [[<- | []] | Hb].
    + cbn in Hrow. unfold GRID_ROWS in Hrow. lia.
    + apply newTopRow_tokens in Hb. destruct Hb as [H0 _].
      rewrite H0 in Hrow. unfold GRID_ROWS in Hrow. lia.
  - reflexivity.
Qed.

(** C9, amended.  A row growth moves every token, active or not, down by
    exactly one row and recomputes its pixel position from the new row,
    whatever that row is; behind the moved tokens it pushes twelve active
    tokens of palette colours in row 0; it always returns, and changes
    nothing else in the state than the available colours and the selected
    colour.  No row ceiling is tested: a token moved past it stays in
    play. *)
Theorem addNewRow_shifts_every_row (width : R) (now : Z) (rnd : Z -> nat) (g : Game) :
  let g' := addNewRow width now rnd g in
  bubbles g' = map (shiftDown width) (bubbles g) ++ newTopRow width now rnd /\
  (forall b : Bubble.t,
      Bubble.id (shiftDown width b) = Bubble.id b /\
      Bubble.row (shiftDown width b) = Bubble.row b + 1 /\
      Bubble.col (shiftDown width b) = Bubble.col b /\
      mkPoint (Bubble.x (shiftDown width b)) (Bubble.y (shiftDown width b))
        = getBubblePos (Bubble.row b + 1) (Bubble.col b) width /\
      Bubble.color (shiftDown width b) = Bubble.color b /\
      Bubble.active (shiftDown width b) = Bubble.active b) /\
  (List.length (newTopRow width now rnd) = 12%nat /\
   forall b, In b (newTopRow width now rnd) ->
     Bubble.row b = 0 /\ 0 <= Bubble.col b < GRID_COLS /\
     Bubble.active b = true /\ In (Bubble.color b) COLOR_KEYS /\
     mkPoint (Bubble.x b) (Bubble.y b) = getBubblePos 0 (Bubble.col b) width) /\
  untouchedByGrowth g g' /\
  (forall b, In b (bubbles g) -> Bubble.active b = true ->
             GRID_ROWS <= Bubble.row b + 1 -> pastCeiling (bubbles g')).
Proof.
  cbv zeta. split; [apply addNewRow_bubbles|].
  split; [apply shiftDown_fields|].
  split; [apply newTopRow_tokens|].
  split; [apply addNewRow_untouched|].
  intros b Hb Hact Hrow. rewrite addNewRow_bubbles.
  exists (shiftDown width b). split.
  - apply in_or_app. left. apply in_map. exact Hb.
  - split; [exact Hact | exact Hrow].
Qed.

(** ** Skipping a turn *)

Lemma skipTurn_counter (difficulty : Difficulty) (canvas : option R) (now : Z)
    (rnd : Z -> nat) (g : Game) :
  shotsTaken (skipTurn difficulty canvas now rnd g) = shotsTaken g + 1.
Proof.
  unfold skipTurn. cbn [shotsTaken setShotsTaken setShowSkipConfirm setCaptureRequest].
  destruct (Z.rem (shotsTaken g + 1) (newRowFrequency (DIFFICULTY_SETTINGS difficulty)) =? 0);
    [|reflexivity].
  destruct canvas as [width|]; [|reflexivity].
  match goal with
  | |- shotsTaken (addNewRow _ _ _ ?s) = _ =>
    destruct (addNewRow_untouched width now rnd s) as [_ [H _]]; rewrite H
  end.
  reflexivity.
Qed.

Lemma skipTurn_bubbles (difficulty : Difficulty) (width : R) (now : Z)
    (rnd : Z -> nat) (g : Game) :
  bubbles (skipTurn difficulty (Some width) now rnd g) =
  if Z.rem (shotsTaken g + 1) (newRowFrequency (DIFFICULTY_SETTINGS difficulty)) =? 0
  then map (shiftDown width) (bubbles g) ++ newTopRow width now rnd
  else bubbles g.
Proof.
  unfold skipTurn. cbn [shotsTaken setShotsTaken setShowSkipConfirm setCaptureRequest bubbles].
  destruct (Z.rem (shotsTaken g + 1) (newRowFrequency (DIFFICULTY_SETTINGS difficulty)) =? 0);
    [|reflexivity].
  rewrite addNewRow_bubbles. reflexivity.
Qed.

Lemma skipTurn_no_flight (difficulty : Difficulty) (canvas : option R) (now : Z)
    (rnd : Z -> nat) (g : Game) :
  isFlying (skipTurn difficulty canvas now rnd g) = isFlying g /\
  ballVel (skipTurn difficulty canvas now rnd g) = ballVel g /\
  ballPos (skipTurn difficulty canvas now rnd g) = ballPos g.
Proof.
  unfold skipTurn. cbn [isFlying ballVel ballPos setCaptureRequest].
  destruct (Z.rem _ _ =? 0); [|repeat apply conj; reflexivity].
  destruct canvas as [width|]; [|repeat apply conj; reflexivity].
  match goal with
  | |- isFlying (addNewRow _ _ _ ?s) = _ /\ _ =>
    pose proof (addNewRow_untouched width now rnd s) as H
  end.
  unfold untouchedByGrowth in H.
  destruct H as [_ [_ [_ [_ [_ [_ [_ [H1 [H2 [H3 _]]]]]]]]]].
  rewrite H1, H2, H3. repeat apply conj; reflexivity.
Qed.

Lemma releaseShot_launched (difficulty : Difficulty) (width : R) (now : Z)
    (rnd : Z -> nat) (g : Game) :
  (30 < sqrt ((px (anchorPos g) - px (ballPos g)) * (px (anchorPos g) - px (ballPos g))
              + (py (anchorPos g) - py (ballPos g)) * (py (anchorPos g) - py (ballPos g))))%R ->
  shotsTaken (releaseShot difficulty width now rnd false g) = shotsTaken g + 1 /\
  isFlying (releaseShot difficulty width now rnd false g) = true /\
  bubbles (releaseShot difficulty width now rnd false g) =
  if Z.rem (shotsTaken g + 1) (newRowFrequency (DIFFICULTY_SETTINGS difficulty)) =? 0
  then map (shiftDown width) (bubbles g) ++ newTopRow width now rnd
  else bubbles g.
Proof.
  intros Hs. unfold releaseShot. cbn [negb].
  destruct (Rlt_dec 30 _) as [_ | Hn]; [|contradiction].
  cbn [shotsTaken setShotsTaken setActiveShotTarget setFlight bubbles].
  destruct (Z.rem (shotsTaken g + 1) (newRowFrequency (DIFFICULTY_SETTINGS difficulty)) =? 0).
  - rewrite addNewRow_bubbles. cbn [bubbles].
    match goal with
    | |- shotsTaken (addNewRow _ _ _ ?s) = _ /\ _ =>
      pose proof (addNewRow_untouched width now rnd s) as H
    end.
    unfold untouchedByGrowth in H.
    destruct H as [_ [H0 [_ [_ [_ [_ [_ [H1 _]]]]]]]].
    rewrite H0, H1. repeat apply conj; reflexivity.
  - repeat apply conj; reflexivity.
Qed.

(** C10.  A confirmed skip adds one to the shot counter.  With the canvas
    in place the grid afterwards is the grid with a new top row exactly when
    the new counter is a multiple of the new-row interval of the difficulty,
    and is the same grid otherwise: the same counter and the same grid as
    after the release of a shot from the same state.  No projectile is
    launched by it, so rows grow by skips alone: on the hardest level three
    skips from the start of a round add a row. *)
Theorem skipTurn_counts_as_a_shot (difficulty : Difficulty) (width : R) (now : Z)
    (rnd : Z -> nat) (g : Game) :
  let g' := skipTurn difficulty (Some width) now rnd g in
  let interval := newRowFrequency (DIFFICULTY_SETTINGS difficulty) in
  shotsTaken g' = shotsTaken g + 1 /\
  bubbles g' =
    (if Z.rem (shotsTaken g + 1) interval =? 0
     then map (shiftDown width) (bubbles g) ++ newTopRow width now rnd
     else bubbles g) /\
  (isFlying g' = isFlying g /\ ballVel g' = ballVel g /\ ballPos g' = ballPos g) /\
  ((30 < sqrt ((px (anchorPos g) - px (ballPos g)) * (px (anchorPos g) - px (ballPos g))
               + (py (anchorPos g) - py (ballPos g)) * (py (anchorPos g) - py (ballPos g))))%R ->
   shotsTaken (releaseShot difficulty width now rnd false g) = shotsTaken g' /\
   bubbles (releaseShot difficulty width now rnd false g) = bubbles g') /\
  (shotsTaken (skips 3 nineRedRows) = 3 /\
   isFlying (skips 3 nineRedRows) = false /\
   List.length (bubbles (skips 3 nineRedRows))
     = (List.length (bubbles nineRedRows) + 12)%nat /\
   List.length (bubbles (skips 2 nineRedRows)) = List.length (bubbles nineRedRows)).
Proof.
  cbv zeta.
  split; [apply skipTurn_counter|].
  split; [apply skipTurn_bubbles|].
  split; [apply skipTurn_no_flight|].
  split.
  - intros Hs.
    destruct (releaseShot_launched difficulty width now rnd g Hs) as [H1 [_ H3]].
    rewrite H1, H3, skipTurn_counter, skipTurn_bubbles. split; reflexivity.
  - repeat apply conj; vm_compute; reflexivity.
Qed.

Lemma aimedGame_stretch :
  (30 < sqrt ((px (anchorPos aimedGame) - px (ballPos aimedGame))
              * (px (anchorPos aimedGame) - px (ballPos aimedGame))
              + (py (anchorPos aimedGame) - py (ballPos aimedGame))
                * (py (anchorPos aimedGame) - py (ballPos aimedGame))))%R.
Proof.
  cbn [aimedGame emptyGame setFlight anchorPos ballPos px py].
  replace ((500 - 500) * (500 - 500) + (500 - 600) * (500 - 600))%R
    with (100 * 100)%R by ring.
  rewrite sqrt_square; lra.
Qed.

(** The theorem above at [aimedGame]: releasing the shot and confirming a
    skip leave the same counter and the same grid. *)
Lemma skipTurn_like_release_witness :
  shotsTaken (releaseShot very_hard 1000 7 (fun _ => 1%nat) false aimedGame)
    = shotsTaken (skipTurn very_hard (Some 1000%R) 7 (fun _ => 1%nat) aimedGame) /\
  bubbles (releaseShot very_hard 1000 7 (fun _ => 1%nat) false aimedGame)
    = bubbles (skipTurn very_hard (Some 1000%R) 7 (fun _ => 1%nat) aimedGame).
Proof.
  exact (proj1 (proj2 (proj2 (proj2
           (skipTurn_counts_as_a_shot very_hard 1000 7 (fun _ => 1%nat) aimedGame))))
           aimedGame_stretch).
Defined.

(* ================================================================== *)
(** * Part IV: further properties of the program                        *)
(* ================================================================== *)

(** ** Adjacency and geometry *)

Lemma sqrt3_sqr : (sqrt 3 * sqrt 3 = 3)%R.
Proof. apply sqrt_sqrt. lra. Qed.

Lemma isOddRow_01 (r : Z) :
  (if isOddRow r then BUBBLE_RADIUS else 0)%R
  = (BUBBLE_RADIUS * IZR (if isOddRow r then 1 else 0))%R.
Proof. destruct (isOddRow r); cbn; lra. Qed.

(** The squared distance between the centres of two cells, as an integer:
    484 times [k * k + 3 * dr * dr], with [dr] the row difference and [k]
    the column difference counted in half cells. *)
Lemma cells_squared_distance (ra ca rb cb : Z) (W : R) :
  let k := 2 * (ca - cb)
           + ((if isOddRow ra then 1 else 0) - (if isOddRow rb then 1 else 0)) in
  ((px (getBubblePos ra ca W) - px (getBubblePos rb cb W)) ^ 2
   + (py (getBubblePos ra ca W) - py (getBubblePos rb cb W)) ^ 2)%R
  = IZR (484 * (k * k + 3 * ((ra - rb) * (ra - rb)))).
Proof.
  cbv zeta. unfold getBubblePos. cbn [px py].
  rewrite (isOddRow_01 ra), (isOddRow_01 rb).
  unfold ROW_HEIGHT, BUBBLE_RADIUS.
  set (oa := if isOddRow ra then 1 else 0). set (ob := if isOddRow rb then 1 else 0).
  rewrite mult_IZR, plus_IZR, !mult_IZR, plus_IZR, !mult_IZR, !minus_IZR.
  pose proof sqrt3_sqr as H3. set (q := sqrt 3) in *.
  replace ((22 + IZR ra * (22 * q) - (22 + IZR rb * (22 * q))) ^ 2)%R
    with (484 * ((IZR ra - IZR rb) * (IZR ra - IZR rb)) * (q * q))%R by ring.
  rewrite H3. ring.
Qed.

Lemma neighbor_integer_rule (a b : Bubble.t) :
  let k := 2 * (Bubble.col a - Bubble.col b)
           + ((if isOddRow (Bubble.row a) then 1 else 0)
              - (if isOddRow (Bubble.row b) then 1 else 0)) in
  let dr := Bubble.row a - Bubble.row b in
  isNeighbor a b = true <-> k * k + 3 * (dr * dr) = 4.
Proof.
  cbv zeta. unfold isNeighbor.
  set (ra := Bubble.row a). set (rb := Bubble.row b).
  set (ca := Bubble.col a). set (cb := Bubble.col b).
  destruct (1 <? Z.abs (rb - ra)) eqn:E1.
  - apply Z.ltb_lt in E1. split; [discriminate|]. intros Hk. exfalso.
    set (k := 2 * (ca - cb) + _) in Hk.
    assert (Hd : 2 <= rb - ra \/ rb - ra <= -2) by lia.
    assert (Hdd : 4 <= (ra - rb) * (ra - rb)) by (destruct Hd; nia).
    assert (Hkk : 0 <= k * k) by nia. lia.
  - apply Z.ltb_ge in E1.
    destruct (rb - ra =? 0) eqn:E0.
    + apply Z.eqb_eq in E0. assert (Hr : rb = ra) by lia.
      rewrite Hr. rewrite Z.eqb_eq.
      replace (ra - ra) with 0 by lia.
      destruct (isOddRow ra); split; intros Hk.
      * assert (Hc : cb - ca = 1 \/ cb - ca = -1) by lia. destruct Hc; nia.
      * assert (Hc : ca - cb = 1 \/ ca - cb = -1) by nia. lia.
      * assert (Hc : cb - ca = 1 \/ cb - ca = -1) by lia. destruct Hc; nia.
      * assert (Hc : ca - cb = 1 \/ ca - cb = -1) by nia. lia.
    + apply Z.eqb_neq in E0.
      assert (Hd : Z.abs (rb - ra) = 1) by lia.
      assert (Hp : isOddRow rb = negb (isOddRow ra)).
      { rewrite <- (isOddRow_step ra (rb - ra) Hd). f_equal. lia. }
      rewrite Hp.
      assert (Hsq : (ra - rb) * (ra - rb) = 1).
      { assert (Hc : rb - ra = 1 \/ rb - ra = -1) by lia. destruct Hc; nia. }
      rewrite Hsq.
      destruct (isOddRow ra); cbn [negb]; rewrite orb_true_iff, !Z.eqb_eq;
        split; intros Hk.
      * destruct Hk; nia.
      * assert (Hc : 2 * (ca - cb) + (1 - 0) = 1 \/ 2 * (ca - cb) + (1 - 0) = -1) by nia.
        lia.
      * destruct Hk; nia.
      * assert (Hc : 2 * (ca - cb) + (0 - 1) = 1 \/ 2 * (ca - cb) + (0 - 1) = -1) by nia.
        lia.
Qed.

Lemma onItsCell_near (W : R) (b : Bubble.t) : onItsCell W b -> nearItsCell W b.
Proof.
  unfold onItsCell, nearItsCell. intros H. cbv zeta. rewrite <- H. cbn [px py].
  replace (Bubble.x b - Bubble.x b)%R with 0%R by ring.
  replace (Bubble.y b - Bubble.y b)%R with 0%R by ring.
  rewrite Rabs_R0. split; lra.
Qed.

Lemma Rabs_bound (a b : R) : (Rabs a <= b)%R -> (- b <= a <= b)%R.
Proof. unfold Rabs. destruct (Rcase_abs a); lra. Qed.

(** The integer [k * k + 3 * dr * dr] of two cells is 0 for one cell, 4
    for two cells side by side, and 12 or more otherwise. *)
Lemma cells_integer_cases (ra ca rb cb : Z) :
  let k := 2 * (ca - cb)
           + ((if isOddRow ra then 1 else 0) - (if isOddRow rb then 1 else 0)) in
  (ra = rb /\ ca = cb /\ k * k + 3 * ((ra - rb) * (ra - rb)) = 0) \/
  k * k + 3 * ((ra - rb) * (ra - rb)) = 4 \/
  12 <= k * k + 3 * ((ra - rb) * (ra - rb)).
Proof.
  cbv zeta.
  assert (Hcases : ra - rb = 0 \/ Z.abs (ra - rb) = 1 \/ 2 <= Z.abs (ra - rb)) by lia.
  destruct Hcases as [H0 | [H1 | H2]].
  - assert (ra = rb) by lia. subst rb.
    replace ((if isOddRow ra then 1 else 0) - (if isOddRow ra then 1 else 0)) with 0 by lia.
    replace (ra - ra) with 0 by lia.
    assert (Hq : ca - cb = 0 \/ Z.abs (ca - cb) = 1 \/ 2 <= Z.abs (ca - cb)) by lia.
    destruct Hq as [Hq | [Hq | Hq]].
    + left. split; [reflexivity|]. split; [lia|]. rewrite Hq. reflexivity.
    + right. left. assert (Hc : ca - cb = 1 \/ ca - cb = -1) by lia.
      destruct Hc as [-> | ->]; reflexivity.
    + right. right. assert (Hc : 2 <= ca - cb \/ ca - cb <= -2) by lia.
      destruct Hc; nia.
  - right.
    assert (Hpar : isOddRow ra = negb (isOddRow rb)).
    { replace ra with (rb + (ra - rb)) by lia. apply isOddRow_step. exact H1. }
    rewrite Hpar.
    assert (Hd : (ra - rb) * (ra - rb) = 1) by nia.
    rewrite Hd.
    set (q := ca - cb).
    assert (Hq : q = 0 \/ q = 1 \/ q = -1 \/ 2 <= q \/ q <= -2) by lia.
    destruct (isOddRow rb); cbn [negb];
      destruct Hq as [-> | [-> | [-> | [Hq | Hq]]]];
      try (left; reflexivity); try (right; nia); right; cbn; lia.
  - right. right.
    assert (Hd : 4 <= (ra - rb) * (ra - rb)) by nia.
    set (k := 2 * (ca - cb) + _). assert (0 <= k * k) by nia. lia.
Qed.

(** The squared distance of two tokens stored near their cells, against
    the integer of the two cells. *)
Lemma near_cells_squared (W : R) (a b : Bubble.t) :
  nearItsCell W a -> nearItsCell W b ->
  let k := 2 * (Bubble.col a - Bubble.col b)
           + ((if isOddRow (Bubble.row a) then 1 else 0)
              - (if isOddRow (Bubble.row b) then 1 else 0)) in
  let m := k * k + 3 * ((Bubble.row a - Bubble.row b) * (Bubble.row a - Bubble.row b)) in
  let S := ((Bubble.x a - Bubble.x b) ^ 2 + (Bubble.y a - Bubble.y b) ^ 2)%R in
  (99 / 100 * (484 * IZR m) - 1 / 10 <= S)%R /\
  (S <= 101 / 100 * (484 * IZR m) + 1 / 10)%R.
Proof.
  unfold nearItsCell. cbv zeta. intros [Hax Hay] [Hbx Hby].
  pose proof (cells_squared_distance (Bubble.row a) (Bubble.col a)
                (Bubble.row b) (Bubble.col b) W) as Hsq.
  cbv zeta in Hsq. rewrite mult_IZR in Hsq.
  set (m := _ * _ + 3 * _) in *.
  set (pa := getBubblePos (Bubble.row a) (Bubble.col a) W) in *.
  set (pb := getBubblePos (Bubble.row b) (Bubble.col b) W) in *.
  apply Rabs_bound in Hax, Hay, Hbx, Hby.
  set (X0 := (px pa - px pb)%R) in *. set (Y0 := (py pa - py pb)%R) in *.
  set (ex := ((Bubble.x a - px pa) - (Bubble.x b - px pb))%R).
  set (ey := ((Bubble.y a - py pa) - (Bubble.y b - py pb))%R).
  assert (Hex : (- (2 / 100) <= ex <= 2 / 100)%R) by (unfold ex; lra).
  assert (Hey : (- (2 / 100) <= ey <= 2 / 100)%R) by (unfold ey; lra).
  assert (Hex2 : (ex * ex <= 4 / 10000)%R) by nra.
  assert (Hey2 : (ey * ey <= 4 / 10000)%R) by nra.
  replace (Bubble.x a - Bubble.x b)%R with (X0 + ex)%R by (unfold X0, ex; ring).
  replace (Bubble.y a - Bubble.y b)%R with (Y0 + ey)%R by (unfold Y0, ey; ring).
  pose proof (Rle_0_sqr (X0 / 10 + 10 * ex)) as Hx1. unfold Rsqr in Hx1.
  pose proof (Rle_0_sqr (X0 / 10 - 10 * ex)) as Hx2. unfold Rsqr in Hx2.
  pose proof (Rle_0_sqr (Y0 / 10 + 10 * ey)) as Hy1. unfold Rsqr in Hy1.
  pose proof (Rle_0_sqr (Y0 / 10 - 10 * ey)) as Hy2. unfold Rsqr in Hy2.
  replace (IZR 484) with 484%R in Hsq by reflexivity.
  split; nra.
Qed.

Lemma sqrt_above (c S : R) : (0 <= c)%R -> (c * c < S)%R -> (c < sqrt S)%R.
Proof.
  intros Hc H. rewrite <- (sqrt_square c Hc). apply sqrt_lt_1_alt. nra.
Qed.

Lemma sqrt_below (c S : R) : (0 <= c)%R -> (0 <= S < c * c)%R -> (sqrt S < c)%R.
Proof.
  intros Hc H. rewrite <- (sqrt_square c Hc). apply sqrt_lt_1_alt. exact H.
Qed.

(** What the distance of two tokens stored near their cells tells of
    their cells. *)
Lemma near_cells_distance (W : R) (a b : Bubble.t) :
  nearItsCell W a -> nearItsCell W b ->
  let d := distance (Bubble.x a) (Bubble.y a) (Bubble.x b) (Bubble.y b) in
  (isNeighbor a b = true ->
   (2 * BUBBLE_RADIUS - 1 < d < 2 * BUBBLE_RADIUS + 1)%R) /\
  (isNeighbor a b = false ->
   Bubble.row a <> Bubble.row b \/ Bubble.col a <> Bubble.col b ->
   (3 * BUBBLE_RADIUS < d)%R) /\
  (Bubble.row a = Bubble.row b -> Bubble.col a = Bubble.col b ->
   (d < 1)%R).
Proof.
  intros Ha Hb. cbv zeta.
  destruct (near_cells_squared W a b Ha Hb) as [Hlo Hhi]. cbv zeta in Hlo, Hhi.
  pose proof (neighbor_integer_rule a b) as Hrule. cbv zeta in Hrule.
  pose proof (cells_integer_cases (Bubble.row a) (Bubble.col a)
                (Bubble.row b) (Bubble.col b)) as Hcases. cbv zeta in Hcases.
  unfold distance. unfold BUBBLE_RADIUS.
  set (m := _ * _ + 3 * _) in *.
  set (S := ((Bubble.x a - Bubble.x b) ^ 2 + (Bubble.y a - Bubble.y b) ^ 2)%R) in *.
  assert (HS : (0 <= S)%R) by (unfold S; apply Rplus_le_le_0_compat; apply pow2_ge_0).
  split; [|split].
  - intros Hn. apply Hrule in Hn. rewrite Hn in Hlo, Hhi.
    split; [apply sqrt_above | apply sqrt_below]; lra.
  - intros Hn Hne.
    assert (Hm : 12 <= m).
    { destruct Hcases as [[Hr [Hc _]] | [H4 | H12]]; [|  | exact H12].
      - exfalso. destruct Hne as [Hne | Hne]; contradiction.
      - apply Hrule in H4. congruence. }
    apply IZR_le in Hm. apply sqrt_above; lra.
  - intros Hr Hc.
    assert (Hm : m = 0).
    { destruct Hcases as [[_ [_ H0]] | [H4 | H12]]; [exact H0 | |].
      - exfalso. unfold m in H4. rewrite Hr, Hc in H4.
        replace ((if isOddRow (Bubble.row b) then 1 else 0) -
                 (if isOddRow (Bubble.row b) then 1 else 0)) with 0 in H4 by lia.
        lia.
      - exfalso. unfold m in H12. rewrite Hr, Hc in H12.
        replace ((if isOddRow (Bubble.row b) then 1 else 0) -
                 (if isOddRow (Bubble.row b) then 1 else 0)) with 0 in H12 by lia.
        lia. }
    rewrite Hm in Hhi. apply sqrt_below; lra.
Qed.

(** X1.  Adjacency and distance.  For two tokens stored within a
    hundredth of a pixel of the centres of their cells (the stored pixel
    is a floating-point value), on any canvas width: neighbours have
    their centres within one pixel of two radii (their discs touch);
    tokens in different cells that are not neighbours have their centres
    more than three radii apart; so two tokens are neighbours exactly
    when their centres are more than one and less than three radii
    apart. *)
Theorem isNeighbor_iff_touching (W : R) (a b : Bubble.t) :
  nearItsCell W a -> nearItsCell W b ->
  let d := distance (Bubble.x a) (Bubble.y a) (Bubble.x b) (Bubble.y b) in
  (isNeighbor a b = true ->
   (2 * BUBBLE_RADIUS - 1 < d < 2 * BUBBLE_RADIUS + 1)%R) /\
  (isNeighbor a b = false ->
   Bubble.row a <> Bubble.row b \/ Bubble.col a <> Bubble.col b ->
   (3 * BUBBLE_RADIUS < d)%R) /\
  (isNeighbor a b = true <-> (BUBBLE_RADIUS < d < 3 * BUBBLE_RADIUS)%R).
Proof.
  intros Ha Hb. cbv zeta.
  destruct (near_cells_distance W a b Ha Hb) as [Hyes [Hno Hsame]]. cbv zeta in *.
  split; [exact Hyes|]. split; [exact Hno|].
  unfold BUBBLE_RADIUS in *. split.
  - intros Hn. specialize (Hyes Hn). lra.
  - intros Hd. destruct (isNeighbor a b) eqn:En; [reflexivity|]. exfalso.
    destruct (Z.eq_dec (Bubble.row a) (Bubble.row b)) as [Hr | Hr].
    + destruct (Z.eq_dec (Bubble.col a) (Bubble.col b)) as [Hc | Hc].
      * specialize (Hsame Hr Hc). lra.
      * specialize (Hno eq_refl (or_intror Hc)). lra.
    + specialize (Hno eq_refl (or_introl Hr)). lra.
Qed.

(** The theorem above at two tokens side by side in row 0. *)
Lemma isNeighbor_touching_witness :
  isNeighbor (tokenAt "0-0"%string 0 0 "red"%string) (tokenAt "0-1"%string 0 1 "red"%string) = true <->
  (BUBBLE_RADIUS
   < distance (Bubble.x (tokenAt "0-0"%string 0 0 "red"%string))
              (Bubble.y (tokenAt "0-0"%string 0 0 "red"%string))
              (Bubble.x (tokenAt "0-1"%string 0 1 "red"%string))
              (Bubble.y (tokenAt "0-1"%string 0 1 "red"%string))
   < 3 * BUBBLE_RADIUS)%R.
Proof.
  apply (isNeighbor_iff_touching 1000 (tokenAt "0-0"%string 0 0 "red"%string)
           (tokenAt "0-1"%string 0 1 "red"%string));
    apply onItsCell_near; reflexivity.
Defined.

(** ** The colours on offer *)

Lemma setAdd_NoDup (s : list string) (k : string) : NoDup s -> NoDup (setAdd s k).
Proof.
  intros H. unfold setAdd. destruct (setHas s k) eqn:E; trivial.
  apply setHas_false in E. apply NoDup_app; trivial.
  - constructor; [intros [] | constructor].
  - intros x Hx [<- | []]. contradiction.
Qed.

Lemma activeColors_acc (bs : list Bubble.t) :
  forall acc : list string,
    let out := fold_left (fun acc b => if Bubble.active b
                                       then setAdd acc (Bubble.color b) else acc) bs acc in
    (NoDup acc -> NoDup out) /\
    (forall c, In c out <->
               In c acc \/ exists b, In b bs /\ Bubble.active b = true /\ Bubble.color b = c).
Proof.
  induction bs as [|b r IH]; intros acc; cbn [fold_left].
  - split; trivial. intros c. split; [auto | intros [H | [b [[] _]]]; exact H].
  - destruct (IH (if Bubble.active b then setAdd acc (Bubble.color b) else acc))
      as [Hnd Hin].
    split.
    + intros Hacc. apply Hnd. destruct (Bubble.active b); trivial.
      apply setAdd_NoDup. exact Hacc.
    + intros c. rewrite Hin. destruct (Bubble.active b) eqn:Ea.
      * rewrite setAdd_In. split.
        -- intros [Hc | [b' [Hb' Hx]]].
           ++ destruct Hc as [Hc | Hc]; [left; exact Hc|].
              right. exists b. split; [left; reflexivity|]. split; [exact Ea | auto].
           ++ right. exists b'. split; [right; exact Hb' | exact Hx].
        -- intros [Hc | [b' [Hb' [Ha Hcol]]]].
           ++ left. left. exact Hc.
           ++ destruct Hb' as [Heq | Hb'].
              ** subst b'. left. right. symmetry. exact Hcol.
              ** right. exists b'. auto.
      * split.
        -- intros [Hc | [b' [Hb' Hx]]]; [left; exact Hc|].
           right. exists b'. split; [right; exact Hb' | exact Hx].
        -- intros [Hc | [b' [Hb' [Ha Hcol]]]]; [left; exact Hc|].
           destruct Hb' as [Heq | Hb']; [subst b'; congruence|].
           right. exists b'. auto.
Qed.

(** X2.  After [updateAvailableColors] the colours on offer are, each
    once, exactly the colours of the active tokens; unless there is none,
    the selected colour is one of them, and it is the colour that was
    selected whenever that one is still on the board. *)
Theorem updateAvailableColors_offer (g : Game) :
  let g' := updateAvailableColors g in
  NoDup (availableColors g') /\
  (forall c, In c (availableColors g') <->
             exists b, In b (bubbles g) /\ Bubble.active b = true /\ Bubble.color b = c) /\
  (availableColors g' <> [] -> In (selectedColor g') (availableColors g')) /\
  (In (selectedColor g) (availableColors g') \/ availableColors g' = [] ->
   selectedColor g' = selectedColor g).
Proof.
  cbv zeta.
  destruct (activeColors_acc (bubbles g) []) as [Hnd Hin]. cbv zeta in Hnd, Hin.
  fold (activeColors (bubbles g)) in Hnd, Hin.
  assert (Hav : availableColors (updateAvailableColors g) = activeColors (bubbles g)).
  { unfold updateAvailableColors.
    destruct (activeColors (bubbles g)) as [|c0 cs]; [reflexivity|].
    destruct (negb (setHas (c0 :: cs) (selectedColor g))); reflexivity. }
  rewrite Hav. split; [apply Hnd; constructor|]. split.
  - intros c. rewrite Hin. split; [intros [[] | H]; exact H | auto].
  - unfold updateAvailableColors.
    destruct (activeColors (bubbles g)) as [|c0 cs] eqn:Ec.
    + split; [congruence | reflexivity].
    + destruct (setHas (c0 :: cs) (selectedColor g)) eqn:Es; cbn [negb selectedColor
        setSelectedColor setAvailableColors].
      * apply setHas_In in Es. split; auto.
      * apply setHas_false in Es. split; [intros _; left; reflexivity|].
        intros [H | H]; [contradiction | discriminate].
Qed.

(** ** The grid a round starts with *)

Lemma initGrid_bubbles (W : R) (diff : Difficulty) (keep : Z -> Z -> bool)
    (rnd : Z -> Z -> nat) (g : Game) (b : Bubble.t) :
  In b (bubbles (initGrid W diff keep rnd g)) <->
  exists r c,
    0 <= r < startingRows (DIFFICULTY_SETTINGS diff) /\ 0 <= c < colsOfRow r /\
    keep r c = true /\
    b = Bubble.mk (showZ r ++ "-" ++ showZ c)%string r c
                  (px (getBubblePos r c W)) (py (getBubblePos r c W))
                  (drawColor (rnd r c)) true.
Proof.
  unfold initGrid. rewrite bubbles_updateAvailableColors.
  cbn [bubbles setScore setShotsTaken setBubbles].
  rewrite in_flat_map. split.
  - intros [r [Hr Hb]]. apply in_flat_map in Hb. destruct Hb as [c [Hc Hb]].
    apply range_In in Hr. apply range_In in Hc.
    destruct (keep r c) eqn:Hk; [|destruct Hb].
    destruct Hb as [<- | []]. exists r, c. auto.
  - intros [r [c [Hr [Hc [Hk ->]]]]]. exists r. split; [apply range_In; exact Hr|].
    apply in_flat_map. exists c. split; [apply range_In; exact Hc|].
    rewrite Hk. left. reflexivity.
Qed.

Lemma startingRows_under_ceiling (diff : Difficulty) :
  0 < startingRows (DIFFICULTY_SETTINGS diff) < GRID_ROWS.
Proof. destruct diff; cbn; unfold GRID_ROWS; lia. Qed.

(** X3.  [initGrid] resets the score and the shot counter and leaves a
    grid of active tokens of palette colours, each drawn on its own cell,
    all in the first [startingRows] rows and so under the row ceiling; a
    cell holds a token exactly when its draw kept it, and no two tokens
    share a cell. *)
Theorem initGrid_grid (W : R) (diff : Difficulty) (keep : Z -> Z -> bool)
    (rnd : Z -> Z -> nat) (g : Game) :
  let g' := initGrid W diff keep rnd g in
  score g' = 0 /\ shotsTaken g' = 0 /\
  (forall b, In b (bubbles g') ->
     Bubble.active b = true /\ In (Bubble.color b) COLOR_KEYS /\ onItsCell W b /\
     validCell (Bubble.row b) (Bubble.col b) /\
     Bubble.row b < startingRows (DIFFICULTY_SETTINGS diff) /\
     keep (Bubble.row b) (Bubble.col b) = true) /\
  (forall r c, 0 <= r < startingRows (DIFFICULTY_SETTINGS diff) ->
               0 <= c < colsOfRow r ->
               cellOccupied (bubbles g') r c = keep r c) /\
  ~ sharedCell (bubbles g').
Proof.
  cbv zeta. pose proof (startingRows_under_ceiling diff) as Hrows.
  split; [|split; [|split; [|split]]].
  - unfold initGrid.
    destruct (updateAvailableColors_untouched
                (setScore (setShotsTaken
                   (setBubbles g
                      (flat_map (fun r =>
                         flat_map (fun c =>
                           if keep r c then
                             [Bubble.mk (showZ r ++ "-" ++ showZ c)%string r c
                                (px (getBubblePos r c W)) (py (getBubblePos r c W))
                                (drawColor (rnd r c)) true]
                           else []) (range (colsOfRow r)))
                         (range (startingRows (DIFFICULTY_SETTINGS diff))))) 0) 0))
      as [H _].
    exact H.
  - unfold initGrid.
    destruct (updateAvailableColors_untouched
                (setScore (setShotsTaken
                   (setBubbles g
                      (flat_map (fun r =>
                         flat_map (fun c =>
                           if keep r c then
                             [Bubble.mk (showZ r ++ "-" ++ showZ c)%string r c
                                (px (getBubblePos r c W)) (py (getBubblePos r c W))
                                (drawColor (rnd r c)) true]
                           else []) (range (colsOfRow r)))
                         (range (startingRows (DIFFICULTY_SETTINGS diff))))) 0) 0))
      as [_ [H _]].
    exact H.
  - intros b Hb. apply initGrid_bubbles in Hb.
    destruct Hb as [r [c [Hr [Hc [Hk ->]]]]].
    cbn [Bubble.active Bubble.color Bubble.row Bubble.col].
    split; [reflexivity|]. split; [apply drawColor_in_palette|].
    split; [reflexivity|]. split; [|split; [lia | exact Hk]].
    unfold validCell. lia.
  - intros r c Hr Hc. destruct (keep r c) eqn:Hk.
    + apply cellOccupied_exists.
      exists (Bubble.mk (showZ r ++ "-" ++ showZ c)%string r c
                        (px (getBubblePos r c W)) (py (getBubblePos r c W))
                        (drawColor (rnd r c)) true).
      split; [|cbn; auto].
      apply initGrid_bubbles. exists r, c. auto.
    + destruct (cellOccupied (bubbles (initGrid W diff keep rnd g)) r c) eqn:Ho; trivial.
      apply cellOccupied_exists in Ho. destruct Ho as [b [Hb [_ [Hrb Hcb]]]].
      apply initGrid_bubbles in Hb. destruct Hb as [r' [c' [_ [_ [Hk' ->]]]]].
      cbn in Hrb, Hcb. subst. congruence.
  - intros [a [b [Ha [Hb [Hid [_ [_ [Hr Hc]]]]]]]].
    apply initGrid_bubbles in Ha. destruct Ha as [ra [ca [_ [_ [_ ->]]]]].
    apply initGrid_bubbles in Hb. destruct Hb as [rb [cb [_ [_ [_ ->]]]]].
    cbn in Hid, Hr, Hc. subst. apply Hid. reflexivity.
Qed.

(** ** What the resolution of a collision does *)

Lemma COLOR_KEYS_in_table (c : BubbleColor) :
  In c COLOR_KEYS <-> COLOR_CONFIG c <> None.
Proof.
  unfold COLOR_KEYS, COLOR_CONFIG. split.
  - intros H. repeat (destruct H as [<- | H]; [cbn; discriminate|]). destruct H.
  - intros H.
    destruct (String.eqb c "red") eqn:E1;
      [apply String.eqb_eq in E1; subst; cbn; tauto|].
    destruct (String.eqb c "blue") eqn:E2;
      [apply String.eqb_eq in E2; subst; cbn; tauto|].
    destruct (String.eqb c "green") eqn:E3;
      [apply String.eqb_eq in E3; subst; cbn; tauto|].
    destruct (String.eqb c "yellow") eqn:E4;
      [apply String.eqb_eq in E4; subst; cbn; tauto|].
    destruct (String.eqb c "purple") eqn:E5;
      [apply String.eqb_eq in E5; subst; cbn; tauto|].
    destruct (String.eqb c "orange") eqn:E6;
      [apply String.eqb_eq in E6; subst; cbn; tauto|].
    congruence.
Qed.

Lemma deactivate_sameToken (matches bs : list Bubble.t) :
  Forall2 sameToken bs (deactivate matches bs).
Proof.
  unfold deactivate. apply Forall2_map_self. intros b _.
  destruct (hasId matches (Bubble.id b)); unfold sameToken; cbn;
    repeat apply conj; trivial; discriminate.
Qed.

Lemma sameToken_refl (bs : list Bubble.t) : Forall2 sameToken bs bs.
Proof.
  induction bs as [|b r IH]; constructor; trivial.
  unfold sameToken. repeat apply conj; trivial.
Qed.

(** X4.  A match resolution that returns has only cleared [active] flags
    and raised the score: the grid afterwards has the same tokens in the
    same order, with the same ids, cells, pixels and colours, none of them
    reactivated, and every other part of the state is as before. *)
Theorem checkMatches_only_clears_flags (difficulty : Difficulty) (accuracyBonus : R)
    (start : Bubble.t) (g g' : Game) :
  checkMatches difficulty accuracyBonus start g = Returns g' ->
  Forall2 sameToken (bubbles g) (bubbles g') /\
  List.length (bubbles g') = List.length (bubbles g) /\
  setScore (setBubbles g' (bubbles g)) (score g) = g.
Proof.
  unfold checkMatches.
  destruct (findMatches (bubbles g) start) as [[matches visited]|]; [|discriminate].
  destruct (3 <=? Z.of_nat (List.length matches)).
  - destruct (COLOR_CONFIG (Bubble.color start)); [|discriminate].
    intros H. injection H as <-. cbn [bubbles setScore setBubbles score].
    split; [apply deactivate_sameToken|]. split.
    + unfold deactivate. apply length_map.
    + destruct g; reflexivity.
  - intros H. injection H as <-.
    split; [apply sameToken_refl|]. split; [reflexivity|]. destruct g; reflexivity.
Qed.

(** The theorem above at the five-cluster of [twoClusters]. *)
Lemma checkMatches_flags_witness :
  exists g' : Game,
    checkMatches medium 1 originFive twoClusters = Returns g' /\
    Forall2 sameToken (bubbles twoClusters) (bubbles g') /\
    List.length (bubbles g') = List.length (bubbles twoClusters) /\
    setScore (setBubbles g' (bubbles twoClusters)) (score twoClusters) = twoClusters.
Proof.
  destruct (findMatches_total (bubbles twoClusters) originFive) as [[matches visited] Hf].
  eexists. split.
  - apply (checkMatches_returns _ _ _ _ (mkColorEntry "#ef5350" 100 "Red") matches visited);
      [exact Hf | reflexivity].
  - apply (checkMatches_only_clears_flags medium 1 originFive twoClusters).
    apply (checkMatches_returns _ _ _ _ (mkColorEntry "#ef5350" 100 "Red") matches visited);
      [exact Hf | reflexivity].
Defined.

(** A ball exactly at the centre of a free cell is snapped to that cell,
    whatever else is on the board. *)
Lemma nearestFreeCell_on_free_cell (bs : list Bubble.t) (r c : Z) (W : R) :
  validCell r c -> cellOccupied bs r c = false ->
  nearestFreeCell bs (getBubblePos r c W) W = bestAt (getBubblePos r c W) W (r, c).
Proof.
  intros Hv Hfree.
  destruct (nearestFreeCell_first_minimum bs (getBubblePos r c W) W r c Hv Hfree)
    as [l1 [k [l2 [El [Hk [Hr [H1 H2]]]]]]].
  assert (Hin : In (r, c) (l1 ++ k :: l2)).
  { rewrite <- El. apply gridCells_In. exact Hv. }
  assert (Hkeq : k = (r, c)).
  { destruct (prod_eq_dec_Z k (r, c)) as [E | Hne]; trivial. exfalso.
    pose proof (cellDistance_other r c W k Hne) as Hpos.
    pose proof (cellDistance_own r c W) as Hzero.
    apply in_app_or in Hin. destruct Hin as [Hin | [Hin | Hin]].
    - specialize (H1 (r, c) Hin Hfree). lra.
    - congruence.
    - specialize (H2 (r, c) Hin Hfree). lra. }
  subst k. exact Hr.
Qed.

Lemma resolveCollision_unfold (difficulty : Difficulty) (width : R) (now : Z) (g : Game) :
  resolveCollision difficulty width now g =
  bind (checkMatches difficulty
          (snd (accuracy (activeShotTarget g)
                         (bestX (nearestFreeCell (bubbles g) (ballPos g) width))
                         (bestY (nearestFreeCell (bubbles g) (ballPos g) width))))
          (landedToken width now g)
          (setBubbles (setFlight g false (ballPos g) (ballVel g))
                      (bubbles g ++ [landedToken width now g])))
       (fun g2 =>
          Returns (setCaptureRequest
                     (setFlight (updateAvailableColors g2) false
                                (anchorPos (updateAvailableColors g2))
                                (ballVel (updateAvailableColors g2))) true)).
Proof. reflexivity. Qed.

(** X5.  The resolution of a collision.  The match loop always ends.  If
    the landed token completes fewer than three tokens, or the selected
    colour is a colour of the palette, the resolution returns: the grid is
    the old grid followed by the landed token, with flags cleared at most,
    the ball is back on the anchor and at rest, a capture is requested and
    the shot counter is untouched. *)
Theorem resolveCollision_outcome (difficulty : Difficulty) (width : R) (now : Z)
    (g : Game) :
  exists (matches : list Bubble.t) (visited : list string),
    findMatches (bubbles g ++ [landedToken width now g]) (landedToken width now g)
    = Some (matches, visited) /\
    (((List.length matches < 3)%nat \/ In (selectedColor g) COLOR_KEYS) ->
     exists g' : Game,
       resolveCollision difficulty width now g = Returns g' /\
       Forall2 sameToken (bubbles g ++ [landedToken width now g]) (bubbles g') /\
       isFlying g' = false /\ ballPos g' = anchorPos g /\
       captureRequest g' = true /\ shotsTaken g' = shotsTaken g).
Proof.
  set (newB := landedToken width now g).
  set (g1 := setBubbles (setFlight g false (ballPos g) (ballVel g))
                        (bubbles g ++ [newB])).
  destruct (findMatches_total (bubbles g ++ [newB]) newB) as [[matches visited] Hf].
  exists matches, visited. split; [exact Hf|].
  rewrite resolveCollision_unfold. fold newB. fold g1.
  set (bonus := snd (accuracy _ _ _)).
  assert (Hck : checkMatches difficulty bonus newB g1 =
                if 3 <=? Z.of_nat (List.length matches) then
                  match COLOR_CONFIG (selectedColor g) with
                  | None => Throws
                  | Some cfg =>
                    Returns (setScore (setBubbles g1 (deactivate matches (bubbles g1)))
                               (score g1 + pointsFor difficulty bonus
                                             (Z.of_nat (List.length matches))
                                             (points cfg)))
                  end
                else Returns g1).
  { unfold checkMatches. change (bubbles g1) with (bubbles g ++ [newB]).
    rewrite Hf. reflexivity. }
  intros Hok.
  assert (Hret : exists g2, checkMatches difficulty bonus newB g1 = Returns g2).
  { rewrite Hck. destruct (3 <=? Z.of_nat (List.length matches)) eqn:E;
      [|eexists; reflexivity].
    apply Z.leb_le in E. destruct Hok as [Hlt | Hpal]; [lia|].
    apply COLOR_KEYS_in_table in Hpal.
    destruct (COLOR_CONFIG (selectedColor g)); [eexists; reflexivity | congruence]. }
  destruct Hret as [g2 Hg2]. rewrite Hg2. cbn [bind].
  eexists. split; [reflexivity|].
  cbn [bubbles isFlying ballPos captureRequest shotsTaken setCaptureRequest setFlight].
  rewrite bubbles_updateAvailableColors.
  destruct (updateAvailableColors_untouched g2)
    as [_ [Hshots [_ [_ [_ [_ [_ [_ [_ [_ [Hanchor _]]]]]]]]]]].
  rewrite Hanchor, Hshots.
  unfold checkMatches in Hg2. change (bubbles g1) with (bubbles g ++ [newB]) in Hg2.
  rewrite Hf in Hg2.
  destruct (3 <=? Z.of_nat (List.length matches)).
  - destruct (COLOR_CONFIG (Bubble.color newB)); [|discriminate].
    injection Hg2 as <-. cbn. repeat apply conj; trivial.
    apply deactivate_sameToken.
  - injection Hg2 as <-. cbn. repeat apply conj; trivial.
    apply sameToken_refl.
Qed.

(** ** Releasing a shot *)

Lemma velMult_range (stretchDist : R) :
  (0 <= stretchDist)%R ->
  let m := (MIN_FORCE_MULT + (MAX_FORCE_MULT - MIN_FORCE_MULT)
                             * (Rmin (stretchDist / MAX_DRAG_DIST) 1) ^ 2)%R in
  (MIN_FORCE_MULT <= m <= MAX_FORCE_MULT)%R /\
  (MAX_DRAG_DIST <= stretchDist -> m = MAX_FORCE_MULT)%R.
Proof.
  intros Hs. cbv zeta. unfold MIN_FORCE_MULT, MAX_FORCE_MULT, MAX_DRAG_DIST.
  assert (Hq : (0 <= stretchDist / 180)%R) by (apply Rmult_le_pos; lra).
  unfold Rmin. destruct (Rle_dec (stretchDist / 180) 1) as [Hle | Hgt].
  - split; [nra|]. intros H180.
    assert (stretchDist / 180 = 1)%R by lra. nra.
  - split; [lra|]. intros _. lra.
Qed.

Lemma speed_of_scaled (dx dy m : R) :
  (0 <= m)%R ->
  sqrt ((dx * m) ^ 2 + (dy * m) ^ 2)%R = (sqrt (dx * dx + dy * dy) * m)%R.
Proof.
  intros Hm.
  replace ((dx * m) ^ 2 + (dy * m) ^ 2)%R with ((dx * dx + dy * dy) * (m * m))%R by ring.
  rewrite sqrt_mult_alt; [|nra]. rewrite sqrt_square; trivial.
Qed.

Lemma flightSteps_positive (vel : Point) :
  (0 < sqrt (px vel ^ 2 + py vel ^ 2))%R -> 1 <= flightSteps vel.
Proof.
  intros Hs. unfold flightSteps, BUBBLE_RADIUS.
  set (q := (sqrt (px vel ^ 2 + py vel ^ 2) / (22 * (8 / 10)))%R).
  assert (Hq : (0 < q)%R) by (unfold q; apply Rdiv_lt_0_compat; lra).
  pose proof (Zceil_bound q) as [_ Hub].
  assert (H0 : (0 < IZR (Zceil q))%R) by lra.
  apply lt_IZR in H0. lia.
Qed.

(** X6.  Releasing the held ball.  When the input is locked or the ball is
    pulled no farther than 30 pixels, nothing is launched: the ball goes
    back to the anchor and nothing else changes.  Otherwise the ball flies
    along the line from the ball to the anchor with a speed of the stretch
    times a factor between 0.15 and 0.45, which is 0.45 from a stretch of
    180 on; the shot is counted, the aim target is stored with the shot, and
    the first frame of flight has at least one step. *)
Theorem releaseShot_launch (difficulty : Difficulty) (width : R) (now : Z)
    (rnd : Z -> nat) (isLocked : bool) (g : Game) :
  let dx := (px (anchorPos g) - px (ballPos g))%R in
  let dy := (py (anchorPos g) - py (ballPos g))%R in
  let stretchDist := sqrt (dx * dx + dy * dy)%R in
  let g' := releaseShot difficulty width now rnd isLocked g in
  (isLocked = true \/ (stretchDist <= 30)%R ->
   g' = setFlight g (isFlying g) (anchorPos g) (ballVel g)) /\
  (isLocked = false -> (30 < stretchDist)%R ->
   exists m : R,
     (MIN_FORCE_MULT <= m <= MAX_FORCE_MULT)%R /\
     (MAX_DRAG_DIST <= stretchDist -> m = MAX_FORCE_MULT)%R /\
     ballVel g' = mkPoint (dx * m) (dy * m) /\
     sqrt (px (ballVel g') ^ 2 + py (ballVel g') ^ 2)%R = (stretchDist * m)%R /\
     isFlying g' = true /\ ballPos g' = ballPos g /\
     shotsTaken g' = shotsTaken g + 1 /\
     activeShotTarget g' = aimTarget g /\
     1 <= flightSteps (ballVel g')).
Proof.
  cbv zeta. split.
  - intros H. unfold releaseShot. destruct isLocked; cbn [negb]; [reflexivity|].
    destruct H as [H | H]; [discriminate|].
    destruct (Rlt_dec 30 _) as [Hlt | _]; [lra | reflexivity].
  - intros -> Hs. unfold releaseShot. cbn [negb].
    destruct (Rlt_dec 30 _) as [_ | Hn]; [|contradiction].
    set (dx := (px (anchorPos g) - px (ballPos g))%R) in *.
    set (dy := (py (anchorPos g) - py (ballPos g))%R) in *.
    set (stretchDist := sqrt (dx * dx + dy * dy)) in *.
    destruct (velMult_range stretchDist) as [Hrange Hfull]; [lra|].
    set (m := (MIN_FORCE_MULT + (MAX_FORCE_MULT - MIN_FORCE_MULT)
                                * Rmin (stretchDist / MAX_DRAG_DIST) 1 ^ 2)%R) in *.
    exists m. split; [exact Hrange|]. split; [exact Hfull|].
    assert (Hm : (0 <= m)%R) by (unfold MIN_FORCE_MULT in Hrange; lra).
    assert (Hvel : forall s : Game,
               ballVel s = mkPoint (dx * m) (dy * m) ->
               sqrt (px (ballVel s) ^ 2 + py (ballVel s) ^ 2)%R = (stretchDist * m)%R /\
               1 <= flightSteps (ballVel s)).
    { intros s Hv. rewrite Hv. cbn [px py].
      rewrite (speed_of_scaled dx dy m Hm). fold stretchDist. split; [reflexivity|].
      apply flightSteps_positive. cbn [px py].
      rewrite (speed_of_scaled dx dy m Hm). fold stretchDist.
      unfold MIN_FORCE_MULT in Hrange. nra. }
    cbn [shotsTaken setShotsTaken setActiveShotTarget setFlight].
    destruct (Z.rem (shotsTaken g + 1) (newRowFrequency (DIFFICULTY_SETTINGS difficulty)) =? 0).
    + match goal with
      | |- context [addNewRow width now rnd ?s] =>
        pose proof (addNewRow_untouched width now rnd s) as H; set (s0 := s) in *
      end.
      unfold untouchedByGrowth in H.
      destruct H as [_ [H1 [_ [_ [H2 [_ [_ [H3 [H4 [H5 _]]]]]]]]]].
      assert (Hv : ballVel (addNewRow width now rnd s0) = mkPoint (dx * m) (dy * m))
        by (rewrite H5; reflexivity).
      destruct (Hvel _ Hv) as [Hsp Hst].
      rewrite H1, H2, H3, H4. repeat apply conj; trivial.
    + match goal with
      | |- context [ballVel ?s] => set (s0 := s) in *
      end.
      assert (Hv : ballVel s0 = mkPoint (dx * m) (dy * m)) by reflexivity.
      destruct (Hvel _ Hv) as [Hsp Hst].
      repeat apply conj; trivial.
Qed.

(** ** The flight of the ball *)

Lemma flightStep_vel (bs : list Bubble.t) (width : R) (steps : Z) (pos vel : Point) :
  let f := flightStep bs width steps pos vel in
  py (flightVel f) = py vel /\
  (px (flightVel f) = px vel \/ px (flightVel f) = (- px vel)%R).
Proof.
  cbv zeta. unfold flightStep. cbn [px py].
  destruct (Rlt_dec (px pos + px vel / IZR steps) BUBBLE_RADIUS);
    destruct (Rlt_dec (width - BUBBLE_RADIUS) (px pos + px vel / IZR steps));
    destruct (Rlt_dec (py pos + py vel / IZR steps) BUBBLE_RADIUS);
    cbn [orb flightVel px py]; split; trivial;
    try (left; reflexivity); right; ring.
Qed.

Lemma flightStep_pos (bs : list Bubble.t) (width : R) (steps : Z) (pos vel : Point) :
  flightPos (flightStep bs width steps pos vel)
  = mkPoint (px pos + px vel / IZR steps) (py pos + py vel / IZR steps).
Proof.
  unfold flightStep. cbn [px py].
  destruct (Rlt_dec (py pos + py vel / IZR steps) BUBBLE_RADIUS); reflexivity.
Qed.

Lemma flightStep_collision (bs : list Bubble.t) (width : R) (steps : Z) (pos vel : Point) :
  let f := flightStep bs width steps pos vel in
  collision f = true <->
  (py (flightPos f) < BUBBLE_RADIUS)%R \/ hitsToken bs (flightPos f) = true.
Proof.
  cbv zeta. unfold flightStep. cbn [px py].
  destruct (Rlt_dec (py pos + py vel / IZR steps) BUBBLE_RADIUS) as [Hlt | Hge];
    cbn [collision flightPos py].
  - split; [intros _; left; exact Hlt | reflexivity].
  - split; [intros H; right; exact H | intros [H | H]; [contradiction | exact H]].
Qed.

Lemma flightLoop_inv (n : nat) (bs : list Bubble.t) (width : R) (steps : Z)
    (pos vel : Point) :
  py (flightVel (flightLoop n bs width steps pos vel)) = py vel /\
  (px (flightVel (flightLoop n bs width steps pos vel)) = px vel \/
   px (flightVel (flightLoop n bs width steps pos vel)) = (- px vel)%R) /\
  (collision (flightLoop n bs width steps pos vel) = false ->
   py (flightPos (flightLoop n bs width steps pos vel))
   = (py pos + INR n * (py vel / IZR steps))%R /\
   (n <> O ->
    (BUBBLE_RADIUS <= py (flightPos (flightLoop n bs width steps pos vel)))%R /\
    hitsToken bs (flightPos (flightLoop n bs width steps pos vel)) = false)) /\
  (collision (flightLoop n bs width steps pos vel) = true ->
   (py (flightPos (flightLoop n bs width steps pos vel)) < BUBBLE_RADIUS)%R \/
   hitsToken bs (flightPos (flightLoop n bs width steps pos vel)) = true).
Proof.
  revert pos vel. induction n as [|k IH]; intros pos vel.
  - cbn [flightLoop flightVel flightPos collision INR].
    split; [reflexivity|]. split; [left; reflexivity|]. split.
    + intros _. split; [ring | intros H; contradiction H; reflexivity].
    + discriminate.
  - cbn [flightLoop].
    pose proof (flightStep_vel bs width steps pos vel) as [Hvy Hvx].
    pose proof (flightStep_pos bs width steps pos vel) as Hpos.
    pose proof (flightStep_collision bs width steps pos vel) as Hcol.
    cbv zeta in Hvy, Hvx, Hcol.
    destruct (collision (flightStep bs width steps pos vel)) eqn:Ec.
    + split; [exact Hvy|]. split; [exact Hvx|]. split.
      * rewrite Ec. discriminate.
      * intros _. apply Hcol. reflexivity.
    + specialize (IH (flightPos (flightStep bs width steps pos vel))
                    (flightVel (flightStep bs width steps pos vel))).
      destruct IH as [IHy [IHx [IHno IHyes]]].
      split; [rewrite IHy; exact Hvy|]. split.
      { destruct IHx as [E | E]; rewrite E; destruct Hvx as [E' | E']; rewrite E';
          [left; reflexivity | right; reflexivity | right; reflexivity | left; ring]. }
      split; [|exact IHyes].
      intros Hc. destruct (IHno Hc) as [Hpy Hclear]. split.
      * rewrite Hpy, Hvy, Hpos. cbn [py]. rewrite S_INR. ring.
      * intros _. destruct k as [|k'].
        -- cbn [flightLoop flightPos].
           assert (Hn : ~ ((py (flightPos (flightStep bs width steps pos vel)) < BUBBLE_RADIUS)%R
                           \/ hitsToken bs (flightPos (flightStep bs width steps pos vel)) = true)).
           { intros H. apply Hcol in H. discriminate. }
           split.
           ++ destruct (Rle_dec BUBBLE_RADIUS
                          (py (flightPos (flightStep bs width steps pos vel)))); trivial.
              exfalso. apply Hn. left. lra.
           ++ destruct (hitsToken bs (flightPos (flightStep bs width steps pos vel)));
                trivial. exfalso. apply Hn. right. reflexivity.
        -- apply Hclear. discriminate.
Qed.


Lemma speed_conserved (vel vel' : Point) :
  py vel' = py vel -> px vel' = px vel \/ px vel' = (- px vel)%R ->
  (px vel' ^ 2 + py vel' ^ 2 = px vel ^ 2 + py vel ^ 2)%R.
Proof. intros Hy [Hx | Hx]; rewrite Hy, Hx; ring. Qed.

(** X7.  The loop of a frame of flight, after any number [n] of
    iterations.  The vertical speed never changes and the horizontal speed
    changes at most its sign, so the speed is conserved through every
    bounce.  When the loop ends without a collision, the ball has moved [n]
    steps of [vy / steps] vertically, is not above the top boundary and is
    not within 1.8 radii of any active token (for [n > 0]).  When it ends
    with a collision, the ball is above the top boundary or within 1.8
    radii of an active token. *)
Theorem flightLoop_invariants (n : nat) (bs : list Bubble.t) (width : R) (steps : Z)
    (pos vel : Point) :
  let f := flightLoop n bs width steps pos vel in
  py (flightVel f) = py vel /\
  (px (flightVel f) = px vel \/ px (flightVel f) = (- px vel)%R) /\
  (px (flightVel f) ^ 2 + py (flightVel f) ^ 2 = px vel ^ 2 + py vel ^ 2)%R /\
  (collision f = false ->
   py (flightPos f) = (py pos + INR n * (py vel / IZR steps))%R /\
   (n <> O -> (BUBBLE_RADIUS <= py (flightPos f))%R /\ hitsToken bs (flightPos f) = false)) /\
  (collision f = true ->
   (py (flightPos f) < BUBBLE_RADIUS)%R \/ hitsToken bs (flightPos f) = true).
Proof.
  cbv zeta.
  destruct (flightLoop_inv n bs width steps pos vel) as [Hy [Hx [Hno Hyes]]].
  split; [exact Hy|]. split; [exact Hx|].
  split; [apply speed_conserved; assumption|]. split; assumption.
Qed.

Lemma flightSteps_bounds (vel : Point) :
  0 <= flightSteps vel /\
  (sqrt (px vel ^ 2 + py vel ^ 2) <= IZR (flightSteps vel) * (BUBBLE_RADIUS * (8 / 10)))%R /\
  (flightSteps vel = 0 -> px vel = 0%R /\ py vel = 0%R).
Proof.
  unfold flightSteps, BUBBLE_RADIUS.
  set (s := sqrt (px vel ^ 2 + py vel ^ 2)).
  assert (Hs : (0 <= s)%R) by apply sqrt_pos.
  set (q := (s / (22 * (8 / 10)))%R).
  assert (Hq : (0 <= q)%R) by (unfold q; apply Rmult_le_pos; [lra|];
                               apply Rlt_le, Rinv_0_lt_compat; lra).
  pose proof (Zceil_bound q) as [Hlb Hub].
  assert (Hsq : (s = q * (22 * (8 / 10)))%R) by (unfold q; field).
  split; [|split].
  - assert (H0 : (-1 < IZR (Zceil q))%R) by lra.
    apply lt_IZR in H0. lia.
  - rewrite Hsq. apply Rmult_le_compat_r; lra.
  - intros H0. rewrite H0 in Hub.
    assert (Hz : s = 0%R) by nra.
    unfold s in Hz. apply sqrt_eq_0 in Hz.
    + pose proof (pow2_ge_0 (px vel)). pose proof (pow2_ge_0 (py vel)).
      split; nra.
    + pose proof (pow2_ge_0 (px vel)). pose proof (pow2_ge_0 (py vel)). lra.
Qed.

(** X8.  The cut of a frame into steps.  The number of steps is never
    negative and is zero only for a ball at rest; with that number of
    steps, a step of any velocity of the same speed moves the ball by at
    most 0.8 radii, less than the 1.8 radii at which a token is hit. *)
Theorem flightStep_short (bs : list Bubble.t) (width : R) (pos vel vel' : Point) :
  let steps := flightSteps vel in
  0 <= steps /\
  (steps = 0 <-> px vel = 0%R /\ py vel = 0%R) /\
  ((px vel' ^ 2 + py vel' ^ 2 = px vel ^ 2 + py vel ^ 2)%R ->
   0 < steps ->
   (distance (px pos) (py pos)
             (px (flightPos (flightStep bs width steps pos vel')))
             (py (flightPos (flightStep bs width steps pos vel')))
    <= BUBBLE_RADIUS * (8 / 10))%R).
Proof.
  cbv zeta. destruct (flightSteps_bounds vel) as [H0 [Hle Hz]].
  split; [exact H0|]. split.
  - split; [exact Hz|]. intros [Hx Hy]. unfold flightSteps. rewrite Hx, Hy.
    replace (sqrt (0 ^ 2 + 0 ^ 2)) with 0%R
      by (replace (0 ^ 2 + 0 ^ 2)%R with 0%R by ring; symmetry; apply sqrt_0).
    unfold Rdiv. rewrite Rmult_0_l. apply Zceil_eq. lra.
  - intros Hsp Hpos. rewrite flightStep_pos. cbn [px py]. unfold distance.
    set (n := IZR (flightSteps vel)) in *.
    assert (Hn : (0 < n)%R) by (unfold n; apply IZR_lt; exact Hpos).
    replace ((px pos - (px pos + px vel' / n)) ^ 2
             + (py pos - (py pos + py vel' / n)) ^ 2)%R
      with ((px vel ^ 2 + py vel ^ 2) * (/ n * / n))%R
      by (rewrite <- Hsp; field; lra).
    assert (Hin : (0 < / n)%R) by (apply Rinv_0_lt_compat; exact Hn).
    rewrite sqrt_mult_alt.
    + rewrite sqrt_square by lra.
      apply Rmult_le_reg_r with (r := n); [exact Hn|].
      rewrite Rmult_assoc, Rinv_l by lra. rewrite Rmult_1_r.
      rewrite (Rmult_comm (BUBBLE_RADIUS * (8 / 10)) n). exact Hle.
    + pose proof (pow2_ge_0 (px vel)). pose proof (pow2_ge_0 (py vel)). lra.
Qed.

(** X9.  A frame of the flight.  A ball that is not flying is left alone.
    After more than five seconds of flight the ball is put back on the
    anchor and nothing else changes.  Otherwise the frame either ends
    without a collision, and then the grid, the score and the shot counter
    are as before, the ball is still flying with the same speed, and it has
    moved by exactly its vertical speed; or the frame is the resolution of
    a collision with the ball above the top boundary or within 1.8 radii of
    an active token. *)
Theorem flightFrame_cases (difficulty : Difficulty) (width : R) (now : Z)
    (elapsed : R) (g : Game) :
  (isFlying g = false -> flightFrame difficulty width now elapsed g = Returns g) /\
  (isFlying g = true -> (5000 < elapsed)%R ->
   flightFrame difficulty width now elapsed g
   = Returns (setFlight g false (anchorPos g) (ballVel g))) /\
  (isFlying g = true -> (elapsed <= 5000)%R ->
   (exists g' : Game,
       flightFrame difficulty width now elapsed g = Returns g' /\
       bubbles g' = bubbles g /\ score g' = score g /\
       shotsTaken g' = shotsTaken g /\ selectedColor g' = selectedColor g /\
       isFlying g' = true /\
       py (ballPos g') = (py (ballPos g) + py (ballVel g))%R /\
       py (ballVel g') = py (ballVel g) /\
       (px (ballVel g') ^ 2 + py (ballVel g') ^ 2
        = px (ballVel g) ^ 2 + py (ballVel g) ^ 2)%R /\
       (0 < flightSteps (ballVel g) ->
        (BUBBLE_RADIUS <= py (ballPos g'))%R /\ hitsToken (bubbles g) (ballPos g') = false))
   \/
   (exists contact vel : Point,
       ((py contact < BUBBLE_RADIUS)%R \/ hitsToken (bubbles g) contact = true) /\
       py vel = py (ballVel g) /\
       flightFrame difficulty width now elapsed g
       = resolveCollision difficulty width now (setFlight g true contact vel))).
Proof.
  split; [|split].
  - intros Hf. unfold flightFrame. rewrite Hf. reflexivity.
  - intros Hf He. unfold flightFrame. rewrite Hf.
    destruct (Rlt_dec 5000 elapsed); [reflexivity | contradiction].
  - intros Hf He. unfold flightFrame. rewrite Hf.
    destruct (Rlt_dec 5000 elapsed) as [Hlt | _]; [lra|].
    cbv zeta.
    set (steps := flightSteps (ballVel g)).
    pose proof (flightLoop_inv (Z.to_nat steps) (bubbles g) width steps
                  (ballPos g) (ballVel g)) as Hinv.
    set (f := flightLoop (Z.to_nat steps) (bubbles g) width steps (ballPos g) (ballVel g)) in *.
    destruct Hinv as [Hvy [Hvx [Hno Hyes]]].
    pose proof (speed_conserved (ballVel g) (flightVel f) Hvy Hvx) as Hsp.
    destruct (flightSteps_bounds (ballVel g)) as [H0 [_ Hz]]. fold steps in H0, Hz.
    destruct (collision f) eqn:Ec.
    + right. exists (flightPos f), (flightVel f).
      split; [apply Hyes; reflexivity|]. split; [exact Hvy | reflexivity].
    + left. exists (setFlight g true (flightPos f) (flightVel f)).
      destruct (Hno eq_refl) as [Hpy Hclear].
      split; [reflexivity|].
      cbn [setFlight bubbles score shotsTaken selectedColor isFlying ballPos ballVel].
      split; [reflexivity|]. split; [reflexivity|]. split; [reflexivity|].
      split; [reflexivity|]. split; [reflexivity|]. split.
      { rewrite Hpy. rewrite INR_IZR_INZ, Z2Nat.id by exact H0.
        destruct (Z.eq_dec steps 0) as [E0 | Hne].
        - destruct (Hz E0) as [_ Hy0]. rewrite Hy0. unfold Rdiv. ring.
        - assert (IZR steps <> 0%R) by (apply not_0_IZR; exact Hne). field. assumption. }
      split; [exact Hvy|]. split; [exact Hsp|].
      intros Hpos. apply Hclear. intros E.
      assert (steps = 0) by lia. lia.
Qed.

(** ** Skipping several turns *)

Lemma div_succ (s f : Z) :
  0 <= s -> 0 < f ->
  (s + 1) / f = s / f + (if Z.rem (s + 1) f =? 0 then 1 else 0).
Proof.
  intros Hs Hf. rewrite Z.rem_mod_nonneg by lia.
  pose proof (Z.div_mod s f) as E. pose proof (Z.mod_pos_bound s f Hf) as B.
  destruct (Z.eq_dec (s mod f + 1) f) as [Hfull | Hpart].
  - assert (Hm : (s + 1) mod f = 0).
    { symmetry. apply Z.mod_unique with (q := s / f + 1); [left; lia | nia]. }
    rewrite Hm. cbn. symmetry. apply Z.div_unique with (r := 0); [left; lia | nia].
  - assert (Hm : (s + 1) mod f = s mod f + 1).
    { symmetry. apply Z.mod_unique with (q := s / f); [left; lia | nia]. }
    rewrite Hm. destruct (s mod f + 1 =? 0) eqn:E0; [lia|].
    rewrite Z.add_0_r. symmetry.
    apply Z.div_unique with (r := s mod f + 1); [left; lia | nia].
Qed.

Lemma newRowFrequency_pos (difficulty : Difficulty) :
  0 < newRowFrequency (DIFFICULTY_SETTINGS difficulty).
Proof. destruct difficulty; cbn; lia. Qed.

(** X10.  Skipped turns add up.  From a counter [s >= 0], skipping as many
    turns as there are inputs brings the counter to [s + n], and the grid
    gains one row of twelve tokens for every multiple of the row frequency
    [f] of the level among [s + 1 .. s + n], that is
    [(s + n) / f - s / f] rows; no token is ever dropped, and the ball is
    never launched. *)
Theorem skipTurns_rows (difficulty : Difficulty) (width : R)
    (inputs : list (Z * (Z -> nat))) (g : Game) :
  0 <= shotsTaken g ->
  let n := Z.of_nat (List.length inputs) in
  let f := newRowFrequency (DIFFICULTY_SETTINGS difficulty) in
  let g' := skipTurns difficulty width inputs g in
  shotsTaken g' = shotsTaken g + n /\
  Z.of_nat (List.length (bubbles g'))
  = Z.of_nat (List.length (bubbles g))
    + 12 * ((shotsTaken g + n) / f - shotsTaken g / f) /\
  isFlying g' = isFlying g /\ score g' = score g.
Proof.
  cbv zeta. revert g. induction inputs as [|[now rnd] rest IH]; intros g Hs.
  - cbn [skipTurns List.length Z.of_nat]. rewrite Z.add_0_r.
    repeat apply conj; trivial. lia.
  - cbn [skipTurns].
    pose proof (skipTurn_counter difficulty (Some width) now rnd g) as Hc.
    pose proof (skipTurn_bubbles difficulty width now rnd g) as Hb.
    destruct (skipTurn_no_flight difficulty (Some width) now rnd g) as [Hf _].
    assert (Hsc : score (skipTurn difficulty (Some width) now rnd g) = score g).
    { unfold skipTurn.
      cbn [score shotsTaken setShotsTaken setShowSkipConfirm setCaptureRequest].
      destruct (Z.rem _ _ =? 0); [|reflexivity].
      match goal with
      | |- score (addNewRow _ _ _ ?s0) = _ =>
        destruct (addNewRow_untouched width now rnd s0) as [H _]; rewrite H
      end. reflexivity. }
    specialize (IH (skipTurn difficulty (Some width) now rnd g)).
    destruct IH as [IH1 [IH2 [IH3 IH4]]]; [lia|].
    rewrite IH1, IH2, IH3, IH4, Hc, Hf, Hsc, Hb.
    pose proof (div_succ (shotsTaken g) _ Hs (newRowFrequency_pos difficulty)) as Hd.
    cbn [List.length]. rewrite Nat2Z.inj_succ.
    replace (shotsTaken g + 1 + Z.of_nat (List.length rest))
      with (shotsTaken g + Z.succ (Z.of_nat (List.length rest))) by lia.
    split; [reflexivity|]. split; [|split; reflexivity].
    destruct (Z.rem (shotsTaken g + 1) (newRowFrequency (DIFFICULTY_SETTINGS difficulty)) =? 0).
    + rewrite length_app, length_map.
      destruct (newTopRow_tokens width now rnd) as [Hl _]. rewrite Hl. lia.
    + lia.
Qed.

Lemma skipTurns_rows_witness :
  0 <= shotsTaken emptyGame /\
  Z.of_nat (List.length (bubbles
     (skipTurns hard 1000
        [(1, fun _ => 0%nat); (2, fun _ => 1%nat); (3, fun _ => 2%nat);
         (4, fun _ => 3%nat); (5, fun _ => 4%nat)] emptyGame))) = 12.
Proof.
  split; [cbn; lia|].
  exact (proj1 (proj2 (skipTurns_rows hard 1000
     [(1, fun _ => 0%nat); (2, fun _ => 1%nat); (3, fun _ => 2%nat);
      (4, fun _ => 3%nat); (5, fun _ => 4%nat)] emptyGame ltac:(cbn; lia)))).
Defined.

(** ** The danger level *)

Lemma maxRow_acc (bs : list Bubble.t) (m0 : Z) :
  let m := fold_left (fun max b => if Bubble.active b then Z.max max (Bubble.row b) else max)
                     bs m0 in
  m0 <= m /\
  (forall b, In b bs -> Bubble.active b = true -> Bubble.row b <= m) /\
  (m = m0 \/ exists b, In b bs /\ Bubble.active b = true /\ Bubble.row b = m).
Proof.
  cbv zeta. revert m0. induction bs as [|b bs IH]; intros m0.
  - cbn. split; [lia|]. split; [intros b []|]. left; reflexivity.
  - cbn [fold_left].
    destruct (IH (if Bubble.active b then Z.max m0 (Bubble.row b) else m0))
      as [Hle [Hall Hex]].
    split; [destruct (Bubble.active b); lia|]. split.
    + intros b' [<- | Hin] Ha; [rewrite Ha in Hle |- *; lia | exact (Hall b' Hin Ha)].
    + destruct Hex as [E | [b' [Hin [Ha Hr]]]].
      * destruct (Bubble.active b) eqn:Ea; [|left; exact E].
        destruct (Z.max_spec m0 (Bubble.row b)) as [[_ Hm] | [_ Hm]].
        -- right. exists b. split; [left; reflexivity|]. split; [exact Ea|].
           rewrite E, Hm. reflexivity.
        -- left. rewrite E, Hm. reflexivity.
      * right. exists b'. split; [right; exact Hin|]. split; assumption.
Qed.

(** X11.  The danger row handed to the advisor is the greatest row of an
    active token, or 0 on a board without active tokens (or with rows below
    0 only); so the danger level of the prompt is CRITICAL exactly when
    some active token is in row 6 or below it on the screen. *)
Theorem dangerLevel_critical (bs : list Bubble.t) :
  0 <= maxRow bs /\
  (forall b, In b bs -> Bubble.active b = true -> Bubble.row b <= maxRow bs) /\
  (maxRow bs = 0 \/
   exists b, In b bs /\ Bubble.active b = true /\ Bubble.row b = maxRow bs) /\
  (dangerLevel (maxRow bs) = "CRITICAL"%string <->
   exists b, In b bs /\ Bubble.active b = true /\ 6 <= Bubble.row b) /\
  (dangerLevel (maxRow bs) = "Stable"%string <->
   forall b, In b bs -> Bubble.active b = true -> Bubble.row b < 6).
Proof.
  destruct (maxRow_acc bs 0) as [H0 [Hall Hex]]. cbv zeta in H0, Hall, Hex.
  fold (maxRow bs) in H0, Hall, Hex.
  split; [exact H0|]. split; [exact Hall|]. split; [exact Hex|].
  unfold dangerLevel. destruct (6 <=? maxRow bs) eqn:E6.
  - apply Z.leb_le in E6. split.
    + split; [intros _ | reflexivity].
      destruct Hex as [E | [b [Hin [Ha Hr]]]]; [lia|].
      exists b. split; [exact Hin|]. split; [exact Ha | lia].
    + split; [discriminate|]. intros Hlt. exfalso.
      destruct Hex as [E | [b [Hin [Ha Hr]]]]; [lia|].
      specialize (Hlt b Hin Ha). lia.
  - apply Z.leb_gt in E6. split.
    + split; [discriminate|]. intros [b [Hin [Ha Hr]]].
      specialize (Hall b Hin Ha). lia.
    + split; [|reflexivity]. intros _ b Hin Ha. specialize (Hall b Hin Ha). lia.
Qed.

(** ** The animated score *)

Lemma animateScore_step (score displayScore : Z) :
  displayScore < score ->
  displayScore < animateScore score displayScore <= score /\
  10 * (score - animateScore score displayScore) <= 9 * (score - displayScore).
Proof.
  intros Hlt. unfold animateScore.
  destruct (displayScore <? score) eqn:E; [|apply Z.ltb_ge in E; lia].
  cbv zeta.
  pose proof (Z.div_mod (- (score - displayScore)) 10 ltac:(lia)) as Hd.
  pose proof (Z.mod_pos_bound (- (score - displayScore)) 10 ltac:(lia)) as Hm.
  lia.
Qed.

Lemma animateScore_reaches (score : Z) (n : nat) (displayScore : Z) :
  displayScore <= score ->
  score - displayScore <= Z.of_nat n ->
  Nat.iter n (animateScore score) displayScore = score.
Proof.
  revert displayScore. induction n as [|k IH]; intros d Hle Hgap.
  - cbn. lia.
  - rewrite Nat.iter_succ_r.
    destruct (Z.eq_dec d score) as [-> | Hne].
    + replace (animateScore score score) with score
        by (unfold animateScore; rewrite Z.ltb_irrefl; reflexivity).
      apply IH; lia.
    + destruct (animateScore_step score d ltac:(lia)) as [Hstep _].
      apply IH; lia.
Qed.

(** X12.  The displayed score runs after the score.  It never moves when
    it is at or above the score; below it, every tick moves it up, never
    past the score, and closes at least a tenth of the gap; after as many
    ticks as the gap counts points (and any more) it shows the score. *)
Theorem animateScore_converges (score displayScore : Z) :
  (score <= displayScore -> animateScore score displayScore = displayScore) /\
  (displayScore < score ->
   displayScore < animateScore score displayScore <= score /\
   10 * (score - animateScore score displayScore) <= 9 * (score - displayScore)) /\
  (displayScore <= score ->
   forall n : nat, score - displayScore <= Z.of_nat n ->
     Nat.iter n (animateScore score) displayScore = score).
Proof.
  split; [|split].
  - intros Hge. unfold animateScore.
    destruct (displayScore <? score) eqn:E; [apply Z.ltb_lt in E; lia | reflexivity].
  - apply animateScore_step.
  - intros Hle n Hn. apply animateScore_reaches; assumption.
Qed.

(** ** The path to a target *)

Lemma sampleIndices_In (steps i : Z) : In i (sampleIndices steps) <-> 1 <= i < steps - 2.
Proof.
  unfold sampleIndices. rewrite in_map_iff. split.
  - intros [k [<- Hk]]. apply range_In in Hk. lia.
  - intros H. exists (i - 1). split; [lia | apply range_In; lia].
Qed.

Lemma blockedAt_false (bs : list Bubble.t) (target : Bubble.t) (cx cy : R) :
  blockedAt bs target cx cy = false <->
  forall b, In b bs -> Bubble.active b = true -> Bubble.id b <> Bubble.id target ->
    ((BUBBLE_RADIUS * (18 / 10)) ^ 2 <= (cx - Bubble.x b) ^ 2 + (cy - Bubble.y b) ^ 2)%R.
Proof.
  unfold blockedAt. split.
  - intros H b Hin Ha Hid.
    destruct (Rlt_dec ((cx - Bubble.x b) ^ 2 + (cy - Bubble.y b) ^ 2)
                      ((BUBBLE_RADIUS * (18 / 10)) ^ 2)) as [Hlt | Hge] eqn:E; [|lra].
    exfalso. assert (Hex : existsb (fun b0 =>
        negb (negb (Bubble.active b0) || String.eqb (Bubble.id b0) (Bubble.id target))
        && (if Rlt_dec ((cx - Bubble.x b0) ^ 2 + (cy - Bubble.y b0) ^ 2)
                       ((BUBBLE_RADIUS * (18 / 10)) ^ 2) then true else false)) bs = true).
    { apply existsb_exists. exists b. split; [exact Hin|].
      rewrite Ha, E. apply String.eqb_neq in Hid. rewrite Hid. reflexivity. }
    congruence.
  - intros H. apply not_true_is_false. intros Hex.
    apply existsb_exists in Hex. destruct Hex as [b [Hin Hb]].
    apply andb_true_iff in Hb. destruct Hb as [Hskip Hnear].
    apply negb_true_iff, orb_false_iff in Hskip. destruct Hskip as [Ha Hid].
    apply negb_false_iff in Ha. apply String.eqb_neq in Hid.
    specialize (H b Hin Ha Hid).
    destruct (Rlt_dec _ _) as [Hlt | _]; [lra | discriminate].
Qed.

(** X13.  The path test of the advisor's targets.  A target no farther
    than 33 pixels from the anchor is always reported reachable, whatever
    the board.  A clear path stays clear on any board whose active tokens
    (other than the target) are active tokens of the first: inactive tokens
    and the target itself never block, and deactivating tokens cannot
    block a path.  The test samples the points [i / steps] of the segment
    for [1 <= i < steps - 2] only, and the path is clear exactly when every
    active token other than the target keeps 1.8 radii from each of them. *)
Theorem isPathClear_samples (anchor : Point) (bs : list Bubble.t) (target : Bubble.t) :
  let dx := (Bubble.x target - px anchor)%R in
  let dy := (Bubble.y target - py anchor)%R in
  let steps := Zceil (sqrt (dx * dx + dy * dy) / (BUBBLE_RADIUS / 2))%R in
  ((sqrt (dx * dx + dy * dy) <= 33)%R -> isPathClear anchor bs target = true) /\
  (forall bs' : list Bubble.t,
      (forall b, In b bs' -> Bubble.active b = true ->
                 Bubble.id b <> Bubble.id target ->
                 exists b0, In b0 bs /\ Bubble.active b0 = true /\
                            Bubble.id b0 <> Bubble.id target /\
                            Bubble.x b0 = Bubble.x b /\ Bubble.y b0 = Bubble.y b) ->
      isPathClear anchor bs target = true -> isPathClear anchor bs' target = true) /\
  (isPathClear anchor bs target = true <->
   forall i b, 1 <= i < steps - 2 ->
     In b bs -> Bubble.active b = true -> Bubble.id b <> Bubble.id target ->
     ((BUBBLE_RADIUS * (18 / 10)) ^ 2
      <= (px anchor + dx * (IZR i / IZR steps) - Bubble.x b) ^ 2
         + (py anchor + dy * (IZR i / IZR steps) - Bubble.y b) ^ 2)%R).
Proof.
  cbv zeta.
  set (dx := (Bubble.x target - px anchor)%R).
  set (dy := (Bubble.y target - py anchor)%R).
  set (steps := Zceil (sqrt (dx * dx + dy * dy) / (BUBBLE_RADIUS / 2))%R).
  assert (Hchar : forall l : list Bubble.t,
             isPathClear anchor l target = true <->
             forall i b, 1 <= i < steps - 2 ->
               In b l -> Bubble.active b = true -> Bubble.id b <> Bubble.id target ->
               ((BUBBLE_RADIUS * (18 / 10)) ^ 2
                <= (px anchor + dx * (IZR i / IZR steps) - Bubble.x b) ^ 2
                   + (py anchor + dy * (IZR i / IZR steps) - Bubble.y b) ^ 2)%R).
  { intros l. unfold isPathClear. cbv zeta. fold dx dy steps.
    rewrite forallb_forall. split.
    - intros H i b Hi Hin Ha Hid.
      specialize (H i (proj2 (sampleIndices_In steps i) Hi)).
      apply negb_true_iff in H.
      exact (proj1 (blockedAt_false l target _ _) H b Hin Ha Hid).
    - intros H i Hi. apply sampleIndices_In in Hi. apply negb_true_iff.
      apply blockedAt_false. intros b Hin Ha Hid. exact (H i b Hi Hin Ha Hid). }
  split; [|split].
  - intros Hshort. apply Hchar. intros i b Hi. exfalso.
    assert (Hq : (sqrt (dx * dx + dy * dy) / (BUBBLE_RADIUS / 2) <= 3)%R)
      by (unfold BUBBLE_RADIUS; apply Rmult_le_reg_r with (r := (22 / 2)%R); [lra|];
          unfold Rdiv at 1; rewrite Rmult_assoc, Rinv_l by lra; lra).
    pose proof (Zceil_bound (sqrt (dx * dx + dy * dy) / (BUBBLE_RADIUS / 2))) as [Hlb _].
    fold steps in Hlb.
    assert (H4 : (IZR steps < 4)%R) by lra.
    apply lt_IZR in H4. lia.
  - intros bs' Hsub Hclear. apply Hchar. intros i b Hi Hin Ha Hid.
    destruct (Hsub b Hin Ha Hid) as [b0 [Hin0 [Ha0 [Hid0 [Hx Hy]]]]].
    rewrite <- Hx, <- Hy.
    exact (proj1 (Hchar bs) Hclear i b0 Hi Hin0 Ha0 Hid0).
  - apply Hchar.
Qed.

(** ** The clusters offered to the advisor *)

Lemma fold_setAdd_In (ns : list Bubble.t) (v0 : list string) (k : string) :
  In k (fold_left (fun v n => setAdd v (Bubble.id n)) ns v0)
  <-> In k v0 \/ In k (map Bubble.id ns).
Proof.
  revert v0. induction ns as [|n r IH]; intros v0; cbn [fold_left map].
  - cbn. tauto.
  - rewrite IH, setAdd_In. cbn [In]. intuition.
Qed.

Lemma filter_split_le {A : Type} (p q r : A -> bool) (l : list A) :
  (forall x, In x l -> p x = true -> r x = true /\ q x = false) ->
  (forall x, In x l -> q x = true -> r x = true) ->
  (List.length (filter p l) + List.length (filter q l) <= List.length (filter r l))%nat.
Proof.
  induction l as [|a l IH]; intros Hp Hq; [cbn; lia|].
  cbn [filter].
  assert (IH' : (List.length (filter p l) + List.length (filter q l)
                 <= List.length (filter r l))%nat).
  { apply IH; intros x Hx; [apply Hp | apply Hq]; right; exact Hx. }
  specialize (Hp a (or_introl eq_refl)). specialize (Hq a (or_introl eq_refl)).
  destruct (p a) eqn:Ep.
  - destruct (Hp eq_refl) as [Hr Hqa]. rewrite Hr, Hqa. cbn [List.length]. lia.
  - destruct (q a) eqn:Eq.
    + rewrite (Hq eq_refl). cbn [List.length]. lia.
    + destruct (r a); cbn [List.length]; lia.
Qed.

Section QueueLoop.
Variable activeBubbles : list Bubble.t.
Variable color : BubbleColor.

Lemma neighbors_measure (curr : Bubble.t) (visited : list string) :
  let neighbors :=
    filter (fun n => negb (setHas visited (Bubble.id n))
                     && String.eqb (Bubble.color n) color
                     && isNeighbor curr n) activeBubbles in
  let visited' := fold_left (fun v n => setAdd v (Bubble.id n)) neighbors visited in
  (List.length neighbors + List.length (unvisitedOf activeBubbles color visited')
   <= List.length (unvisitedOf activeBubbles color visited))%nat.
Proof.
  cbv zeta. unfold unvisitedOf. apply filter_split_le.
  - intros x Hx Hp. apply andb_true_iff in Hp. destruct Hp as [Hp Hn].
    split; [exact Hp|].
    apply andb_false_iff. left. apply negb_false_iff. apply setHas_In.
    apply fold_setAdd_In. right. apply in_map. apply filter_In.
    split; [exact Hx|]. rewrite Hp, Hn. reflexivity.
  - intros x Hx Hq. apply andb_true_iff in Hq. destruct Hq as [Hu Hc].
    rewrite Hc, andb_true_r. apply negb_true_iff. apply negb_true_iff in Hu.
    apply setHas_false. apply setHas_false in Hu. intros Hin. apply Hu.
    apply fold_setAdd_In. left. exact Hin.
Qed.

Lemma bfsLoop_terminates (fuel : nat) :
  forall queue visited clusterMembers,
    (List.length queue + List.length (unvisitedOf activeBubbles color visited) <= fuel)%nat ->
    exists members' visited',
      bfsLoop fuel activeBubbles color queue visited clusterMembers
      = Some (members', visited') /\
      (List.length members'
       <= List.length clusterMembers + List.length queue
          + List.length (unvisitedOf activeBubbles color visited))%nat.
Proof.
  induction fuel as [|fuel IH]; intros queue visited members Hm.
  - destruct queue as [|curr rest]; [|cbn in Hm; lia].
    exists members, visited. split; [reflexivity | lia].
  - destruct queue as [|curr rest].
    + exists members, visited. split; [reflexivity | lia].
    + cbn [bfsLoop]. cbv zeta.
      pose proof (neighbors_measure curr visited) as Hn. cbv zeta in Hn.
      set (neighbors := filter (fun n => negb (setHas visited (Bubble.id n))
                                         && String.eqb (Bubble.color n) color
                                         && isNeighbor curr n) activeBubbles) in *.
      set (visited1 := fold_left (fun v n => setAdd v (Bubble.id n)) neighbors visited) in *.
      cbn [List.length] in Hm.
      destruct (IH (rest ++ neighbors) visited1 (members ++ [curr])) as [m' [v' [E Hl]]].
      { rewrite length_app. lia. }
      exists m', v'. split; [exact E|].
      rewrite !length_app in Hl. cbn [List.length] in Hl |- *. lia.
Qed.

Lemma bfsLoop_members (fuel : nat) :
  forall queue visited clusterMembers members' visited',
    bfsLoop fuel activeBubbles color queue visited clusterMembers
    = Some (members', visited') ->
    (forall x, In x (clusterMembers ++ queue) ->
               In x activeBubbles /\ Bubble.color x = color) ->
    (forall x, In x members' -> In x activeBubbles /\ Bubble.color x = color) /\
    incl (clusterMembers ++ queue) members' /\ incl visited visited'.
Proof.
  induction fuel as [|fuel IH]; intros queue visited members m' v' E Hq.
  - destruct queue as [|curr rest]; [|discriminate].
    cbn in E. inversion E; subst. rewrite app_nil_r in Hq |- *.
    split; [exact Hq|]. split; apply incl_refl.
  - destruct queue as [|curr rest].
    + cbn in E. inversion E; subst. rewrite app_nil_r in Hq |- *.
      split; [exact Hq|]. split; apply incl_refl.
    + cbn [bfsLoop] in E. cbv zeta in E.
      apply IH in E.
      * destruct E as [H1 [H2 H3]]. split; [exact H1|]. split.
        -- intros x Hx. apply H2. rewrite <- app_assoc. cbn [app].
           apply in_app_iff in Hx. apply in_app_iff.
           destruct Hx as [Hx | [<- | Hx]]; [left; exact Hx | right; left; reflexivity|].
           right. right. apply in_app_iff. left. exact Hx.
        -- intros k Hk. apply H3. apply fold_setAdd_In. left. exact Hk.
      * intros x Hx. rewrite <- app_assoc in Hx. cbn [app] in Hx.
        apply in_app_iff in Hx. destruct Hx as [Hx | [<- | Hx]].
        -- apply Hq. apply in_app_iff. left. exact Hx.
        -- apply Hq. apply in_app_iff. right. left. reflexivity.
        -- apply in_app_iff in Hx. destruct Hx as [Hx | Hx].
           ++ apply Hq. apply in_app_iff. right. right. exact Hx.
           ++ apply filter_In in Hx. destruct Hx as [Hin Hp].
              apply andb_true_iff in Hp. destruct Hp as [Hp _].
              apply andb_true_iff in Hp. destruct Hp as [_ Hc].
              apply String.eqb_eq in Hc. split; assumption.
Qed.

Lemma unvisitedOf_after_start (b : Bubble.t) (visited : list string) :
  In b activeBubbles -> Bubble.color b = color ->
  (S (List.length (unvisitedOf activeBubbles color (setAdd visited (Bubble.id b))))
   <= List.length (filter (fun x => String.eqb (Bubble.color x) color) activeBubbles))%nat.
Proof.
  intros Hin Hc.
  pose proof (filter_split_le
                (fun x => setHas (setAdd visited (Bubble.id b)) (Bubble.id x)
                          && String.eqb (Bubble.color x) color)
                (fun n => negb (setHas (setAdd visited (Bubble.id b)) (Bubble.id n))
                          && String.eqb (Bubble.color n) color)
                (fun x => String.eqb (Bubble.color x) color) activeBubbles) as H.
  assert (H1 : (1 <= List.length
                  (filter (fun x => setHas (setAdd visited (Bubble.id b)) (Bubble.id x)
                                    && String.eqb (Bubble.color x) color) activeBubbles))%nat).
  { assert (Hb : In b (filter (fun x => setHas (setAdd visited (Bubble.id b)) (Bubble.id x)
                                        && String.eqb (Bubble.color x) color) activeBubbles)).
    { apply filter_In. split; [exact Hin|]. apply andb_true_iff. split.
      - apply setHas_In. apply setAdd_In. right. reflexivity.
      - apply String.eqb_eq. exact Hc. }
    destruct (filter _ activeBubbles); [contradiction | cbn; lia]. }
  unfold unvisitedOf.
  assert (H2 : (List.length
                  (filter (fun x => setHas (setAdd visited (Bubble.id b)) (Bubble.id x)
                                    && String.eqb (Bubble.color x) color) activeBubbles)
                + List.length
                    (filter (fun n => negb (setHas (setAdd visited (Bubble.id b)) (Bubble.id n))
                                      && String.eqb (Bubble.color n) color) activeBubbles)
                <= List.length (filter (fun x => String.eqb (Bubble.color x) color)
                                       activeBubbles))%nat).
  { apply H.
    - intros x _ Hp. apply andb_true_iff in Hp. destruct Hp as [Hv Hcx].
      split; [exact Hcx|]. rewrite Hv. reflexivity.
    - intros x _ Hq. apply andb_true_iff in Hq. apply Hq. }
  lia.
Qed.
End QueueLoop.

Lemma fold_left_Throws {S A : Type} (step : Outcome S -> A -> Outcome S) (l : list A) :
  (forall a, step Throws a = Throws) -> fold_left step l Throws = Throws.
Proof.
  intros Hstep. induction l as [|a l IH]; cbn [fold_left]; [reflexivity|].
  rewrite Hstep. exact IH.
Qed.

Lemma fold_left_outcome {S A : Type} (step : Outcome S -> A -> Outcome S)
    (I : S -> Prop) (T : Prop) (l : list A) :
  (forall a, step Throws a = Throws) ->
  (forall s a, In a l -> I s -> outcomeIs I T (step (Returns s) a)) ->
  forall s, I s -> outcomeIs I T (fold_left step l (Returns s)).
Proof.
  intros Hthrow. induction l as [|a l IH]; intros Hstep s Hs; cbn [fold_left].
  - exact Hs.
  - pose proof (Hstep s a (or_introl eq_refl) Hs) as Ha.
    destruct (step (Returns s) a) as [s' | |]; cbn in Ha.
    + apply IH; [|exact Ha]. intros s0 a0 Hin. apply Hstep. right. exact Hin.
    + rewrite fold_left_Throws by exact Hthrow. exact Ha.
    + contradiction.
Qed.

Lemma describeSide_names (xPct : R) : In (describeSide xPct) sideNames.
Proof.
  unfold describeSide, sideNames.
  destruct (Rlt_dec xPct (33 / 100)); [left; reflexivity|].
  destruct (Rlt_dec (66 / 100) xPct); [right; right; left | right; left]; reflexivity.
Qed.

Lemma clusterStep_Throws (anchor : Point) (containerWidth : R) (bs activeBubbles : list Bubble.t)
    (color : BubbleColor) (b : Bubble.t) :
  clusterStep anchor containerWidth bs activeBubbles color Throws b = Throws.
Proof. reflexivity. Qed.

Lemma bfsFuel_enough (activeBubbles : list Bubble.t) (color : BubbleColor)
    (b : Bubble.t) (visited : list string) :
  In b activeBubbles -> Bubble.color b = color ->
  (List.length [b]
   + List.length (unvisitedOf activeBubbles color (setAdd visited (Bubble.id b)))
   <= bfsFuel activeBubbles)%nat.
Proof.
  intros Hin Hc. pose proof (unvisitedOf_after_start activeBubbles color b visited Hin Hc) as H.
  pose proof (filter_length_le (fun x => String.eqb (Bubble.color x) color) activeBubbles).
  unfold bfsFuel. cbn [List.length]. lia.
Qed.

Lemma clusterStep_sound (anchor : Point) (containerWidth : R) (bs : list Bubble.t)
    (color : BubbleColor) (state : list string * list TargetCandidate.t) (b : Bubble.t) :
  In b (filter Bubble.active bs) ->
  Forall (hittableCandidate anchor bs) (snd state) ->
  outcomeIs (fun st => Forall (hittableCandidate anchor bs) (snd st))
            (hittableOffPalette anchor bs)
            (clusterStep anchor containerWidth bs (filter Bubble.active bs) color
                         (Returns state) b).
Proof.
  intros Hb Hcs. destruct state as [visited clusters]. unfold clusterStep.
  cbn [bind fst snd] in *.
  destruct (negb (String.eqb (Bubble.color b) color) || setHas visited (Bubble.id b)) eqn:Eskip;
    [exact Hcs|].
  apply orb_false_iff in Eskip. destruct Eskip as [Ec _].
  apply negb_false_iff, String.eqb_eq in Ec.
  destruct (bfsLoop_terminates (filter Bubble.active bs) color (bfsFuel (filter Bubble.active bs))
              [b] (setAdd visited (Bubble.id b)) [])
    as [members [visited' [E Hlen]]];
    [apply bfsFuel_enough; assumption|].
  rewrite E.
  destruct (bfsLoop_members _ _ _ _ _ _ _ _ E) as [Hmem [Hincl _]].
  { intros x Hx. cbn in Hx. destruct Hx as [<- | []]. split; assumption. }
  destruct (find (isPathClear anchor bs) _) as [h|] eqn:Ef; [|exact Hcs].
  apply find_some in Ef. destruct Ef as [Hh Hclear].
  apply sortBy_In in Hh. destruct (Hmem h Hh) as [Hha Hhc].
  apply filter_In in Hha. destruct Hha as [Hhin Hhact].
  destruct (COLOR_CONFIG color) as [cfg|] eqn:Ecfg.
  - cbn [outcomeIs snd]. apply Forall_app. split; [exact Hcs|].
    constructor; [|constructor].
    exists h, cfg. cbn [TargetCandidate.id TargetCandidate.color TargetCandidate.row
                        TargetCandidate.col TargetCandidate.pointsPerBubble
                        TargetCandidate.size TargetCandidate.description].
    rewrite Hhc.
    split; [exact Hhin|]. split; [exact Hhact|]. split; [exact Hclear|].
    split; [reflexivity|]. split; [reflexivity|]. split; [reflexivity|].
    split; [reflexivity|]. split; [exact Ecfg|]. split; [reflexivity|].
    split; [|apply describeSide_names].
    pose proof (unvisitedOf_after_start (filter Bubble.active bs) color b visited Hb Ec) as Hu.
    assert (Hbm : In b members) by (apply Hincl; left; reflexivity).
    cbn [List.length] in Hlen.
    destruct members as [|m0 ms]; [contradiction|]. cbn [List.length] in *. lia.
  - cbn [outcomeIs]. exists h. rewrite Hhc.
    split; [exact Hhin|]. split; [exact Hhact|]. split; [exact Hclear | exact Ecfg].
Qed.

Lemma filter_none {A : Type} (p : A -> bool) (l : list A) :
  (forall x, In x l -> p x = false) -> filter p l = [].
Proof.
  induction l as [|a l IH]; intros H; [reflexivity|]. cbn [filter].
  rewrite (H a (or_introl eq_refl)). apply IH. intros x Hx. apply H. right. exact Hx.
Qed.

Lemma activeColors_of_tokens (l : list BubbleColor) (acc : list BubbleColor) (c : BubbleColor) :
  In c (fold_left setAdd l acc) <-> In c acc \/ In c l.
Proof.
  revert acc. induction l as [|a l IH]; intros acc; cbn [fold_left].
  - cbn. tauto.
  - rewrite IH, setAdd_In. cbn [In]. intuition.
Qed.

Lemma getAllReachableClusters_outcome (anchor : Point) (containerWidth : R)
    (bs : list Bubble.t) :
  outcomeIs (fun cs => Forall (hittableCandidate anchor bs) cs)
            (hittableOffPalette anchor bs)
            (getAllReachableClusters anchor containerWidth bs).
Proof.
  unfold getAllReachableClusters. cbv zeta.
  apply fold_left_outcome with (I := fun cs => Forall (hittableCandidate anchor bs) cs);
    [reflexivity | | constructor].
  intros cs color _ Hcs. cbn [bind].
  pose proof (fold_left_outcome
                (clusterStep anchor containerWidth bs (filter Bubble.active bs) color)
                (fun st => Forall (hittableCandidate anchor bs) (snd st))
                (hittableOffPalette anchor bs) (filter Bubble.active bs)
                (clusterStep_Throws anchor containerWidth bs (filter Bubble.active bs) color))
    as Hfold.
  specialize (Hfold (fun s a Hin Hs => clusterStep_sound anchor containerWidth bs color s a Hin Hs)
                    ([], cs) Hcs).
  destruct (fold_left _ (filter Bubble.active bs) (Returns ([], cs))) as [st | |];
    cbn [bind outcomeIs] in *; exact Hfold.
Qed.

(** X14.  The search for the clusters offered to the advisor, on any
    board.  The queue loop of every cluster ends within its fuel.  When
    the search returns, every candidate names an active token of the grid
    the ball has a clear path to, with that token's identifier, colour,
    row and column, the points of the colour, a size between 1 and the
    number of active tokens of the colour, and one of the three side
    names.  The search throws only when a token with a clear path has a
    colour the colour table lacks; with palette colours on the board it
    returns, and without an active token it returns no candidate. *)
Theorem getAllReachableClusters_sound (anchor : Point) (containerWidth : R)
    (bs : list Bubble.t) :
  outcomeIs (fun cs => Forall (hittableCandidate anchor bs) cs)
            (hittableOffPalette anchor bs)
            (getAllReachableClusters anchor containerWidth bs) /\
  ((forall b, In b bs -> Bubble.active b = true -> In (Bubble.color b) COLOR_KEYS) ->
   exists cs, getAllReachableClusters anchor containerWidth bs = Returns cs) /\
  ((forall b, In b bs -> Bubble.active b = false) ->
   getAllReachableClusters anchor containerWidth bs = Returns []).
Proof.
  pose proof (getAllReachableClusters_outcome anchor containerWidth bs) as Hmain.
  split; [exact Hmain|]. split.
  - intros Hpal.
    destruct (getAllReachableClusters anchor containerWidth bs) as [cs | |];
      cbn [outcomeIs] in Hmain.
    + exists cs. reflexivity.
    + exfalso. destruct Hmain as [h [Hin [Ha [_ Hnone]]]].
      specialize (Hpal h Hin Ha). apply COLOR_KEYS_in_table in Hpal.
      contradiction.
    + contradiction.
  - intros Hnone. unfold getAllReachableClusters.
    rewrite (filter_none Bubble.active bs Hnone). reflexivity.
Qed.

(** ** The clusters are the regions *)

Lemma connected_trans (bs : list Bubble.t) (a b c : Bubble.t) :
  connected bs a b -> connected bs b c -> connected bs a c.
Proof.
  intros Hab Hbc. induction Hbc as [|u v Hbu IH Hin Hact Hcol Hn]; [exact Hab|].
  apply connected_step with (u := u); trivial.
  rewrite Hcol. apply connected_color with (bs := bs). exact Hab.
Qed.

Lemma connected_sym (bs : list Bubble.t) (a b : Bubble.t) :
  In a bs -> Bubble.active a = true -> connected bs a b -> connected bs b a.
Proof.
  intros Ha Hact H. induction H as [|u v Hau IH Hin Hv Hcol Hn]; [constructor|].
  apply connected_trans with (b := u); [|exact IH].
  apply connected_step with (u := v).
  - constructor.
  - apply connected_in_grid with (start := a); assumption.
  - apply connected_active with (bs := bs) (start := a); assumption.
  - rewrite Hcol. apply connected_color with (bs := bs). exact Hau.
  - rewrite isNeighbor_sym. exact Hn.
Qed.

Section ClusterRegions.
Variable bs : list Bubble.t.
Hypothesis ids_unique : NoDup (map Bubble.id bs).

Lemma active_same_id (x y : Bubble.t) :
  In x (filter Bubble.active bs) -> In y (filter Bubble.active bs) ->
  Bubble.id x = Bubble.id y -> x = y.
Proof.
  intros Hx Hy. apply filter_In in Hx. apply filter_In in Hy.
  apply (same_id_same_token bs); tauto.
Qed.

Lemma active_NoDup : NoDup (filter Bubble.active bs).
Proof. apply NoDup_filter. apply NoDup_map_inv with (f := Bubble.id). exact ids_unique. Qed.

Section OneCluster.
Variable color : BubbleColor.
Variable V0 : list string.
Variable start : Bubble.t.
Hypothesis start_color : Bubble.color start = color.

Lemma bfsInv_step (curr : Bubble.t) (rest : list Bubble.t) (visited : list string)
    (clusterMembers : list Bubble.t) :
  let neighbors :=
    filter (fun n => negb (setHas visited (Bubble.id n))
                     && String.eqb (Bubble.color n) color
                     && isNeighbor curr n) (filter Bubble.active bs) in
  let visited' := fold_left (fun v n => setAdd v (Bubble.id n)) neighbors visited in
  bfsInv bs color V0 start (curr :: rest) visited clusterMembers ->
  bfsInv bs color V0 start (rest ++ neighbors) visited' (clusterMembers ++ [curr]).
Proof.
  cbv zeta.
  set (neighbors := filter (fun n => negb (setHas visited (Bubble.id n))
                                     && String.eqb (Bubble.color n) color
                                     && isNeighbor curr n) (filter Bubble.active bs)).
  set (visited' := fold_left (fun v n => setAdd v (Bubble.id n)) neighbors visited).
  intros [I1 I2 I3 I4 I5 I6].
  assert (Hnb : forall x, In x neighbors <->
                          In x (filter Bubble.active bs) /\ ~ In (Bubble.id x) visited /\
                          Bubble.color x = color /\ isNeighbor curr x = true).
  { intros x. unfold neighbors. rewrite filter_In, !andb_true_iff, negb_true_iff,
      setHas_false, String.eqb_eq. tauto. }
  assert (Hv' : forall k, In k visited' <-> In k visited \/ In k (map Bubble.id neighbors))
    by (intros k; apply fold_setAdd_In).
  assert (Hlist : forall x, In x ((clusterMembers ++ [curr]) ++ rest ++ neighbors) <->
                            In x (clusterMembers ++ curr :: rest) \/ In x neighbors).
  { intros x. rewrite !in_app_iff. cbn [In]. tauto. }
  assert (Hcurr : In curr (clusterMembers ++ curr :: rest))
    by (apply in_app_iff; right; left; reflexivity).
  constructor.
  - intros x Hx. apply Hlist in Hx. destruct Hx as [Hx | Hx].
    + destruct (I1 x Hx) as [H1 [H2 [H3 [H4 H5]]]].
      repeat apply conj; trivial. apply Hv'. left. exact H3.
    + pose proof Hx as Hx'. apply Hnb in Hx. destruct Hx as [H1 [H2 [H3 H4]]].
      split; [exact H1|]. split; [exact H3|]. split.
      { apply Hv'. right. apply in_map. exact Hx'. }
      split.
      { intros Hin. apply H2. apply I6. exact Hin. }
      destruct (I1 curr Hcurr) as [_ [_ [_ [_ Hc]]]].
      apply filter_In in H1. destruct H1 as [Hin Hact].
      apply connected_step with (u := curr); trivial.
      rewrite H3, start_color. reflexivity.
  - intros x Hx Hc Hv. apply Hv' in Hv. destruct Hv as [Hv | Hv].
    + destruct (I2 x Hx Hc Hv) as [H | H]; [left; exact H|].
      right. apply Hlist. left. exact H.
    + right. apply Hlist. right. apply in_map_iff in Hv.
      destruct Hv as [n [Hid Hn]].
      assert (n = x).
      { apply active_same_id; trivial. apply Hnb in Hn. apply Hn. }
      subst n. exact Hn.
  - intros u v Hu Hv Hc Hn. apply in_app_iff in Hu. apply Hv'.
    destruct Hu as [Hu | [<- | []]].
    + left. exact (I3 u v Hu Hv Hc Hn).
    + destruct (in_dec string_dec (Bubble.id v) visited) as [Hin | Hout];
        [left; exact Hin|].
      right. apply in_map. apply Hnb. tauto.
  - replace ((clusterMembers ++ [curr]) ++ rest ++ neighbors)
      with ((clusterMembers ++ curr :: rest) ++ neighbors)
      by (rewrite <- !app_assoc; reflexivity).
    apply NoDup_app; trivial.
    + unfold neighbors. apply NoDup_filter. exact active_NoDup.
    + intros a Ha Hn. destruct (I1 a Ha) as [_ [_ [H3 _]]].
      apply Hnb in Hn. tauto.
  - apply Hlist. left. exact I5.
  - intros k Hk. apply Hv'. left. apply I6. exact Hk.
Qed.

Lemma bfsLoop_invariant (fuel : nat) :
  forall queue visited clusterMembers members' visited',
    bfsInv bs color V0 start queue visited clusterMembers ->
    bfsLoop fuel (filter Bubble.active bs) color queue visited clusterMembers
    = Some (members', visited') ->
    bfsInv bs color V0 start [] visited' members'.
Proof.
  induction fuel as [|fuel IH]; intros queue visited members m' v' Hinv E.
  - destruct queue; [|discriminate]. cbn in E. inversion E; subst. exact Hinv.
  - destruct queue as [|curr rest].
    + cbn in E. inversion E; subst. exact Hinv.
    + cbn [bfsLoop] in E. cbv zeta in E.
      apply IH in E; [exact E|]. apply bfsInv_step. exact Hinv.
Qed.

Lemma bfsInv_initial :
  In start (filter Bubble.active bs) -> ~ In (Bubble.id start) V0 ->
  bfsInv bs color V0 start [start] (setAdd V0 (Bubble.id start)) [].
Proof.
  intros Hin Hout. constructor; cbn [app].
  - intros x [<- | []]. split; [exact Hin|]. split; [exact start_color|].
    split; [apply setAdd_In; right; reflexivity|]. split; [exact Hout | constructor].
  - intros x Hx _ Hv. apply setAdd_In in Hv. destruct Hv as [Hv | Hv]; [left; exact Hv|].
    right. left. apply active_same_id; trivial. symmetry. exact Hv.
  - intros u v [].
  - constructor; [intros [] | constructor].
  - left. reflexivity.
  - intros k Hk. apply setAdd_In. left. exact Hk.
Qed.

Lemma closedSet_connected (visited : list string) (u v : Bubble.t) :
  closedSet (filter Bubble.active bs) color visited ->
  In u (filter Bubble.active bs) -> Bubble.color u = color ->
  In (Bubble.id u) visited -> connected bs u v -> In (Bubble.id v) visited.
Proof.
  intros Hcl Hu Hc Hv H. induction H as [|w v Huw IH Hin Hact Hcol Hn]; [exact Hv|].
  pose proof Hu as Hu'. apply filter_In in Hu'. destruct Hu' as [Hub Hua].
  apply (Hcl w v); trivial.
  - apply filter_In. split.
    + apply connected_in_grid with (start := u); assumption.
    + apply connected_active with (bs := bs) (start := u); assumption.
  - apply filter_In. split; assumption.
  - rewrite <- Hc. apply connected_color with (bs := bs). exact Huw.
  - rewrite Hcol. exact Hc.
Qed.

Lemma bfsInv_region (visited' : list string) (members' : list Bubble.t) :
  closedSet (filter Bubble.active bs) color V0 ->
  bfsInv bs color V0 start [] visited' members' ->
  (forall v, In v members' <-> connected bs start v) /\
  NoDup members' /\
  closedSet (filter Bubble.active bs) color visited' /\
  incl V0 visited' /\
  (forall x, In x members' ->
             In x (filter Bubble.active bs) /\ ~ In (Bubble.id x) V0 /\
             In (Bubble.id x) visited') /\
  (forall x, In x (filter Bubble.active bs) -> Bubble.color x = color ->
             In (Bubble.id x) visited' -> In (Bubble.id x) V0 \/ In x members').
Proof.
  intros Hcl [I1 I2 I3 I4 I5 I6]. rewrite app_nil_r in *.
  assert (Hstart : In start (filter Bubble.active bs)) by (apply (I1 start I5)).
  split; [|split; [exact I4|split; [|split; [exact I6|split]]]].
  - intros v. split; [intros Hv; apply (I1 v Hv)|].
    intros H. induction H as [|u v Hsu IH Hin Hact Hcol Hn]; [exact I5|].
    assert (Hva : In v (filter Bubble.active bs)) by (apply filter_In; split; assumption).
    assert (Hvc : Bubble.color v = color) by (rewrite Hcol; exact start_color).
    destruct (I2 v Hva Hvc (I3 u v IH Hva Hvc Hn)) as [H0 | Hm]; [|exact Hm].
    exfalso. destruct (I1 u IH) as [Hua [Huc [_ [Hu0 _]]]].
    apply Hu0. apply (Hcl v u); trivial. rewrite isNeighbor_sym. exact Hn.
  - intros u v Hu Hv Huc Hvc Hin Hn.
    destruct (I2 u Hu Huc Hin) as [H0 | Hm].
    + apply I6. apply (Hcl u v); trivial.
    + apply (I3 u v); trivial.
  - intros x Hx. destruct (I1 x Hx) as [H1 [_ [H3 [H4 _]]]].
    split; [exact H1|]. split; assumption.
  - exact I2.
Qed.
End OneCluster.
End ClusterRegions.

Lemma signR_le (x : R) : signR x <= 0 <-> (x <= 0)%R.
Proof.
  unfold signR. destruct (Rlt_dec x 0); [split; intros; [lra | lia]|].
  destruct (Rlt_dec 0 x); split; intros H; first [lia | lra].
Qed.

Lemma find_first_sorted {A : Type} (R : A -> A -> Prop) (p : A -> bool)
    (l : list A) (h : A) :
  StronglySorted R l -> find p l = Some h ->
  In h l /\ p h = true /\ forall v, In v l -> p v = true -> v = h \/ R h v.
Proof.
  induction l as [|a l IH]; intros Hs Hf; cbn [find] in Hf; [discriminate|].
  inversion Hs as [|? ? Hl Ha]; subst.
  destruct (p a) eqn:Ep.
  - inversion Hf; subst. split; [left; reflexivity|]. split; [exact Ep|].
    intros v [-> | Hv] _; [left; reflexivity|].
    right. rewrite Forall_forall in Ha. apply Ha. exact Hv.
  - destruct (IH Hl Hf) as [Hin [Hp Hall]].
    split; [right; exact Hin|]. split; [exact Hp|].
    intros v [<- | Hv] Hpv; [congruence | apply Hall; assumption].
Qed.

Lemma fold_left_outcome_prefix {S A : Type} (step : Outcome S -> A -> Outcome S)
    (I : list A -> S -> Prop) (T : Prop) (l : list A) :
  (forall a, step Throws a = Throws) ->
  (forall pre a post s, l = pre ++ a :: post -> I pre s ->
                        outcomeIs (I (pre ++ [a])) T (step (Returns s) a)) ->
  forall s, I [] s -> outcomeIs (I l) T (fold_left step l (Returns s)).
Proof.
  intros Hthrow Hstep.
  assert (Hgen : forall rest pre s, l = pre ++ rest -> I pre s ->
                                    outcomeIs (I l) T (fold_left step rest (Returns s))).
  { induction rest as [|a rest IH]; intros pre s El Hs; cbn [fold_left].
    - rewrite app_nil_r in El. rewrite El. exact Hs.
    - pose proof (Hstep pre a rest s El Hs) as Ha.
      destruct (step (Returns s) a) as [s' | |]; cbn [outcomeIs] in Ha.
      + apply (IH (pre ++ [a])); [rewrite <- app_assoc; exact El | exact Ha].
      + rewrite fold_left_Throws by exact Hthrow. exact Ha.
      + contradiction. }
  intros s Hs. apply (Hgen l [] s); [reflexivity | exact Hs].
Qed.

Lemma covered_incl (bs : list Bubble.t) (cs cs' : list TargetCandidate.t) (v : Bubble.t) :
  incl cs cs' -> covered bs cs v -> covered bs cs' v.
Proof.
  intros Hincl [c [h [Hc H]]]. exists c, h. split; [apply Hincl; exact Hc | exact H].
Qed.

Lemma uniqueColors_NoDup (l acc : list BubbleColor) :
  NoDup acc -> NoDup (fold_left setAdd l acc).
Proof.
  revert acc. induction l as [|a l IH]; intros acc H; cbn [fold_left]; [exact H|].
  apply IH. apply setAdd_NoDup. exact H.
Qed.

Section RegionSearch.
Variable anchor : Point.
Variable containerWidth : R.
Variable bs : list Bubble.t.
Hypothesis ids_unique : NoDup (map Bubble.id bs).

Lemma clusterStep_regions (color : BubbleColor) (cs0 : list TargetCandidate.t)
    (pre : list Bubble.t) (b : Bubble.t) (post : list Bubble.t)
    (state : list string * list TargetCandidate.t) :
  (forall c, In c cs0 ->
             exists h, In h (filter Bubble.active bs) /\
                       TargetCandidate.id c = Bubble.id h /\ Bubble.color h <> color) ->
  filter Bubble.active bs = pre ++ b :: post ->
  passInv anchor bs color cs0 pre state ->
  outcomeIs (passInv anchor bs color cs0 (pre ++ [b])) (hittableOffPalette anchor bs)
            (clusterStep anchor containerWidth bs (filter Bubble.active bs) color
                         (Returns state) b).
Proof.
  intros H0 Eact Hinv. destruct state as [visited clusters].
  destruct Hinv as [P1 [P2 [P3 [P4 [P5 [P6 [P7 P8]]]]]]]. cbn [fst snd] in *.
  assert (Hb : In b (filter Bubble.active bs))
    by (rewrite Eact; apply in_app_iff; right; left; reflexivity).
  unfold clusterStep. cbn [bind fst snd].
  destruct (negb (String.eqb (Bubble.color b) color) || setHas visited (Bubble.id b)) eqn:Eskip.
  - cbn [outcomeIs]. unfold passInv. cbn [fst snd].
    split; [exact P1|]. split.
    { intros x Hx Hc. apply in_app_iff in Hx.
      destruct Hx as [Hx | [<- | []]]; [apply P2; assumption|].
      apply orb_true_iff in Eskip. destruct Eskip as [E | E].
      - apply negb_true_iff, String.eqb_neq in E. contradiction.
      - apply setHas_In. exact E. }
    split; [exact P3|]. split; [exact P4|]. split; [exact P5|].
    split; [exact P6|]. split; [exact P7 | exact P8].
  - apply orb_false_iff in Eskip. destruct Eskip as [Ec Ev].
    apply negb_false_iff, String.eqb_eq in Ec. apply setHas_false in Ev.
    destruct (bfsLoop_terminates (filter Bubble.active bs) color
                (bfsFuel (filter Bubble.active bs)) [b] (setAdd visited (Bubble.id b)) [])
      as [members [visited' [E Hlen]]]; [apply bfsFuel_enough; assumption|].
    rewrite E.
    assert (Hfinal : bfsInv bs color visited b [] visited' members).
    { apply (bfsLoop_invariant bs ids_unique color visited b Ec
               (bfsFuel (filter Bubble.active bs)) [b] (setAdd visited (Bubble.id b)) []
               members visited'); [|exact E].
      apply bfsInv_initial; assumption. }
    destruct (bfsInv_region bs color visited b Ec visited' members P1 Hfinal)
      as [R1 [R2 [R3 [R4 [R5 R6]]]]].
    assert (Hbm : In b members) by (apply R1; constructor).
    pose proof Hb as Hbb. apply filter_In in Hbb. destruct Hbb as [Hbin Hbact].
    assert (N2 : forall x, In x (pre ++ [b]) -> Bubble.color x = color ->
                           In (Bubble.id x) visited').
    { intros x Hx Hc. apply in_app_iff in Hx.
      destruct Hx as [Hx | [<- | []]]; [apply R4; apply P2; assumption|].
      apply (R5 b Hbm). }
    assert (N6 : forall c, In c clusters ->
                   In c cs0 \/
                   exists h, In h (filter Bubble.active bs) /\
                             TargetCandidate.id c = Bubble.id h /\
                             Bubble.color h = color /\ In (Bubble.id h) visited').
    { intros c Hc. destruct (P6 c Hc) as [H | [h [H1 [H2 [H3 H4]]]]]; [left; exact H|].
      right. exists h. repeat apply conj; trivial. apply R4. exact H4. }
    destruct (find (isPathClear anchor bs) _) as [h|] eqn:Ef.
    + apply find_first_sorted with (R := notAfter (fun a b0 => signR (Bubble.y b0 - Bubble.y a)))
        in Ef.
      2:{ apply sortBy_sorted.
          - intros x y Hxy. apply signR_le.
            assert (Hn : ~ signR (Bubble.y y - Bubble.y x) <= 0) by lia.
            rewrite signR_le in Hn. lra.
          - intros x y z Hxy Hyz. apply signR_le. apply signR_le in Hxy, Hyz. lra. }
      destruct Ef as [Hh [Hclear Hlow]].
      apply sortBy_In in Hh.
      destruct (R5 h Hh) as [Hha [Hh0 Hhv]].
      pose proof Hha as Hhb. apply filter_In in Hhb. destruct Hhb as [Hhin Hhact].
      assert (Hbh : connected bs b h) by (apply R1; exact Hh).
      assert (Hhb : connected bs h b) by (apply connected_sym; assumption).
      assert (Hhc : Bubble.color h = color)
        by (rewrite <- Ec; apply connected_color with (bs := bs); exact Hbh).
      destruct (COLOR_CONFIG color) as [cfg|] eqn:Ecfg.
      * cbn [outcomeIs]. unfold passInv. cbn [fst snd].
        set (cand := TargetCandidate.mk (Bubble.id h) color
                       (Z.of_nat (List.length members)) (Bubble.row h) (Bubble.col h)
                       (points cfg) (describeSide (Bubble.x h / containerWidth))).
        assert (Hfar : forall c hc, In c clusters -> In hc bs ->
                         TargetCandidate.id c = Bubble.id hc -> ~ connected bs hc h).
        { intros c hc Hc Hhc' Hid Hconn.
          destruct (P6 c Hc) as [Hc0 | [h1 [H1 [H2 [H3 H4]]]]].
          - destruct (H0 c Hc0) as [h1 [H1 [H2 H3]]].
            assert (h1 = hc).
            { apply (same_id_same_token bs); trivial; [|congruence].
              apply filter_In in H1. apply H1. }
            subst h1. apply H3. rewrite <- Hhc. symmetry.
            apply connected_color with (bs := bs). exact Hconn.
          - assert (h1 = hc).
            { apply (same_id_same_token bs); trivial; [|congruence].
              apply filter_In in H1. apply H1. }
            subst h1. apply Hh0.
            apply (closedSet_connected bs color visited hc h); trivial. }
        split; [exact R3|]. split; [exact N2|].
        split; [apply incl_appl; exact P3|]. split.
        { apply Forall_app. split; [exact P4|]. constructor; [|constructor].
          exists h, members. cbn [TargetCandidate.id TargetCandidate.size].
          split; [exact Hhin|]. split; [exact Hhact|]. split; [exact Hclear|].
          split; [reflexivity|]. split; [exact R2|]. split.
          { intros v. rewrite R1. split; intros Hv.
            - apply connected_trans with (b := b); assumption.
            - apply connected_trans with (b := h); assumption. }
          split; [reflexivity|].
          intros v Hv Hvc. apply (sortBy_In (fun a b0 => signR (Bubble.y b0 - Bubble.y a))) in Hv.
          destruct (Hlow v Hv Hvc) as [-> | Hle]; [lra|].
          unfold notAfter in Hle. apply signR_le in Hle. lra. }
        split.
        { intros v Hv Hvc Hvis Hvclear.
          destruct (R6 v Hv Hvc Hvis) as [Hold | Hnew].
          - apply covered_incl with (cs := clusters); [apply incl_appl, incl_refl|].
            apply P5; assumption.
          - exists cand, h. split; [apply in_app_iff; right; left; reflexivity|].
            split; [exact Hhin|]. split; [reflexivity|].
            apply connected_trans with (b := b); [exact Hhb | apply R1; exact Hnew]. }
        split.
        { intros c Hc. apply in_app_iff in Hc. destruct Hc as [Hc | [<- | []]].
          - apply N6. exact Hc.
          - right. exists h. repeat apply conj; trivial. }
        split.
        { rewrite map_app. apply NoDup_app; trivial.
          - cbn. constructor; [intros [] | constructor].
          - intros k Hk [<- | []]. cbn [cand TargetCandidate.id] in Hk.
            apply in_map_iff in Hk. destruct Hk as [c [Hid Hc]].
            apply (Hfar c h Hc Hhin Hid). constructor. }
        { intros c1 c2 h1 h2 Hc1 Hc2 Hh1 Hh2 Hid1 Hid2 Hconn.
          apply in_app_iff in Hc1. apply in_app_iff in Hc2.
          destruct Hc1 as [Hc1 | [<- | []]]; destruct Hc2 as [Hc2 | [<- | []]].
          - apply (P8 c1 c2 h1 h2); assumption.
          - exfalso. cbn [cand TargetCandidate.id] in Hid2.
            assert (h2 = h) by (apply (same_id_same_token bs); trivial; congruence).
            subst h2. exact (Hfar c1 h1 Hc1 Hh1 Hid1 Hconn).
          - exfalso. cbn [cand TargetCandidate.id] in Hid1.
            assert (h1 = h) by (apply (same_id_same_token bs); trivial; congruence).
            subst h1. apply (Hfar c2 h2 Hc2 Hh2 Hid2).
            apply connected_sym; assumption.
          - reflexivity. }
      * cbn [outcomeIs]. exists h. rewrite Hhc.
        split; [exact Hhin|]. split; [exact Hhact|]. split; [exact Hclear | exact Ecfg].
    + cbn [outcomeIs]. unfold passInv. cbn [fst snd].
      split; [exact R3|]. split; [exact N2|]. split; [exact P3|]. split; [exact P4|].
      split.
      { intros v Hv Hvc Hvis Hvclear.
        destruct (R6 v Hv Hvc Hvis) as [Hold | Hnew]; [apply P5; assumption|].
        exfalso. apply (sortBy_In (fun a b0 => signR (Bubble.y b0 - Bubble.y a))) in Hnew.
        pose proof (find_none _ _ Ef v Hnew) as Hf. congruence. }
      split; [exact N6|]. split; [exact P7 | exact P8].
Qed.

Lemma colourPass_regions (color : BubbleColor) (done : list BubbleColor)
    (cs0 : list TargetCandidate.t) :
  ~ In color done ->
  searchInv anchor bs done cs0 ->
  outcomeIs (searchInv anchor bs (done ++ [color])) (hittableOffPalette anchor bs)
            (state <- fold_left (clusterStep anchor containerWidth bs
                                             (filter Bubble.active bs) color)
                                (filter Bubble.active bs) (Returns ([], cs0)) ;;
             Returns (snd state)).
Proof.
  intros Hfresh [J1 [J2 [J3 [J4 J5]]]].
  assert (H0 : forall c, In c cs0 ->
                 exists h, In h (filter Bubble.active bs) /\
                           TargetCandidate.id c = Bubble.id h /\ Bubble.color h <> color).
  { intros c Hc. destruct (J3 c Hc) as [h [H1 [H2 H3]]]. exists h.
    split; [exact H1|]. split; [exact H2|]. intros E. apply Hfresh. rewrite <- E. exact H3. }
  pose proof (fold_left_outcome_prefix
                (clusterStep anchor containerWidth bs (filter Bubble.active bs) color)
                (passInv anchor bs color cs0) (hittableOffPalette anchor bs)
                (filter Bubble.active bs)
                (clusterStep_Throws anchor containerWidth bs (filter Bubble.active bs) color)
                (fun pre a post s El Hs => clusterStep_regions color cs0 pre a post s H0 El Hs)
                ([], cs0)) as Hfold.
  assert (Hinit : passInv anchor bs color cs0 [] ([], cs0)).
  { unfold passInv. cbn [fst snd].
    split; [intros u v _ _ _ _ []|]. split; [intros x []|]. split; [apply incl_refl|].
    split; [exact J1|]. split; [intros v _ _ []|].
    split; [intros c Hc; left; exact Hc|]. split; [exact J4 | exact J5]. }
  specialize (Hfold Hinit).
  destruct (fold_left _ (filter Bubble.active bs) (Returns ([], cs0))) as [[visited clusters] | |];
    cbn [bind outcomeIs] in *; [|exact Hfold | exact Hfold].
  destruct Hfold as [P1 [P2 [P3 [P4 [P5 [P6 [P7 P8]]]]]]]. cbn [fst snd] in *.
  unfold searchInv. split; [exact P4|]. split.
  { intros v Hv Hc Hclear. apply in_app_iff in Hc. destruct Hc as [Hc | [Hc | []]].
    - apply covered_incl with (cs := cs0); [exact P3|]. apply J2; assumption.
    - apply P5; trivial; [symmetry; exact Hc|]. apply P2; [exact Hv | symmetry; exact Hc]. }
  split.
  { intros c Hc. destruct (P6 c Hc) as [Hc0 | [h [H1 [H2 [H3 _]]]]].
    - destruct (J3 c Hc0) as [h [H1 [H2 H3]]]. exists h.
      split; [exact H1|]. split; [exact H2|]. apply in_app_iff. left. exact H3.
    - exists h. split; [exact H1|]. split; [exact H2|].
      apply in_app_iff. right. left. symmetry. exact H3. }
  split; [exact P7 | exact P8].
Qed.

Lemma getAllReachableClusters_invariant :
  outcomeIs (searchInv anchor bs
               (fold_left setAdd (map Bubble.color (filter Bubble.active bs)) []))
            (hittableOffPalette anchor bs)
            (getAllReachableClusters anchor containerWidth bs).
Proof.
  unfold getAllReachableClusters. cbv zeta.
  set (uniqueColors := fold_left setAdd (map Bubble.color (filter Bubble.active bs)) []).
  assert (Hnd : NoDup uniqueColors) by (apply uniqueColors_NoDup; constructor).
  apply fold_left_outcome_prefix with (I := searchInv anchor bs).
  - reflexivity.
  - intros pre color post cs El Hcs. cbn [bind].
    apply colourPass_regions; [|exact Hcs].
    rewrite El in Hnd. apply NoDup_remove_2 in Hnd.
    intros Hin. apply Hnd. apply in_app_iff. left. exact Hin.
  - unfold searchInv. split; [constructor|]. split; [intros v _ []|].
    split; [intros c []|]. split; [constructor|].
    intros c1 c2 h1 h2 [].
Qed.
End RegionSearch.

(** X15.  On a board whose tokens have distinct identifiers, every
    candidate the search returns stands for a whole same-colour region of
    the grid: its size is the number of tokens of the region of the token
    it names (the region a match at that token would clear), and the token
    it names is, of the tokens of the region the ball has a clear path to,
    the lowest on the screen. *)
Theorem getAllReachableClusters_regions (anchor : Point) (containerWidth : R)
    (bs : list Bubble.t) :
  NoDup (map Bubble.id bs) ->
  outcomeIs (fun cs => Forall (regionCandidate anchor bs) cs)
            (hittableOffPalette anchor bs)
            (getAllReachableClusters anchor containerWidth bs).
Proof.
  intros Hids.
  pose proof (getAllReachableClusters_invariant anchor containerWidth bs Hids) as H.
  destruct (getAllReachableClusters anchor containerWidth bs) as [cs | |];
    cbn [outcomeIs] in *; [apply H | exact H | exact H].
Qed.

Lemma getAllReachableClusters_regions_witness :
  outcomeIs (fun cs => Forall (regionCandidate (mkPoint 500 600) (bubbles twoClusters)) cs)
            (hittableOffPalette (mkPoint 500 600) (bubbles twoClusters))
            (getAllReachableClusters (mkPoint 500 600) 1000 (bubbles twoClusters)).
Proof.
  exact (getAllReachableClusters_regions (mkPoint 500 600) 1000 (bubbles twoClusters)
           twoClusters_ids).
Defined.

(** X16.  On a board whose tokens have distinct identifiers, the search
    misses no region and offers none twice: every active token the ball
    has a clear path to lies in the region of the token some candidate
    names, the candidates name different tokens, and no two of them name
    tokens of one region.  The search throws exactly when some active
    token with a clear path has a colour the colour table lacks. *)
Theorem getAllReachableClusters_complete (anchor : Point) (containerWidth : R)
    (bs : list Bubble.t) :
  NoDup (map Bubble.id bs) ->
  outcomeIs (fun cs =>
               (forall v, In v bs -> Bubble.active v = true ->
                          isPathClear anchor bs v = true -> covered bs cs v) /\
               NoDup (map TargetCandidate.id cs) /\
               onePerRegion bs cs)
            (hittableOffPalette anchor bs)
            (getAllReachableClusters anchor containerWidth bs) /\
  (getAllReachableClusters anchor containerWidth bs = Throws <->
   hittableOffPalette anchor bs).
Proof.
  intros Hids.
  pose proof (getAllReachableClusters_invariant anchor containerWidth bs Hids) as H.
  pose proof (getAllReachableClusters_outcome anchor containerWidth bs) as Hs.
  destruct (getAllReachableClusters anchor containerWidth bs) as [cs | |];
    cbn [outcomeIs] in *; [|split; [exact H | tauto] | contradiction].
  destruct H as [J1 [J2 [J3 [J4 J5]]]].
  assert (Hcov : forall v, In v bs -> Bubble.active v = true ->
                           isPathClear anchor bs v = true -> covered bs cs v).
  { intros v Hv Ha Hclear. apply J2; trivial.
    - apply filter_In. split; assumption.
    - apply activeColors_of_tokens. right. apply in_map. apply filter_In. split; assumption. }
  split; [split; [exact Hcov | split; [exact J4 | exact J5]]|].
  split; [discriminate|].
  intros [v [Hv [Ha [Hclear Hnone]]]]. exfalso.
  destruct (Hcov v Hv Ha Hclear) as [c [h [Hc [Hh [Hid Hconn]]]]].
  rewrite Forall_forall in Hs. destruct (Hs c Hc) as [h' [cfg Hcand]].
  destruct Hcand as [Hh' [_ [_ [Hid' [_ [_ [_ [Hcfg _]]]]]]]].
  assert (h' = h) by (apply (same_id_same_token bs); trivial; congruence).
  subst h'. rewrite <- (connected_color bs h v Hconn) in Hcfg. congruence.
Qed.

Lemma getAllReachableClusters_complete_witness :
  getAllReachableClusters (mkPoint 500 600) 1000 (bubbles twoClusters) = Throws <->
  hittableOffPalette (mkPoint 500 600) (bubbles twoClusters).
Proof.
  exact (proj2 (getAllReachableClusters_complete (mkPoint 500 600) 1000
                  (bubbles twoClusters) twoClusters_ids)).
Defined.

(** ** The hint, whatever the reply *)

Lemma getBestLocalTarget_message (validTargets : list TargetCandidate.t) (msg : string) :
  msg <> ""%string -> truthy (message (getBestLocalTarget validTargets msg)) = true.
Proof.
  intros Hmsg. unfold getBestLocalTarget.
  destruct (sortBy compareTargets validTargets) as [|best r]; cbn [message truthy].
  - apply negb_true_iff. apply String.eqb_neq. exact Hmsg.
  - reflexivity.
Qed.

Lemma getStrategicHint_message (beyondAscii : string -> string) (aiReady : bool)
    (validTargets : list TargetCandidate.t) (reply : ServiceReply) :
  truthy (message (getStrategicHint beyondAscii aiReady validTargets reply)) = true.
Proof.
  unfold getStrategicHint. destruct aiReady; cbn [negb]; [|reflexivity].
  destruct reply as [| | |json]; try (apply getBestLocalTarget_message; discriminate).
  destruct (lowerCased beyondAscii (json_recommendedColor json));
    try (apply getBestLocalTarget_message; discriminate).
  cbn [message]. destruct (truthy (json_message json)) eqn:E; [exact E | reflexivity].
Qed.

Lemma applyHint_frame (canvas : option R) (hint : StrategicHint) (g : Game) :
  let g' := applyHint canvas hint g in
  bubbles g' = bubbles g /\ score g' = score g /\ shotsTaken g' = shotsTaken g /\
  availableColors g' = availableColors g /\ activeShotTarget g' = activeShotTarget g /\
  isFlying g' = isFlying g /\ ballPos g' = ballPos g /\ ballVel g' = ballVel g /\
  anchorPos g' = anchorPos g /\ captureRequest g' = captureRequest g /\
  isAiThinking g' = false /\ aiHint g' = message hint.
Proof.
  cbv zeta. unfold applyHint.
  destruct (targetRow hint), (targetCol hint), (recommendedColor hint) as [color|],
           (truthy (suggestSkip hint));
    try destruct (negb (String.eqb color ""));
    repeat apply conj; reflexivity.
Qed.

(** X17.  Whatever the service replies, and also without an API key, the
    message of the hint is truthy (it is not undefined, null, false, 0 or
    the empty string), because a message of a parsed reply that is not
    truthy is replaced by "Ready!"; so the hint line of the state holds a
    truthy value after a hint is folded in.  A truthy message of a parsed
    reply is passed on as it is, whatever it is: a string of blanks, a
    number and [true] are passed on too.  Without an API key the hint has
    no target and no colour, and the aim and the selected colour stay as
    they were.  Folding any hint into the state never touches the grid,
    the score, the shot counter, the offered colours or the ball, and
    always ends the thinking state. *)
Theorem hint_message_and_frame (beyondAscii : string -> string) (aiReady : bool)
    (validTargets : list TargetCandidate.t)
    (reply : ServiceReply) (canvas : option R) (hint : StrategicHint) (g : Game) :
  truthy (message (getStrategicHint beyondAscii aiReady validTargets reply)) = true /\
  truthy (aiHint (applyHint canvas
                    (getStrategicHint beyondAscii aiReady validTargets reply) g)) = true /\
  (forall json : JsonFields,
      failedReply (BodyParsed json) = false ->
      message (getStrategicHint beyondAscii true validTargets (BodyParsed json))
      = if truthy (json_message json) then json_message json else JString "Ready!") /\
  (let g0 := applyHint canvas (getStrategicHint beyondAscii false validTargets reply) g in
   message (getStrategicHint beyondAscii false validTargets reply)
   = JString "API Key missing." /\
   aimTarget g0 = aimTarget g /\ selectedColor g0 = selectedColor g /\
   aiRecommendedColor g0 = aiRecommendedColor g /\
   showSkipConfirm g0 = showSkipConfirm g) /\
  (let g' := applyHint canvas hint g in
   bubbles g' = bubbles g /\ score g' = score g /\ shotsTaken g' = shotsTaken g /\
   availableColors g' = availableColors g /\ activeShotTarget g' = activeShotTarget g /\
   isFlying g' = isFlying g /\ ballPos g' = ballPos g /\ ballVel g' = ballVel g /\
   anchorPos g' = anchorPos g /\ captureRequest g' = captureRequest g /\
   isAiThinking g' = false /\ aiHint g' = message hint).
Proof.
  split; [apply getStrategicHint_message|]. split; [|split].
  - destruct (applyHint_frame canvas
                (getStrategicHint beyondAscii aiReady validTargets reply) g)
      as [_ [_ [_ [_ [_ [_ [_ [_ [_ [_ [_ H]]]]]]]]]]].
    rewrite H. apply getStrategicHint_message.
  - intros json Hf.
    destruct (getStrategicHint_parsed beyondAscii validTargets json Hf) as [[Hm _] _].
    exact Hm.
  - split; [|apply applyHint_frame].
    cbv zeta. unfold getStrategicHint. cbn [negb]. unfold applyHint.
    cbn [message targetRow targetCol suggestSkip truthy rationale recommendedColor].
    repeat apply conj; reflexivity.
Qed.

(** ** From the clusters to the aim *)

Lemma isPathClear_near (anchor : Point) (bs : list Bubble.t) (target : Bubble.t) :
  (sqrt ((Bubble.x target - px anchor) * (Bubble.x target - px anchor)
         + (Bubble.y target - py anchor) * (Bubble.y target - py anchor)) <= 33)%R ->
  isPathClear anchor bs target = true.
Proof.
  intros Hshort. unfold isPathClear. cbv zeta.
  set (d := sqrt _) in *.
  assert (Hq : (d / (BUBBLE_RADIUS / 2) <= 3)%R)
    by (unfold BUBBLE_RADIUS; apply Rmult_le_reg_r with (r := (22 / 2)%R); [lra|];
        unfold Rdiv at 1; rewrite Rmult_assoc, Rinv_l by lra; lra).
  pose proof (Zceil_bound (d / (BUBBLE_RADIUS / 2))) as [Hlb _].
  assert (H4 : (IZR (Zceil (d / (BUBBLE_RADIUS / 2))) < 4)%R) by lra.
  apply lt_IZR in H4.
  unfold sampleIndices, range.
  replace (Z.to_nat (Zceil (d / (BUBBLE_RADIUS / 2)) - 3)) with 0%nat by lia.
  reflexivity.
Qed.

Lemma single_token_clusters (anchor : Point) (containerWidth : R) (h : Bubble.t)
    (cfg : ColorEntry) :
  Bubble.active h = true -> isPathClear anchor [h] h = true ->
  COLOR_CONFIG (Bubble.color h) = Some cfg ->
  getAllReachableClusters anchor containerWidth [h]
  = Returns [TargetCandidate.mk (Bubble.id h) (Bubble.color h) 1 (Bubble.row h)
               (Bubble.col h) (points cfg) (describeSide (Bubble.x h / containerWidth))].
Proof.
  intros Hact Hclear Hcfg. unfold getAllReachableClusters. cbv zeta.
  cbn [filter]. rewrite Hact. cbn [map fold_left setAdd setHas existsb app bind].
  unfold clusterStep. cbn [bind fst snd setHas existsb orb].
  rewrite String.eqb_refl. cbn [negb orb].
  unfold bfsFuel. cbn [List.length Nat.mul Nat.add bfsLoop setAdd setHas existsb app filter].
  rewrite String.eqb_refl. cbn [negb andb orb filter fold_left app sortBy fold_right insertBy find].
  rewrite Hclear, Hcfg. reflexivity.
Qed.

Lemma nearToken_clear : isPathClear nearAnchor [nearToken] nearToken = true.
Proof.
  apply isPathClear_near. unfold nearAnchor. cbn [px py].
  replace ((Bubble.x nearToken - Bubble.x nearToken) * (Bubble.x nearToken - Bubble.x nearToken)
           + (Bubble.y nearToken - (Bubble.y nearToken + 30))
             * (Bubble.y nearToken - (Bubble.y nearToken + 30)))%R
    with (30 * 30)%R by ring.
  rewrite sqrt_square; lra.
Qed.

Lemma table_key_not_blank (c : BubbleColor) (cfg : ColorEntry) :
  COLOR_CONFIG c = Some cfg -> c <> ""%string.
Proof. intros H ->. discriminate. Qed.

(** X18.  From the cluster search to the aim, when the service fails.
    The hint is then built from the candidates of the search, and folding
    it into the state aims at the cell of an active token of the grid the
    ball has a clear path to and selects that token's colour, a colour of
    the palette; the candidate taken has the largest size times points,
    and the smallest row among those. *)
Theorem fallback_aims_at_reachable_token (beyondAscii : string -> string)
    (anchor : Point) (containerWidth : R)
    (bs : list Bubble.t) (cs : list TargetCandidate.t) (reply : ServiceReply)
    (canvas : option R) (g : Game) :
  getAllReachableClusters anchor containerWidth bs = Returns cs ->
  cs <> [] ->
  failedReply reply = true ->
  let g' := applyHint canvas (getStrategicHint beyondAscii true cs reply) g in
  exists (best : TargetCandidate.t) (h : Bubble.t),
    bestCandidate cs best /\ TargetCandidate.id best = Bubble.id h /\
    In h bs /\ Bubble.active h = true /\ isPathClear anchor bs h = true /\
    aimTarget g' = Some (getBubblePos (Bubble.row h) (Bubble.col h)
                                      (canvasWidthOr1000 canvas)) /\
    selectedColor g' = Bubble.color h /\
    aiRecommendedColor g' = Some (Bubble.color h) /\
    In (Bubble.color h) COLOR_KEYS.
Proof.
  intros Hcs Hne Hfail. cbv zeta.
  destruct (getStrategicHint_failed beyondAscii cs reply Hfail) as [msg [_ Ehint]].
  rewrite Ehint.
  destruct (getBestLocalTarget_best cs msg Hne) as [best [Hbest [Hr [Hc Hcol]]]].
  pose proof (getAllReachableClusters_outcome anchor containerWidth bs) as Hout.
  rewrite Hcs in Hout. cbn [outcomeIs] in Hout. rewrite Forall_forall in Hout.
  destruct (Hout best (proj1 Hbest))
    as [h [cfg [Hin [Hact [Hclear [Hid [Hcolor [Hrow [Hcl [Hcfg _]]]]]]]]]].
  exists best, h.
  split; [exact Hbest|]. split; [exact Hid|]. split; [exact Hin|].
  split; [exact Hact|]. split; [exact Hclear|].
  rewrite Hrow in Hr. rewrite Hcl in Hc. rewrite Hcolor in Hcol.
  pose proof (table_key_not_blank _ _ Hcfg) as Hnb. apply String.eqb_neq in Hnb.
  assert (Hkey : In (Bubble.color h) COLOR_KEYS)
    by (apply COLOR_KEYS_in_table; congruence).
  unfold applyHint. rewrite Hr, Hc, Hcol, Hnb. cbn [negb].
  destruct (truthy (suggestSkip (getBestLocalTarget cs msg)));
    (split; [reflexivity|]; split; [reflexivity|]; split; [reflexivity | exact Hkey]).
Qed.

Lemma fallback_aims_witness :
  exists (best : TargetCandidate.t) (h : Bubble.t),
    bestCandidate
      [TargetCandidate.mk "12-5" "red" 1 12 5 100
         (describeSide (Bubble.x nearToken / 1000))] best /\
    TargetCandidate.id best = Bubble.id h /\
    In h [nearToken] /\ Bubble.active h = true /\
    isPathClear nearAnchor [nearToken] h = true /\
    aimTarget (applyHint (Some 1000%R)
                 (getStrategicHint asciiCaseOnly true
                    [TargetCandidate.mk "12-5" "red" 1 12 5 100
                       (describeSide (Bubble.x nearToken / 1000))] RequestFailed)
                 emptyGame)
    = Some (getBubblePos (Bubble.row h) (Bubble.col h) (canvasWidthOr1000 (Some 1000%R))) /\
    selectedColor (applyHint (Some 1000%R)
                     (getStrategicHint asciiCaseOnly true
                        [TargetCandidate.mk "12-5" "red" 1 12 5 100
                           (describeSide (Bubble.x nearToken / 1000))] RequestFailed)
                     emptyGame)
    = Bubble.color h /\
    aiRecommendedColor (applyHint (Some 1000%R)
                          (getStrategicHint asciiCaseOnly true
                             [TargetCandidate.mk "12-5" "red" 1 12 5 100
                                (describeSide (Bubble.x nearToken / 1000))] RequestFailed)
                          emptyGame)
    = Some (Bubble.color h) /\
    In (Bubble.color h) COLOR_KEYS.
Proof.
  exact (fallback_aims_at_reachable_token asciiCaseOnly nearAnchor 1000 [nearToken]
           [TargetCandidate.mk "12-5" "red" 1 12 5 100
              (describeSide (Bubble.x nearToken / 1000))]
           RequestFailed (Some 1000%R) emptyGame
           (single_token_clusters nearAnchor 1000 nearToken
              (mkColorEntry "#ef5350" 100 "Red") eq_refl nearToken_clear eq_refl)
           ltac:(discriminate) eq_refl).
Defined.

(** ** The colours stay in the palette *)

Lemma paletteState_frame (g g' : Game) :
  bubbles g' = bubbles g -> selectedColor g' = selectedColor g ->
  paletteState g -> paletteState g'.
Proof. unfold paletteState. intros -> ->. trivial. Qed.

Lemma updateAvailableColors_selected (g : Game) :
  selectedColor (updateAvailableColors g) = selectedColor g \/
  exists b, In b (bubbles g) /\ Bubble.active b = true /\
            Bubble.color b = selectedColor (updateAvailableColors g).
Proof.
  unfold updateAvailableColors.
  destruct (activeColors_acc (bubbles g) []) as [_ Hin]. cbv zeta in Hin.
  fold (activeColors (bubbles g)) in Hin.
  destruct (activeColors (bubbles g)) as [|c0 cs] eqn:E; [left; reflexivity|].
  destruct (negb (setHas (c0 :: cs) (selectedColor g))); [|left; reflexivity].
  right. cbn [selectedColor setSelectedColor].
  destruct (proj1 (Hin c0) (or_introl eq_refl)) as [[] | H]. exact H.
Qed.

Lemma updateAvailableColors_palette (g : Game) :
  paletteState g -> paletteState (updateAvailableColors g).
Proof.
  intros [Htok Hsel]. split.
  - rewrite bubbles_updateAvailableColors. exact Htok.
  - destruct (updateAvailableColors_selected g) as [-> | [b [Hb [Ha <-]]]];
      [exact Hsel | exact (Htok b Hb Ha)].
Qed.

Lemma addNewRow_palette (width : R) (now : Z) (rnd : Z -> nat) (g : Game) :
  paletteState g -> paletteState (addNewRow width now rnd g).
Proof.
  intros [Htok Hsel]. unfold addNewRow. apply updateAvailableColors_palette.
  split; [|exact Hsel]. cbn [bubbles setBubbles].
  intros b Hb Ha. apply in_app_iff in Hb. destruct Hb as [Hb | Hb].
  - apply in_map_iff in Hb. destruct Hb as [b0 [<- Hb0]].
    cbn [shiftDown Bubble.color Bubble.active] in *. exact (Htok b0 Hb0 Ha).
  - destruct (newTopRow_tokens width now rnd) as [_ Hrow].
    apply (Hrow b Hb).
Qed.

Lemma initGrid_palette (width : R) (diff : Difficulty) (keep : Z -> Z -> bool)
    (rnd : Z -> Z -> nat) (g : Game) :
  In (selectedColor g) COLOR_KEYS -> paletteState (initGrid width diff keep rnd g).
Proof.
  intros Hsel.
  assert (Htok : paletteTokens (bubbles (initGrid width diff keep rnd g))).
  { intros b Hb _. apply initGrid_bubbles in Hb.
    destruct Hb as [r [c [_ [_ [_ ->]]]]]. cbn [Bubble.color]. apply drawColor_in_palette. }
  split; [exact Htok|].
  unfold initGrid in *. cbv zeta in *.
  match goal with
  | |- In (selectedColor (updateAvailableColors ?s)) _ =>
    destruct (updateAvailableColors_selected s) as [E | [b [Hb [Ha E]]]];
      [rewrite E; exact Hsel|]
  end.
  rewrite <- E. apply Htok; [|exact Ha].
  rewrite bubbles_updateAvailableColors. exact Hb.
Qed.

Lemma skipTurn_palette (difficulty : Difficulty) (canvas : option R) (now : Z)
    (rnd : Z -> nat) (g : Game) :
  paletteState g -> paletteState (skipTurn difficulty canvas now rnd g).
Proof.
  intros H. unfold skipTurn. cbv zeta.
  apply paletteState_frame with
    (g := if Z.rem (shotsTaken (setShotsTaken (setShowSkipConfirm g false)
                                  (shotsTaken (setShowSkipConfirm g false) + 1)))
                   (newRowFrequency (DIFFICULTY_SETTINGS difficulty)) =? 0
          then match canvas with
               | Some width =>
                 addNewRow width now rnd
                   (setShotsTaken (setShowSkipConfirm g false)
                      (shotsTaken (setShowSkipConfirm g false) + 1))
               | None => setShotsTaken (setShowSkipConfirm g false)
                           (shotsTaken (setShowSkipConfirm g false) + 1)
               end
          else setShotsTaken (setShowSkipConfirm g false)
                 (shotsTaken (setShowSkipConfirm g false) + 1));
    [reflexivity | reflexivity |].
  destruct (Z.rem _ _ =? 0); [|exact H].
  destruct canvas as [width|]; [|exact H].
  apply addNewRow_palette. exact H.
Qed.

Lemma releaseShot_palette (difficulty : Difficulty) (width : R) (now : Z)
    (rnd : Z -> nat) (isLocked : bool) (g : Game) :
  paletteState g -> paletteState (releaseShot difficulty width now rnd isLocked g).
Proof.
  intros H. unfold releaseShot. destruct (negb isLocked); [|exact H].
  cbv zeta. destruct (Rlt_dec 30 _); [|exact H].
  destruct (Z.rem _ _ =? 0); [|exact H].
  apply addNewRow_palette. exact H.
Qed.

Lemma deactivate_palette (matches bs : list Bubble.t) :
  paletteTokens bs -> paletteTokens (deactivate matches bs).
Proof.
  intros H b' Hb' Ha. unfold deactivate in Hb'. apply in_map_iff in Hb'.
  destruct Hb' as [b [<- Hb]].
  destruct (hasId matches (Bubble.id b)); [discriminate Ha|].
  exact (H b Hb Ha).
Qed.

Lemma resolveCollision_palette (difficulty : Difficulty) (width : R) (now : Z) (g : Game) :
  paletteState g ->
  exists g', resolveCollision difficulty width now g = Returns g' /\ paletteState g'.
Proof.
  intros [Htok Hsel]. rewrite resolveCollision_unfold.
  set (newB := landedToken width now g).
  set (g1 := setBubbles (setFlight g false (ballPos g) (ballVel g)) (bubbles g ++ [newB])).
  set (bonus := snd (accuracy _ _ _)).
  assert (H1 : paletteState g1).
  { split; [|exact Hsel]. cbn [g1 bubbles setBubbles].
    intros b Hb Ha. apply in_app_iff in Hb. destruct Hb as [Hb | [<- | []]];
      [exact (Htok b Hb Ha) | exact Hsel]. }
  destruct (findMatches_total (bubbles g1) newB) as [[matches visited] Hf].
  pose proof Hsel as Hcfg. apply COLOR_KEYS_in_table in Hcfg.
  destruct (COLOR_CONFIG (selectedColor g)) as [cfg|] eqn:Ec; [|congruence].
  rewrite (checkMatches_returns difficulty bonus newB g1 cfg matches visited Hf Ec).
  cbn [bind]. eexists. split; [reflexivity|].
  apply paletteState_frame with
    (g := updateAvailableColors
            (if 3 <=? Z.of_nat (List.length matches)
             then setScore (setBubbles g1 (deactivate matches (bubbles g1)))
                           (score g1 + pointsFor difficulty bonus
                                         (Z.of_nat (List.length matches)) (points cfg))
             else g1));
    [reflexivity | reflexivity |].
  apply updateAvailableColors_palette.
  destruct (3 <=? Z.of_nat (List.length matches)); [|exact H1].
  split; [|exact Hsel]. cbn [bubbles setScore setBubbles].
  apply deactivate_palette. apply H1.
Qed.

Lemma flightFrame_palette (difficulty : Difficulty) (width : R) (now : Z)
    (elapsed : R) (g : Game) :
  paletteState g ->
  exists g', flightFrame difficulty width now elapsed g = Returns g' /\ paletteState g'.
Proof.
  intros H. unfold flightFrame.
  destruct (isFlying g); [|exists g; split; [reflexivity | exact H]].
  destruct (Rlt_dec 5000 elapsed); [eexists; split; [reflexivity | exact H]|].
  cbv zeta. destruct (collision _).
  - apply resolveCollision_palette. exact H.
  - eexists. split; [reflexivity | exact H].
Qed.

Lemma applyHint_palette (canvas : option R) (hint : StrategicHint) (g : Game) :
  hintInPalette hint -> paletteState g -> paletteState (applyHint canvas hint g).
Proof.
  intros Hh [Htok Hsel]. split.
  - destruct (applyHint_frame canvas hint g) as [Hb _]. rewrite Hb. exact Htok.
  - unfold applyHint, hintInPalette in *.
    destruct (targetRow hint), (targetCol hint), (recommendedColor hint) as [color|],
             (truthy (suggestSkip hint));
      try (destruct (String.eqb color "") eqn:Eb); cbn; trivial;
      apply String.eqb_neq in Eb; destruct (Hh color eq_refl) as [E | E];
      tauto.
Qed.

Lemma engineStep_palette (width : R) (g g' : Game) :
  engineStep width g g' -> paletteState g -> paletteState g'.
Proof.
  intros Hstep H.
  destruct Hstep as [diff keep rnd | difficulty now rnd isLocked
                     | difficulty now elapsed g' Hf | difficulty canvas now rnd
                     | color Hc | canvas hint Hh].
  - apply initGrid_palette. apply H.
  - apply releaseShot_palette. exact H.
  - destruct (flightFrame_palette difficulty width now elapsed g H) as [g2 [E H2]].
    congruence.
  - apply skipTurn_palette. exact H.
  - split; [exact (proj1 H)|]. cbn [selectedColor setSelectedColor].
    unfold colorButtons in Hc. apply filter_In in Hc. apply Hc.
  - apply applyHint_palette; assumption.
Qed.

Lemma drawTokens_acc (bs : list Bubble.t) :
  forall drawn : list string,
    let out := fold_left (fun acc b =>
                            drawn <- acc ;;
                            if Bubble.active b
                            then baseColor <- drawBubble (Bubble.color b) ;;
                                 Returns (drawn ++ [baseColor])
                            else Returns drawn)
                         bs (Returns drawn) in
    (paletteTokens bs /\ exists l, out = Returns l) \/
    ((exists b, In b bs /\ Bubble.active b = true /\ COLOR_CONFIG (Bubble.color b) = None) /\
     out = Throws).
Proof.
  induction bs as [|b r IH]; intros drawn; cbn [fold_left].
  - left. split; [intros b [] | exists drawn; reflexivity].
  - cbn [bind]. destruct (Bubble.active b) eqn:Ea.
    + unfold drawBubble. destruct (COLOR_CONFIG (Bubble.color b)) as [cfg|] eqn:Ec;
        cbn [bind].
      * destruct (IH (drawn ++ [hex cfg])) as [[Htok Hret] | [[b' [Hb' H']] Hthrow]].
        -- left. split; [|exact Hret].
           intros x [<- | Hx] Hax; [apply COLOR_KEYS_in_table; congruence | exact (Htok x Hx Hax)].
        -- right. split; [|exact Hthrow]. exists b'. split; [right; exact Hb' | exact H'].
      * right. split; [exists b; split; [left; reflexivity | split; assumption]|].
        apply fold_left_Throws. reflexivity.
    + destruct (IH drawn) as [[Htok Hret] | [[b' [Hb' H']] Hthrow]].
      * left. split; [|exact Hret].
        intros x [<- | Hx] Hax; [congruence | exact (Htok x Hx Hax)].
      * right. split; [|exact Hthrow]. exists b'. split; [right; exact Hb' | exact H'].
Qed.

Lemma drawFrame_returns (aiRecommendedColor : option BubbleColor) (g : Game) :
  paletteState g -> exists v, drawFrame aiRecommendedColor g = Returns v.
Proof.
  intros [Htok Hsel]. unfold drawFrame.
  destruct (drawTokens_acc (bubbles g) []) as [[_ [l Hl]] | [[b [Hb [Ha Hnone]]] _]].
  - cbv zeta in Hl. fold (drawTokens (bubbles g)) in Hl. rewrite Hl. cbn [bind].
    apply COLOR_KEYS_in_table in Hsel.
    unfold aimLineColor, drawBubble. cbv zeta.
    destruct (COLOR_CONFIG (selectedColor g)) as [cfg|]; [|congruence].
    destruct (_ || _); [destruct (isAiThinking g)|]; cbn [bind]; eexists; reflexivity.
  - exfalso. specialize (Htok b Hb Ha). apply COLOR_KEYS_in_table in Htok. contradiction.
Qed.

Lemma getAllReachableClusters_palette (anchor : Point) (containerWidth : R)
    (bs : list Bubble.t) :
  paletteTokens bs ->
  exists cs, getAllReachableClusters anchor containerWidth bs = Returns cs.
Proof.
  intros Hpal.
  pose proof (getAllReachableClusters_outcome anchor containerWidth bs) as Hmain.
  destruct (getAllReachableClusters anchor containerWidth bs) as [cs | |];
    cbn [outcomeIs] in Hmain; [exists cs; reflexivity | | contradiction].
  exfalso. destruct Hmain as [h [Hin [Ha [_ Hnone]]]].
  specialize (Hpal h Hin Ha). apply COLOR_KEYS_in_table in Hpal. contradiction.
Qed.

Lemma engineRuns_palette (width : R) (g g' : Game) :
  engineRuns width g g' -> paletteState g -> paletteState g'.
Proof.
  intros Hruns H. induction Hruns as [|g1 g2 _ IH Hstep]; [exact H|].
  apply (engineStep_palette width g1 g2 Hstep IH).
Qed.

(** X19.  The colours stay in the palette.  From a state in which the
    active tokens and the selected colour have palette colours, no new
    grid, release, frame of flight, skip, click on a colour button or hint
    with a palette colour leads out of such states; and in such a state no
    look-up in the colour table fails: the drawing of a frame, a frame of
    flight, the resolution of a collision and the cluster search all
    return. *)
Theorem palette_is_kept (width : R) (g g' : Game) :
  paletteState g -> engineRuns width g g' ->
  paletteState g' /\
  (forall aiRecommendedColor, exists v, drawFrame aiRecommendedColor g' = Returns v) /\
  (forall difficulty now elapsed,
      exists g'', flightFrame difficulty width now elapsed g' = Returns g'') /\
  (forall difficulty now,
      exists g'', resolveCollision difficulty width now g' = Returns g'') /\
  (forall anchor containerWidth,
      exists cs, getAllReachableClusters anchor containerWidth (bubbles g') = Returns cs).
Proof.
  intros H Hruns. pose proof (engineRuns_palette width g g' Hruns H) as H'.
  split; [exact H'|]. split; [|split; [|split]].
  - intros seen. apply drawFrame_returns. exact H'.
  - intros difficulty now elapsed.
    destruct (flightFrame_palette difficulty width now elapsed g' H') as [g2 [E _]].
    exists g2. exact E.
  - intros difficulty now.
    destruct (resolveCollision_palette difficulty width now g' H') as [g2 [E _]].
    exists g2. exact E.
  - intros anchor containerWidth. apply getAllReachableClusters_palette. apply H'.
Qed.

Lemma emptyGame_palette : paletteState emptyGame.
Proof. split; [intros b [] | left; reflexivity]. Qed.

Lemma palette_is_kept_witness :
  paletteState (skipTurn very_hard (Some 1000%R) 7 (fun _ => 4%nat)
                  (initGrid 1000 very_hard (fun _ _ => true) (fun r c => Z.to_nat (r + c))
                            emptyGame)) /\
  (forall aiRecommendedColor,
      exists v,
        drawFrame aiRecommendedColor
          (skipTurn very_hard (Some 1000%R) 7 (fun _ => 4%nat)
             (initGrid 1000 very_hard (fun _ _ => true) (fun r c => Z.to_nat (r + c))
                       emptyGame))
        = Returns v).
Proof.
  pose proof (palette_is_kept 1000 emptyGame
                (skipTurn very_hard (Some 1000%R) 7 (fun _ => 4%nat)
                   (initGrid 1000 very_hard (fun _ _ => true) (fun r c => Z.to_nat (r + c))
                             emptyGame))
                emptyGame_palette
                (runs_on 1000 emptyGame _ _
                   (runs_on 1000 emptyGame _ _ (runs_here 1000 emptyGame)
                      (step_init 1000 emptyGame very_hard (fun _ _ => true)
                                 (fun r c => Z.to_nat (r + c))))
                   (step_skip 1000 _ very_hard (Some 1000%R) 7 (fun _ => 4%nat))))
    as H.
  exact (conj (proj1 H) (proj1 (proj2 H))).
Defined.

(** X20.  The drawing of a frame and the colour table.  The drawing
    never runs out of fuel, and it throws exactly when some active token,
    or the colour the handler reads as the selected one, has a colour the
    table lacks; otherwise it returns the colours it drew. *)
Theorem drawFrame_throws (aiRecommendedColor : option BubbleColor) (g : Game) :
  (drawFrame aiRecommendedColor g = Throws <->
   (exists b, In b (bubbles g) /\ Bubble.active b = true /\
              COLOR_CONFIG (Bubble.color b) = None) \/
   COLOR_CONFIG (selectedColor g) = None) /\
  drawFrame aiRecommendedColor g <> OutOfFuel.
Proof.
  unfold drawFrame.
  destruct (drawTokens_acc (bubbles g) []) as [[Htok [l Hl]] | [Hex Hthrow]];
    cbv zeta in *; fold (drawTokens (bubbles g)) in *.
  - rewrite Hl. cbn [bind]. unfold aimLineColor, drawBubble. cbv zeta.
    destruct (COLOR_CONFIG (selectedColor g)) as [cfg|] eqn:Ec.
    + assert (Hret : exists v,
                 (line <- (if (match aimTarget g with Some _ => true | None => false end
                               && negb (isFlying g)
                               && match aiRecommendedColor with
                                  | Some c0 => String.eqb c0 "" || String.eqb c0 (selectedColor g)
                                  | None => true
                                  end) || isAiThinking g
                           then if isAiThinking g then Returns (Some "#a8c7fa"%string)
                                else Returns (Some (hex cfg))
                           else Returns None) ;;
                  ball <- Returns (hex cfg) ;; Returns (l, line, ball)) = Returns v).
      { destruct (_ || _); [destruct (isAiThinking g)|]; cbn [bind]; eexists; reflexivity. }
      destruct Hret as [v Hv]. rewrite Hv. split; [|discriminate].
      split; [discriminate|]. intros [[b [Hb [Ha Hnone]]] | Hnone]; [|discriminate].
      exfalso. specialize (Htok b Hb Ha). apply COLOR_KEYS_in_table in Htok. contradiction.
    + split.
      * split; [intros _; right; reflexivity|]. intros _.
        destruct (_ || _); [destruct (isAiThinking g)|]; reflexivity.
      * destruct (_ || _); [destruct (isAiThinking g)|]; discriminate.
  - rewrite Hthrow. cbn [bind]. split; [|discriminate].
    split; [intros _; left; exact Hex | reflexivity].
Qed.

(** X21.  Which hints carry a palette colour.  Built from the candidates
    of the cluster search, the hint of the service has a palette colour or
    none whenever it comes from the fallback or there is no API key; the
    hint of a parsed reply has one exactly when the reply's colour,
    lower-cased, is blank or of the palette.  So only a parsed reply can
    bring a colour outside the palette into the state. *)
Theorem service_hints_in_palette (beyondAscii : string -> string)
    (anchor : Point) (containerWidth : R)
    (bs : list Bubble.t) (cs : list TargetCandidate.t) (aiReady : bool)
    (reply : ServiceReply) :
  getAllReachableClusters anchor containerWidth bs = Returns cs ->
  (aiReady = false \/ failedReply reply = true ->
   hintInPalette (getStrategicHint beyondAscii aiReady cs reply)) /\
  (forall (json : JsonFields) (s : string),
      aiReady = true -> reply = BodyParsed json ->
      json_recommendedColor json = JString s ->
      (hintInPalette (getStrategicHint beyondAscii aiReady cs reply) <->
       toLowerCase beyondAscii s = ""%string \/
       In (toLowerCase beyondAscii s) COLOR_KEYS)).
Proof.
  intros Hcs. split.
  - intros Hcase c Hc. right.
    destruct aiReady.
    + destruct Hcase as [Hcase | Hfail]; [discriminate|].
      destruct (getStrategicHint_failed beyondAscii cs reply Hfail) as [msg [_ Ehint]].
      rewrite Ehint in Hc. unfold getBestLocalTarget in Hc.
      destruct (sortBy compareTargets cs) as [|best r] eqn:Es; [discriminate|].
      cbn [recommendedColor] in Hc. injection Hc as <-.
      assert (Hbest : In best cs)
        by (apply (sortBy_In compareTargets); rewrite Es; left; reflexivity).
      pose proof (getAllReachableClusters_outcome anchor containerWidth bs) as Hout.
      rewrite Hcs in Hout. cbn [outcomeIs] in Hout. rewrite Forall_forall in Hout.
      destruct (Hout best Hbest) as [h [cfg [_ [_ [_ [_ [Hcolor [_ [_ [Hcfg _]]]]]]]]]].
      rewrite Hcolor. apply COLOR_KEYS_in_table. congruence.
    + discriminate Hc.
  - intros json s -> -> Hs. unfold getStrategicHint, hintInPalette. cbn [negb].
    rewrite Hs. cbn [lowerCased recommendedColor]. split.
    + intros H. apply H. reflexivity.
    + intros H c Hc. injection Hc as <-. exact H.
Qed.

Lemma service_hints_witness :
  hintInPalette
    (getStrategicHint asciiCaseOnly true
       [TargetCandidate.mk "12-5" "red" 1 12 5 100
          (describeSide (Bubble.x nearToken / 1000))] RequestFailed).
Proof.
  exact (proj1 (service_hints_in_palette asciiCaseOnly nearAnchor 1000 [nearToken]
                  [TargetCandidate.mk "12-5" "red" 1 12 5 100
                     (describeSide (Bubble.x nearToken / 1000))]
                  true RequestFailed
                  (single_token_clusters nearAnchor 1000 nearToken
                     (mkColorEntry "#ef5350" 100 "Red") eq_refl nearToken_clear eq_refl))
               (or_intror eq_refl)).
Defined.

(** ** How long a flight lasts *)

Lemma resolveCollision_lands (difficulty : Difficulty) (width : R) (now : Z)
    (g g' : Game) :
  resolveCollision difficulty width now g = Returns g' -> isFlying g' = false.
Proof.
  rewrite resolveCollision_unfold.
  destruct (checkMatches _ _ _ _) as [g2 | |]; cbn [bind]; try discriminate.
  intros H. injection H as <-. reflexivity.
Qed.

Lemma flightFrame_at_rest (difficulty : Difficulty) (width : R) (now : Z)
    (elapsed : R) (g : Game) :
  isFlying g = false -> flightFrame difficulty width now elapsed g = Returns g.
Proof. intros H. unfold flightFrame. rewrite H. reflexivity. Qed.

Lemma flightFrames_at_rest (difficulty : Difficulty) (width : R)
    (inputs : list (Z * R)) (g : Game) :
  isFlying g = false -> flightFrames difficulty width inputs g = Returns g.
Proof.
  intros H. induction inputs as [|[now elapsed] rest IH]; [reflexivity|].
  cbn [flightFrames]. rewrite flightFrame_at_rest by exact H. exact IH.
Qed.

Lemma flightFrame_still_flying (difficulty : Difficulty) (width : R) (now : Z)
    (elapsed : R) (g g' : Game) :
  isFlying g = true ->
  flightFrame difficulty width now elapsed g = Returns g' ->
  isFlying g' = true ->
  (elapsed <= 5000)%R /\
  bubbles g' = bubbles g /\ score g' = score g /\ shotsTaken g' = shotsTaken g /\
  py (ballVel g') = py (ballVel g) /\
  py (ballPos g') = (py (ballPos g) + py (ballVel g))%R /\
  (py (ballVel g) <> 0%R -> (BUBBLE_RADIUS <= py (ballPos g'))%R).
Proof.
  intros Hf E Hf'. unfold flightFrame in E. rewrite Hf in E.
  destruct (Rlt_dec 5000 elapsed) as [Hlt | Hle].
  { injection E as <-. discriminate Hf'. }
  cbv zeta in E.
  set (steps := flightSteps (ballVel g)) in *.
  pose proof (flightLoop_inv (Z.to_nat steps) (bubbles g) width steps
                (ballPos g) (ballVel g)) as Hinv.
  set (f := flightLoop (Z.to_nat steps) (bubbles g) width steps (ballPos g) (ballVel g)) in *.
  destruct Hinv as [Hvy [_ [Hno _]]].
  destruct (flightSteps_bounds (ballVel g)) as [H0 [_ Hz]]. fold steps in H0, Hz.
  destruct (collision f) eqn:Ec.
  { apply resolveCollision_lands in E. congruence. }
  injection E as <-. destruct (Hno eq_refl) as [Hpy Hclear].
  cbn [setFlight bubbles score shotsTaken ballPos ballVel].
  split; [lra|]. split; [reflexivity|]. split; [reflexivity|]. split; [reflexivity|].
  split; [exact Hvy|]. split.
  - rewrite Hpy. rewrite INR_IZR_INZ, Z2Nat.id by exact H0.
    destruct (Z.eq_dec steps 0) as [E0 | Hne].
    + destruct (Hz E0) as [_ Hy0]. rewrite Hy0. unfold Rdiv. ring.
    + assert (IZR steps <> 0%R) by (apply not_0_IZR; exact Hne). field. assumption.
  - intros Hvy0. apply Hclear. intros E0.
    assert (steps = 0) by lia. destruct (Hz H) as [_ Hy0]. contradiction.
Qed.

(** X22.  A ball shot upward cannot stay in flight for long.  If the
    ball is still flying after a run of frames, then none of the frames
    came later than five seconds after the launch, the grid, the score and
    the shot counter are as they were, and the ball has risen by its
    vertical speed in every frame without passing the top boundary: the
    number of frames times the rise per frame is at most the height of the
    ball over the boundary at the start. *)
Theorem flight_is_bounded (difficulty : Difficulty) (width : R)
    (inputs : list (Z * R)) (g g' : Game) :
  isFlying g = true -> (py (ballVel g) < 0)%R ->
  flightFrames difficulty width inputs g = Returns g' ->
  isFlying g' = true ->
  Forall (fun i => (snd i <= 5000)%R) inputs /\
  bubbles g' = bubbles g /\ score g' = score g /\ shotsTaken g' = shotsTaken g /\
  py (ballVel g') = py (ballVel g) /\
  py (ballPos g') = (py (ballPos g) + INR (List.length inputs) * py (ballVel g))%R /\
  (inputs <> [] ->
   (INR (List.length inputs) * - py (ballVel g) <= py (ballPos g) - BUBBLE_RADIUS)%R).
Proof.
  revert g. induction inputs as [|[now elapsed] rest IH]; intros g Hf Hvy E Hf'.
  - cbn [flightFrames] in E. injection E as <-. cbn [List.length INR].
    split; [constructor|]. repeat (split; [reflexivity|]).
    split; [ring | intros H; contradiction H; reflexivity].
  - cbn [flightFrames] in E.
    destruct (flightFrame difficulty width now elapsed g) as [g1 | |] eqn:E1;
      cbn [bind] in E; try discriminate.
    destruct (isFlying g1) eqn:Hf1.
    2:{ rewrite flightFrames_at_rest in E by exact Hf1. injection E as <-. congruence. }
    destruct (flightFrame_still_flying difficulty width now elapsed g g1 Hf E1 Hf1)
      as [He [Hb [Hs [Hn [Hv [Hp Htop]]]]]].
    assert (Hvy1 : (py (ballVel g1) < 0)%R) by (rewrite Hv; exact Hvy).
    destruct (IH g1 Hf1 Hvy1 E Hf') as [Hall [Hb' [Hs' [Hn' [Hv' [Hp' Hbound]]]]]].
    split; [constructor; [exact He | exact Hall]|].
    split; [congruence|]. split; [congruence|]. split; [congruence|].
    split; [congruence|].
    assert (Hpos : py (ballPos g')
                   = (py (ballPos g) + INR (List.length ((now, elapsed) :: rest))
                                       * py (ballVel g))%R).
    { rewrite Hp', Hp, Hv. cbn [List.length]. rewrite S_INR. ring. }
    split; [exact Hpos|].
    intros _. destruct rest as [|i rest'].
    + cbn [flightFrames] in E. injection E as <-.
      cbn [List.length INR]. specialize (Htop ltac:(lra)). lra.
    + specialize (Hbound ltac:(discriminate)).
      rewrite Hv, Hp in Hbound. cbn [List.length] in *. rewrite !S_INR in *.
      lra.
Qed.

Lemma risingBall_steps : flightSteps (ballVel risingBall) = 1.
Proof.
  unfold flightSteps, risingBall, BUBBLE_RADIUS. cbn [ballVel setFlight px py].
  replace (0 ^ 2 + (-10) ^ 2)%R with (10 * 10)%R by ring.
  rewrite sqrt_square by lra. apply Zceil_eq. lra.
Qed.

Lemma risingBall_frame :
  flightFrames medium 1000 [(0, 16%R)] risingBall
  = Returns (setFlight risingBall true
               (mkPoint (500 + 0 / 1) (500 + -10 / 1)) (mkPoint 0 (-10))).
Proof.
  cbn [flightFrames]. unfold flightFrame.
  change (isFlying risingBall) with true. cbv iota.
  destruct (Rlt_dec 5000 16) as [Hlt | _]; [lra|].
  cbv zeta. rewrite risingBall_steps.
  change (Z.to_nat 1) with 1%nat. cbn [flightLoop].
  unfold flightStep. change (ballPos risingBall) with (mkPoint 500 500).
  change (ballVel risingBall) with (mkPoint 0 (-10)).
  change (bubbles risingBall) with (@nil Bubble.t).
  cbn [px py]. unfold BUBBLE_RADIUS.
  destruct (Rlt_dec (500 + 0 / 1) 22) as [H1 | _]; [lra|].
  destruct (Rlt_dec (1000 - 22) (500 + 0 / 1)) as [H2 | _]; [lra|].
  destruct (Rlt_dec (500 + -10 / 1) 22) as [H3 | _]; [lra|].
  cbn [orb hitsToken existsb collision flightPos flightVel bind]. reflexivity.
Qed.

Lemma flight_is_bounded_witness :
  py (ballPos (setFlight risingBall true
                 (mkPoint (500 + 0 / 1) (500 + -10 / 1)) (mkPoint 0 (-10))))
  = (py (ballPos risingBall) + INR 1 * py (ballVel risingBall))%R.
Proof.
  exact (proj1 (proj2 (proj2 (proj2 (proj2 (proj2
           (flight_is_bounded medium 1000 [(0, 16%R)] risingBall
              (setFlight risingBall true
                 (mkPoint (500 + 0 / 1) (500 + -10 / 1)) (mkPoint 0 (-10)))
              eq_refl ltac:(cbn; lra) risingBall_frame eq_refl))))))).
Defined.

(** ** The ball at rest *)

Lemma settleBall_iter (n : nat) (g : Game) :
  let g' := Nat.iter n settleBall g in
  anchorPos g' = anchorPos g /\
  (px (ballPos g') - px (anchorPos g) = (85 / 100) ^ n * (px (ballPos g) - px (anchorPos g)))%R /\
  (py (ballPos g') - py (anchorPos g) = (85 / 100) ^ n * (py (ballPos g) - py (anchorPos g)))%R /\
  bubbles g' = bubbles g /\ score g' = score g /\ shotsTaken g' = shotsTaken g /\
  isFlying g' = isFlying g /\ ballVel g' = ballVel g /\
  selectedColor g' = selectedColor g.
Proof.
  cbv zeta. induction n as [|k IH].
  - cbn [Nat.iter nat_rect pow]. repeat apply conj; trivial; ring.
  - change (Nat.iter (S k) settleBall g) with (settleBall (Nat.iter k settleBall g)).
    destruct IH as [Ha [Hx [Hy [Hb [Hs [Hn [Hf [Hv Hc]]]]]]]].
    remember (Nat.iter k settleBall g) as s eqn:Es. clear Es.
    unfold settleBall.
    cbn [setFlight anchorPos ballPos px py bubbles score shotsTaken isFlying ballVel
         selectedColor].
    rewrite Ha.
    split; [reflexivity|]. split.
    { replace (px (ballPos s) + (px (anchorPos g) - px (ballPos s)) * (15 / 100)
               - px (anchorPos g))%R
        with ((85 / 100) * (px (ballPos s) - px (anchorPos g)))%R by field.
      rewrite Hx. cbn [pow]. ring. }
    split.
    { replace (py (ballPos s) + (py (anchorPos g) - py (ballPos s)) * (15 / 100)
               - py (anchorPos g))%R
        with ((85 / 100) * (py (ballPos s) - py (anchorPos g)))%R by field.
      rewrite Hy. cbn [pow]. ring. }
    repeat apply conj; assumption.
Qed.

(** X23.  A ball that is neither held nor flying settles on the anchor.
    Every frame takes its offset from the anchor to 85% of what it was, so
    after [n] frames the distance to the anchor is [0.85 ^ n] times the
    first one, and it falls below any positive bound; the grid, the score,
    the shot counter, the velocity and the selected colour are left
    alone. *)
Theorem settleBall_converges (g : Game) :
  (forall n : nat,
      let g' := Nat.iter n settleBall g in
      distance (px (ballPos g')) (py (ballPos g')) (px (anchorPos g)) (py (anchorPos g))
      = ((85 / 100) ^ n
         * distance (px (ballPos g)) (py (ballPos g))
                    (px (anchorPos g)) (py (anchorPos g)))%R /\
      anchorPos g' = anchorPos g /\ bubbles g' = bubbles g /\ score g' = score g /\
      shotsTaken g' = shotsTaken g /\ isFlying g' = isFlying g /\
      ballVel g' = ballVel g /\ selectedColor g' = selectedColor g) /\
  (forall eps : R, (0 < eps)%R ->
     exists N : nat, forall n : nat, (N <= n)%nat ->
       (distance (px (ballPos (Nat.iter n settleBall g)))
                 (py (ballPos (Nat.iter n settleBall g)))
                 (px (anchorPos g)) (py (anchorPos g)) < eps)%R).
Proof.
  assert (Hdist : forall n : nat,
             distance (px (ballPos (Nat.iter n settleBall g)))
                      (py (ballPos (Nat.iter n settleBall g)))
                      (px (anchorPos g)) (py (anchorPos g))
             = ((85 / 100) ^ n
                * distance (px (ballPos g)) (py (ballPos g))
                           (px (anchorPos g)) (py (anchorPos g)))%R).
  { intros n. destruct (settleBall_iter n g) as [_ [Hx [Hy _]]]. cbv zeta in Hx, Hy.
    unfold distance. rewrite Hx, Hy.
    replace (((85 / 100) ^ n * (px (ballPos g) - px (anchorPos g))) ^ 2
             + ((85 / 100) ^ n * (py (ballPos g) - py (anchorPos g))) ^ 2)%R
      with (((px (ballPos g) - px (anchorPos g)) ^ 2
             + (py (ballPos g) - py (anchorPos g)) ^ 2)
            * ((85 / 100) ^ n * (85 / 100) ^ n))%R by ring.
    assert (Hp : (0 <= (85 / 100) ^ n)%R) by (apply pow_le; lra).
    rewrite sqrt_mult_alt.
    - rewrite sqrt_square by exact Hp. ring.
    - pose proof (pow2_ge_0 (px (ballPos g) - px (anchorPos g))).
      pose proof (pow2_ge_0 (py (ballPos g) - py (anchorPos g))). lra. }
  split.
  - intros n. cbv zeta. split; [apply Hdist|].
    destruct (settleBall_iter n g) as [Ha [_ [_ [Hb [Hs [Hn [Hf [Hv Hc]]]]]]]].
    repeat apply conj; assumption.
  - intros eps Heps.
    set (d := distance (px (ballPos g)) (py (ballPos g))
                       (px (anchorPos g)) (py (anchorPos g))) in *.
    assert (Hd : (0 <= d)%R) by (unfold d, distance; apply sqrt_pos).
    destruct (Req_dec_T d 0) as [E0 | Hne].
    + exists 0%nat. intros n _. rewrite Hdist, E0. lra.
    + assert (Hdpos : (0 < d)%R) by lra.
      destruct (pow_lt_1_zero (85 / 100) ltac:(rewrite Rabs_right; lra) (eps / d)
                  ltac:(apply Rdiv_lt_0_compat; assumption)) as [N HN].
      exists N. intros n Hn. rewrite Hdist.
      specialize (HN n ltac:(lia)).
      rewrite Rabs_right in HN by (apply Rle_ge, pow_le; lra).
      apply Rmult_lt_compat_r with (r := d) in HN; [|exact Hdpos].
      unfold Rdiv in HN. rewrite Rmult_assoc, Rinv_l, Rmult_1_r in HN by lra.
      exact HN.
Qed.

(** ** The samples of the live audio *)

Lemma truncate_bounds (x : R) :
  ((0 <= x)%R -> 0 <= truncate x /\ (IZR (truncate x) <= x < IZR (truncate x) + 1)%R) /\
  ((x < 0)%R -> truncate x <= 0 /\ (x <= IZR (truncate x) < x + 1)%R).
Proof.
  unfold truncate. split; intros Hx.
  - destruct (Rlt_dec x 0) as [Hlt | _]; [lra|].
    pose proof (Zfloor_bound x) as Hb. split; [|exact Hb].
    apply Zfloor_lub. exact Hx.
  - destruct (Rlt_dec x 0) as [_ | Hge]; [|contradiction].
    pose proof (Zfloor_bound (- x)) as Hb.
    assert (H0 : 0 <= Zfloor (- x)) by (apply Zfloor_lub; lra).
    rewrite opp_IZR. split; [lia | lra].
Qed.

Lemma toInt16_range (x : R) : -32768 <= toInt16 x <= 32767.
Proof.
  unfold toInt16. cbv zeta.
  pose proof (Z.mod_pos_bound (truncate x) 65536 ltac:(lia)) as Hm.
  destruct (32768 <=? truncate x mod 65536) eqn:E;
    [apply Z.leb_le in E | apply Z.leb_gt in E]; lia.
Qed.

Lemma toInt16_small (x : R) :
  -32768 <= truncate x <= 32767 -> toInt16 x = truncate x.
Proof.
  intros Hr. unfold toInt16. cbv zeta.
  destruct (Z_lt_le_dec (truncate x) 0) as [Hneg | Hpos].
  - assert (Hm : truncate x mod 65536 = truncate x + 65536)
      by (symmetry; apply Z.mod_unique with (q := -1); [left; lia | lia]).
    rewrite Hm. destruct (32768 <=? truncate x + 65536) eqn:E;
      [lia | apply Z.leb_gt in E; lia].
  - rewrite Z.mod_small by lia.
    destruct (32768 <=? truncate x) eqn:E; [apply Z.leb_le in E; lia | reflexivity].
Qed.

Lemma truncate_integer (z : Z) : truncate (IZR z) = z.
Proof.
  unfold truncate. destruct (Rlt_dec (IZR z) 0).
  - rewrite ZfloorNZ. lia.
  - apply ZfloorZ.
Qed.

(** X24.  The samples sent to and received from the live session.  A
    stored sample is always a 16-bit value, and there are as many as there
    were samples.  For a sample in [-1, 1) the stored value is the sample
    times 32768 truncated towards zero, it keeps the sign, and decoding it
    gives the sample back to within one step of 1/32768; decoding and
    storing again gives every 16-bit value back exactly.  The full-scale
    sample 1 is stored as -32768 and decodes as -1. *)
Theorem pcm_samples (data : list R) :
  List.length (createBlob data) = List.length data /\
  (forall pcm, In pcm (createBlob data) -> -32768 <= pcm <= 32767) /\
  (forall sample : R, (-1 <= sample < 1)%R ->
     createBlob [sample] = [truncate (sample * 32768)] /\
     ((0 <= sample)%R -> 0 <= toInt16 (sample * 32768)) /\
     ((sample <= 0)%R -> toInt16 (sample * 32768) <= 0) /\
     (Rabs (decodeSample (toInt16 (sample * 32768)) - sample) < 1 / 32768)%R) /\
  (forall pcm : Z, -32768 <= pcm <= 32767 -> createBlob [decodeSample pcm] = [pcm]) /\
  createBlob [1%R] = [-32768] /\ decodeSample (-32768) = (-1)%R.
Proof.
  split; [apply length_map|]. split.
  { intros pcm Hin. unfold createBlob in Hin. apply in_map_iff in Hin.
    destruct Hin as [s [<- _]]. apply toInt16_range. }
  split.
  { intros sample Hs.
    set (x := (sample * 32768)%R).
    assert (Hx : (-32768 <= x < 32768)%R) by (unfold x; lra).
    destruct (truncate_bounds x) as [Hpos Hneg].
    assert (Hr : -32768 <= truncate x <= 32767).
    { destruct (Rlt_dec x 0) as [Hlt | Hge].
      - destruct (Hneg Hlt) as [H0 Hb].
        assert (H1 : (IZR (-32768) <= IZR (truncate x))%R) by lra.
        apply le_IZR in H1. lia.
      - destruct (Hpos ltac:(lra)) as [H0 Hb].
        assert (H1 : (IZR (truncate x) < IZR 32768)%R) by lra.
        apply lt_IZR in H1. lia. }
    pose proof (toInt16_small x Hr) as Hsmall.
    split; [cbn [createBlob map]; fold x; rewrite Hsmall; reflexivity|].
    rewrite Hsmall. split.
    { intros H0. destruct (Hpos ltac:(unfold x; lra)) as [Hn _]. exact Hn. }
    split.
    { intros H0. destruct (Rlt_dec x 0) as [Hlt | Hge].
      - apply (Hneg Hlt).
      - assert (Ex : x = 0%R) by (unfold x in *; lra).
        rewrite Ex. change 0%R with (IZR 0). rewrite truncate_integer. lia. }
    unfold decodeSample.
    assert (Hclose : (-1 < IZR (truncate x) - x < 1)%R).
    { destruct (Rlt_dec x 0) as [Hlt | Hge].
      - destruct (Hneg Hlt) as [_ Hb]. lra.
      - destruct (Hpos ltac:(lra)) as [_ Hb]. lra. }
    replace (IZR (truncate x) / 32768 - sample)%R
      with ((IZR (truncate x) - x) / 32768)%R by (unfold x; field).
    apply Rabs_def1; lra. }
  split.
  { intros pcm Hr. cbn [createBlob map]. unfold decodeSample.
    replace (IZR pcm / 32768 * 32768)%R with (IZR pcm) by field.
    rewrite toInt16_small; rewrite truncate_integer; [reflexivity | exact Hr]. }
  split.
  - cbn [createBlob map]. replace (1 * 32768)%R with (IZR 32768) by lra.
    unfold toInt16. rewrite truncate_integer. reflexivity.
  - unfold decodeSample. lra.
Qed.

(** ** The side walls *)

Lemma flightStep_onCourt (bs : list Bubble.t) (width : R) (steps : Z) (pos vel : Point) :
  0 < steps -> (2 * BUBBLE_RADIUS <= width)%R ->
  onCourt width steps pos vel ->
  onCourt width steps (flightPos (flightStep bs width steps pos vel))
          (flightVel (flightStep bs width steps pos vel)).
Proof.
  intros Hs Hw Hc. rewrite flightStep_pos.
  assert (Hn : (0 < / IZR steps)%R) by (apply Rinv_0_lt_compat, IZR_lt; exact Hs).
  set (d := (px vel / IZR steps)%R).
  assert (Hd : (d = px vel * / IZR steps)%R) by reflexivity.
  assert (Hvel : flightVel (flightStep bs width steps pos vel)
                 = if (if Rlt_dec (px pos + d) BUBBLE_RADIUS then true else false)
                      || (if Rlt_dec (width - BUBBLE_RADIUS) (px pos + d) then true else false)
                   then mkPoint (px vel * -1) (py vel) else vel).
  { unfold flightStep. cbn [px py]. fold d.
    destruct (Rlt_dec (py pos + py vel / IZR steps) BUBBLE_RADIUS); reflexivity. }
  rewrite Hvel. clear Hvel. unfold onCourt in *. cbn [px py]. fold d.
  assert (Hflip : (px vel * -1 / IZR steps = - d)%R) by (unfold d, Rdiv; ring).
  assert (Hsign : ((0 < px vel -> 0 < d) /\ (px vel < 0 -> d < 0)
                   /\ (0 < d -> 0 < px vel) /\ (d < 0 -> px vel < 0))%R).
  { rewrite Hd. repeat apply conj; intros H; nra. }
  destruct Hsign as [Hs1 [Hs2 [Hs3 Hs4]]].
  destruct (Rlt_dec (px pos + d) BUBBLE_RADIUS) as [Hl | Hl];
    destruct (Rlt_dec (width - BUBBLE_RADIUS) (px pos + d)) as [Hr | Hr];
    cbn [orb px py]; try rewrite Hflip.
  - lra.
  - right. left. destruct Hc as [Hc | [[Hv Hc] | [Hv Hc]]].
    + assert (d < 0)%R by lra. split; [|lra]. pose proof (Hs4 H). lra.
    + pose proof (Hs1 Hv). lra.
    + pose proof (Hs2 Hv). lra.
  - right. right. destruct Hc as [Hc | [[Hv Hc] | [Hv Hc]]].
    + assert (0 < d)%R by lra. split; [|lra]. pose proof (Hs3 H). lra.
    + pose proof (Hs1 Hv). split; lra.
    + pose proof (Hs2 Hv). lra.
  - left. lra.
Qed.

Lemma flightLoop_onCourt (n : nat) (bs : list Bubble.t) (width : R) (steps : Z) :
  0 < steps -> (2 * BUBBLE_RADIUS <= width)%R ->
  forall pos vel,
    onCourt width steps pos vel ->
    onCourt width steps (flightPos (flightLoop n bs width steps pos vel))
            (flightVel (flightLoop n bs width steps pos vel)).
Proof.
  intros Hs Hw. induction n as [|k IH]; intros pos vel Hc; cbn [flightLoop].
  - exact Hc.
  - pose proof (flightStep_onCourt bs width steps pos vel Hs Hw Hc) as H1.
    destruct (collision (flightStep bs width steps pos vel)); [exact H1|].
    apply IH. exact H1.
Qed.

Lemma onCourt_on_canvas (width : R) (pos vel vel0 : Point) :
  0 < flightSteps vel0 -> (2 * BUBBLE_RADIUS <= width)%R ->
  (px vel ^ 2 + py vel ^ 2 = px vel0 ^ 2 + py vel0 ^ 2)%R ->
  onCourt width (flightSteps vel0) pos vel ->
  (BUBBLE_RADIUS * (2 / 10) <= px pos <= width - BUBBLE_RADIUS * (2 / 10))%R.
Proof.
  intros Hs Hw Hsp Hc.
  destruct (flightSteps_bounds vel0) as [_ [Hle _]].
  set (n := IZR (flightSteps vel0)) in *.
  assert (Hn : (0 < n)%R) by (unfold n; apply IZR_lt; exact Hs).
  assert (Hvx : (Rabs (px vel) <= sqrt (px vel0 ^ 2 + py vel0 ^ 2))%R).
  { rewrite <- Hsp. rewrite <- sqrt_Rsqr_abs. apply sqrt_le_1_alt.
    unfold Rsqr. pose proof (pow2_ge_0 (py vel)). lra. }
  assert (Hstep : (Rabs (px vel) / n <= BUBBLE_RADIUS * (8 / 10))%R).
  { apply Rmult_le_reg_r with (r := n); [exact Hn|].
    unfold Rdiv. rewrite Rmult_assoc, Rinv_l by lra. lra. }
  assert (Habs : (px vel / n <= Rabs (px vel) / n /\ - (px vel / n) <= Rabs (px vel) / n)%R).
  { assert (Hin : (0 < / n)%R) by (apply Rinv_0_lt_compat; exact Hn).
    unfold Rdiv. pose proof (Rle_abs (px vel)). pose proof (Rle_abs (- px vel)) as H2.
    rewrite Rabs_Ropp in H2. split; nra. }
  unfold onCourt in Hc. fold n in Hc. unfold BUBBLE_RADIUS in *.
  destruct Hc as [Hc | [[Hv Hc] | [Hv Hc]]]; lra.
Qed.

Lemma flightSteps_same_speed (vel vel' : Point) :
  (px vel' ^ 2 + py vel' ^ 2 = px vel ^ 2 + py vel ^ 2)%R ->
  flightSteps vel' = flightSteps vel.
Proof. intros H. unfold flightSteps. rewrite H. reflexivity. Qed.

Lemma flightFrame_no_collision (difficulty : Difficulty) (width : R) (now : Z)
    (elapsed : R) (g g' : Game) :
  isFlying g = true ->
  flightFrame difficulty width now elapsed g = Returns g' ->
  isFlying g' = true ->
  g' = setFlight g true
         (flightPos (flightLoop (Z.to_nat (flightSteps (ballVel g))) (bubbles g) width
                                (flightSteps (ballVel g)) (ballPos g) (ballVel g)))
         (flightVel (flightLoop (Z.to_nat (flightSteps (ballVel g))) (bubbles g) width
                                (flightSteps (ballVel g)) (ballPos g) (ballVel g))).
Proof.
  intros Hf E Hf'. unfold flightFrame in E. rewrite Hf in E.
  destruct (Rlt_dec 5000 elapsed) as [Hlt | Hle].
  { injection E as <-. discriminate Hf'. }
  cbv zeta in E. destruct (collision _) eqn:Ec.
  { apply resolveCollision_lands in E. congruence. }
  injection E as <-. reflexivity.
Qed.

Lemma onCourt_bounds (width : R) (pos vel vel0 : Point) :
  (2 * BUBBLE_RADIUS <= width)%R ->
  (px vel ^ 2 + py vel ^ 2 = px vel0 ^ 2 + py vel0 ^ 2)%R ->
  onCourt width (flightSteps vel0) pos vel ->
  (BUBBLE_RADIUS * (2 / 10) <= px pos <= width - BUBBLE_RADIUS * (2 / 10))%R.
Proof.
  intros Hw Hsp Hc.
  destruct (flightSteps_bounds vel0) as [H0 [_ Hz]].
  destruct (Z.eq_dec (flightSteps vel0) 0) as [E0 | Hne].
  - destruct (Hz E0) as [Hx0 Hy0]. rewrite Hx0, Hy0 in Hsp.
    assert (Hvx : px vel = 0%R).
    { pose proof (pow2_ge_0 (px vel)). pose proof (pow2_ge_0 (py vel)).
      assert (H2 : (px vel ^ 2 = 0)%R) by lra.
      apply Rmult_integral in H2. destruct H2 as [H2 | H2]; [exact H2|]. lra. }
    unfold onCourt in Hc. rewrite Hvx in Hc. unfold BUBBLE_RADIUS in *.
    destruct Hc as [Hc | [[Hv _] | [Hv _]]]; lra.
  - apply (onCourt_on_canvas width pos vel vel0); trivial. lia.
Qed.

(** X25.  The side walls keep the ball on the canvas.  On a canvas at
    least two radii wide, a ball launched between the walls and still
    flying after a run of frames has kept its speed, is between the walls
    or past one of them by no more than the step it has just made, already
    turned back; its centre is never nearer than 0.2 radii to an edge of
    the canvas. *)
Theorem walls_keep_ball_on_canvas (difficulty : Difficulty) (width : R)
    (inputs : list (Z * R)) (g g' : Game) :
  isFlying g = true ->
  (2 * BUBBLE_RADIUS <= width)%R ->
  (BUBBLE_RADIUS <= px (ballPos g) <= width - BUBBLE_RADIUS)%R ->
  flightFrames difficulty width inputs g = Returns g' ->
  isFlying g' = true ->
  (px (ballVel g') ^ 2 + py (ballVel g') ^ 2
   = px (ballVel g) ^ 2 + py (ballVel g) ^ 2)%R /\
  onCourt width (flightSteps (ballVel g)) (ballPos g') (ballVel g') /\
  (BUBBLE_RADIUS * (2 / 10) <= px (ballPos g') <= width - BUBBLE_RADIUS * (2 / 10))%R.
Proof.
  intros Hf Hw Hstart E Hf'.
  assert (Hgen : forall (l : list (Z * R)) (s : Game),
             isFlying s = true ->
             (px (ballVel s) ^ 2 + py (ballVel s) ^ 2
              = px (ballVel g) ^ 2 + py (ballVel g) ^ 2)%R ->
             onCourt width (flightSteps (ballVel g)) (ballPos s) (ballVel s) ->
             flightFrames difficulty width l s = Returns g' ->
             (px (ballVel g') ^ 2 + py (ballVel g') ^ 2
              = px (ballVel g) ^ 2 + py (ballVel g) ^ 2)%R /\
             onCourt width (flightSteps (ballVel g)) (ballPos g') (ballVel g')).
  { induction l as [|[now elapsed] rest IH]; intros s Hs Hsp Hc El.
    - cbn [flightFrames] in El. injection El as <-. split; assumption.
    - cbn [flightFrames] in El.
      destruct (flightFrame difficulty width now elapsed s) as [s1 | |] eqn:E1;
        cbn [bind] in El; try discriminate.
      destruct (isFlying s1) eqn:Hf1.
      2:{ rewrite flightFrames_at_rest in El by exact Hf1. injection El as <-. congruence. }
      pose proof (flightFrame_no_collision difficulty width now elapsed s s1 Hs E1 Hf1) as Es1.
      rewrite (flightSteps_same_speed (ballVel g) (ballVel s) Hsp) in Es1.
      destruct (flightLoop_inv (Z.to_nat (flightSteps (ballVel g))) (bubbles s) width
                  (flightSteps (ballVel g)) (ballPos s) (ballVel s)) as [Hvy [Hvx _]].
      pose proof (speed_conserved (ballVel s) _ Hvy Hvx) as Hsp1.
      apply (IH s1); [exact Hf1 | | | exact El]; rewrite Es1; cbn [ballVel ballPos setFlight].
      + rewrite Hsp1. exact Hsp.
      + destruct (flightSteps_bounds (ballVel g)) as [H0 _].
        destruct (Z.eq_dec (flightSteps (ballVel g)) 0) as [E0 | Hne].
        * rewrite E0 in Hc |- *. exact Hc.
        * apply flightLoop_onCourt; trivial. lia. }
  destruct (Hgen inputs g Hf eq_refl (or_introl Hstart) E) as [Hsp Hc].
  split; [exact Hsp|]. split; [exact Hc|].
  apply (onCourt_bounds width (ballPos g') (ballVel g') (ballVel g)); assumption.
Qed.

Lemma walls_keep_ball_witness :
  (BUBBLE_RADIUS * (2 / 10)
   <= px (ballPos (setFlight risingBall true
                     (mkPoint (500 + 0 / 1) (500 + -10 / 1)) (mkPoint 0 (-10))))
   <= 1000 - BUBBLE_RADIUS * (2 / 10))%R.
Proof.
  exact (proj2 (proj2
           (walls_keep_ball_on_canvas medium 1000 [(0, 16%R)] risingBall
              (setFlight risingBall true
                 (mkPoint (500 + 0 / 1) (500 + -10 / 1)) (mkPoint 0 (-10)))
              eq_refl ltac:(unfold BUBBLE_RADIUS; lra)
              ltac:(unfold BUBBLE_RADIUS; cbn; lra) risingBall_frame eq_refl))).
Defined.

(** ** Tokens do not overlap *)

(** X26.  Tokens in different cells do not overlap as they are drawn.
    For two tokens stored within a hundredth of a pixel of the centres of
    their cells, in different cells, on any canvas width and for any rows
    and columns: the centres are more than two radii less one pixel apart,
    so the two discs, which are drawn with the radius less one pixel,
    have no point in common. *)
Theorem cells_do_not_overlap (W : R) (a b : Bubble.t) :
  nearItsCell W a -> nearItsCell W b ->
  Bubble.row a <> Bubble.row b \/ Bubble.col a <> Bubble.col b ->
  (2 * BUBBLE_RADIUS - 1
   < distance (Bubble.x a) (Bubble.y a) (Bubble.x b) (Bubble.y b))%R /\
  ((BUBBLE_RADIUS - 1) + (BUBBLE_RADIUS - 1)
   < distance (Bubble.x a) (Bubble.y a) (Bubble.x b) (Bubble.y b))%R.
Proof.
  intros Ha Hb Hne.
  destruct (near_cells_distance W a b Ha Hb) as [Hyes [Hno _]]. cbv zeta in *.
  unfold BUBBLE_RADIUS in *.
  destruct (isNeighbor a b) eqn:En.
  - specialize (Hyes eq_refl). split; lra.
  - specialize (Hno eq_refl Hne). split; lra.
Qed.

Lemma cells_do_not_overlap_witness :
  (2 * BUBBLE_RADIUS - 1
   < distance (Bubble.x (tokenAt "0-0"%string 0 0 "red"%string)) (Bubble.y (tokenAt "0-0"%string 0 0 "red"%string))
              (Bubble.x (tokenAt "1-0"%string 1 0 "blue"%string)) (Bubble.y (tokenAt "1-0"%string 1 0 "blue"%string)))%R.
Proof.
  apply (cells_do_not_overlap 1000 (tokenAt "0-0"%string 0 0 "red"%string)
           (tokenAt "1-0"%string 1 0 "blue"%string));
    [apply onItsCell_near; reflexivity | apply onItsCell_near; reflexivity |].
  left. unfold tokenAt. cbv zeta. cbn [Bubble.row]. lia.
Defined.

(** ** The identifiers of a fresh grid *)

Lemma showZ_injective (a b : Z) : showZ a = showZ b -> a = b.
Proof.
  unfold showZ. intros H.
  assert (Hok : forall z, Z.to_int z <> Decimal.Pos Decimal.Nil /\
                          Z.to_int z <> Decimal.Neg Decimal.Nil).
  { intros z. destruct z as [|p|p]; cbn; split; try discriminate;
      intros E; injection E as E; exact (Unsigned.to_uint_nonnil p E). }
  apply (f_equal NilZero.int_of_string) in H.
  rewrite !NilZero.isi in H by apply Hok.
  injection H as H. apply (f_equal Z.of_int) in H. rewrite !DecimalZ.of_to in H. exact H.
Qed.

Lemma digits_noDash (d : Decimal.uint) : noDash (NilEmpty.string_of_uint d) = true.
Proof. induction d; cbn; trivial. Qed.

Lemma showZ_noDash (z : Z) : 0 <= z -> noDash (showZ z) = true.
Proof.
  intros Hz. unfold showZ. destruct z as [|p|p]; [reflexivity | | lia].
  cbn [Z.to_int NilZero.string_of_int]. unfold NilZero.string_of_uint.
  destruct (Pos.to_uint p) eqn:E; try (rewrite <- E; apply digits_noDash).
  reflexivity.
Qed.

Lemma dash_splits (s1 s2 t1 t2 : string) :
  noDash s1 = true -> noDash s2 = true ->
  (s1 ++ "-" ++ t1 = s2 ++ "-" ++ t2)%string -> s1 = s2 /\ t1 = t2.
Proof.
  revert s2. induction s1 as [|a r IH]; intros s2 H1 H2 E.
  - destruct s2 as [|b r2].
    + cbn in E. injection E as E. split; [reflexivity | exact E].
    + cbn in E, H2. injection E as Eb _. subst b. discriminate H2.
  - destruct s2 as [|b r2].
    + cbn in E, H1. injection E as Ea _. subst a. discriminate H1.
    + cbn in E, H1, H2. injection E as Eab Er. subst b.
      apply andb_true_iff in H1. apply andb_true_iff in H2.
      destruct (IH r2 (proj2 H1) (proj2 H2) Er) as [-> ->]. split; reflexivity.
Qed.

Lemma cell_id_injective (r1 c1 r2 c2 : Z) :
  0 <= r1 -> 0 <= r2 ->
  (showZ r1 ++ "-" ++ showZ c1 = showZ r2 ++ "-" ++ showZ c2)%string ->
  r1 = r2 /\ c1 = c2.
Proof.
  intros H1 H2 E.
  destruct (dash_splits _ _ _ _ (showZ_noDash r1 H1) (showZ_noDash r2 H2) E) as [Er Ec].
  split; apply showZ_injective; assumption.
Qed.

Lemma range_NoDup (n : Z) : NoDup (range n).
Proof.
  unfold range. apply NoDup_map_NoDup_ForallPairs; [|apply seq_NoDup].
  intros x y _ _ H. lia.
Qed.

Lemma NoDup_flat_map {A B : Type} (f : A -> list B) (l : list A) :
  NoDup l -> (forall x, In x l -> NoDup (f x)) ->
  (forall x y z, In x l -> In y l -> In z (f x) -> In z (f y) -> x = y) ->
  NoDup (flat_map f l).
Proof.
  induction l as [|a l IH]; intros Hnd Hf Hdisj; cbn [flat_map]; [constructor|].
  inversion Hnd as [|? ? Ha Hl]; subst.
  apply NoDup_app.
  - apply Hf. left. reflexivity.
  - apply IH; trivial.
    + intros x Hx. apply Hf. right. exact Hx.
    + intros x y z Hx Hy. apply Hdisj; right; assumption.
  - intros z Hz Hz'. apply in_flat_map in Hz'. destruct Hz' as [y [Hy Hzy]].
    assert (a = y) by (apply (Hdisj a y z); [left; reflexivity | right; exact Hy | | ]; assumption).
    subst y. contradiction.
Qed.

Lemma initGrid_ids (W : R) (diff : Difficulty) (keep : Z -> Z -> bool)
    (rnd : Z -> Z -> nat) (g : Game) :
  NoDup (map Bubble.id (bubbles (initGrid W diff keep rnd g))).
Proof.
  unfold initGrid. rewrite bubbles_updateAvailableColors.
  cbn [bubbles setScore setShotsTaken setBubbles].
  rewrite flat_map_concat_map, concat_map, map_map, <- flat_map_concat_map.
  apply NoDup_flat_map; [apply range_NoDup | |].
  - intros r Hr. apply range_In in Hr.
    rewrite flat_map_concat_map, concat_map, map_map, <- flat_map_concat_map.
    apply NoDup_flat_map; [apply range_NoDup | |].
    + intros c _. destruct (keep r c); cbn; [constructor; [intros [] | constructor] | constructor].
    + intros c1 c2 z _ _ H1 H2.
      destruct (keep r c1); cbn in H1; [|contradiction].
      destruct (keep r c2); cbn in H2; [|contradiction].
      destruct H1 as [<- | []]. destruct H2 as [H2 | []].
      apply cell_id_injective in H2; [|lia | lia]. symmetry. apply H2.
  - intros r1 r2 z Hr1 Hr2 H1 H2. apply range_In in Hr1. apply range_In in Hr2.
    apply in_map_iff in H1. destruct H1 as [b1 [<- H1]].
    apply in_map_iff in H2. destruct H2 as [b2 [E H2]].
    apply in_flat_map in H1. destruct H1 as [c1 [_ H1]].
    apply in_flat_map in H2. destruct H2 as [c2 [_ H2]].
    destruct (keep r1 c1); cbn in H1; [|contradiction].
    destruct (keep r2 c2); cbn in H2; [|contradiction].
    destruct H1 as [<- | []]. destruct H2 as [<- | []].
    cbn [Bubble.id] in E. apply cell_id_injective in E; [|lia | lia]. symmetry. apply E.
Qed.

(** X27.  A fresh grid and the cluster search.  The tokens of the grid
    [initGrid] builds have pairwise different identifiers, whatever cells
    the random draw keeps; so on a fresh grid the cluster search returns,
    its candidates stand for whole regions, each with the lowest token of
    the region the ball has a clear path to, every token with a clear path
    lies in the region of some candidate, and no region is offered
    twice. *)
Theorem fresh_grid_clusters (anchor : Point) (containerWidth W : R) (diff : Difficulty)
    (keep : Z -> Z -> bool) (rnd : Z -> Z -> nat) (g : Game) :
  let bs := bubbles (initGrid W diff keep rnd g) in
  NoDup (map Bubble.id bs) /\
  exists cs,
    getAllReachableClusters anchor containerWidth bs = Returns cs /\
    Forall (hittableCandidate anchor bs) cs /\
    Forall (regionCandidate anchor bs) cs /\
    (forall v, In v bs -> isPathClear anchor bs v = true -> covered bs cs v) /\
    NoDup (map TargetCandidate.id cs) /\
    onePerRegion bs cs.
Proof.
  cbv zeta. set (bs := bubbles (initGrid W diff keep rnd g)).
  assert (Hids : NoDup (map Bubble.id bs)) by apply initGrid_ids.
  assert (Hact : forall b, In b bs -> Bubble.active b = true).
  { intros b Hb. apply initGrid_bubbles in Hb.
    destruct Hb as [r [c [_ [_ [_ ->]]]]]. reflexivity. }
  assert (Hpal : paletteTokens bs).
  { intros b Hb _. apply initGrid_bubbles in Hb.
    destruct Hb as [r [c [_ [_ [_ ->]]]]]. cbn [Bubble.color]. apply drawColor_in_palette. }
  split; [exact Hids|].
  destruct (getAllReachableClusters_palette anchor containerWidth bs Hpal) as [cs Hcs].
  exists cs. split; [exact Hcs|].
  pose proof (getAllReachableClusters_outcome anchor containerWidth bs) as Hout.
  pose proof (getAllReachableClusters_invariant anchor containerWidth bs Hids) as Hinv.
  rewrite Hcs in Hout, Hinv. cbn [outcomeIs] in Hout, Hinv.
  destruct Hinv as [J1 [J2 [_ [J4 J5]]]].
  split; [exact Hout|]. split; [exact J1|]. split; [|split; assumption].
  intros v Hv Hclear. apply J2; trivial.
  - apply filter_In. split; [exact Hv | apply Hact; exact Hv].
  - apply activeColors_of_tokens. right. apply in_map. apply filter_In.
    split; [exact Hv | apply Hact; exact Hv].
Qed.

(** ** Hitting a region the advisor offers *)

Lemma connected_more (bs extra : list Bubble.t) (a v : Bubble.t) :
  connected bs a v -> connected (bs ++ extra) a v.
Proof.
  intros H. induction H as [|u v Hau IH Hin Hact Hcol Hn]; [constructor|].
  apply connected_step with (u := u); trivial. apply in_app_iff. left. exact Hin.
Qed.

Lemma pointsFor_of_a_match (d : Difficulty) (accuracyBonus : R) (n colorPoints : Z) :
  (1 <= accuracyBonus)%R -> 3 <= n -> 100 <= colorPoints ->
  240 <= pointsFor d accuracyBonus n colorPoints.
Proof.
  intros Hb Hn Hp. unfold pointsFor. cbv zeta. apply Zfloor_lub.
  apply IZR_le in Hn. apply IZR_le in Hp.
  assert (Hm : (8 / 10 <= pointsMultiplier (DIFFICULTY_SETTINGS d))%R)
    by (destruct d; cbn; lra).
  assert (Hs : (1 <= sizeBonus n)%R) by (unfold sizeBonus; destruct (3 <? n); lra).
  assert (H1 : (300 <= IZR n * IZR colorPoints)%R) by nra.
  assert (H2 : (240 <= IZR n * IZR colorPoints
                       * pointsMultiplier (DIFFICULTY_SETTINGS d))%R) by nra.
  assert (H3 : (240 <= IZR n * IZR colorPoints
                       * pointsMultiplier (DIFFICULTY_SETTINGS d) * sizeBonus n)%R) by nra.
  nra.
Qed.

(** X28.  Hitting a region the advisor offers.  A token of the region's
    colour that lands next to a token of the region is matched together
    with the whole region: the match holds the landed token and every
    token of the region, so for a candidate of size [n] that names a token
    of the region it has at least [n + 1] tokens; when the region has two
    tokens or more, the match is resolved, every token of the region is
    inactive afterwards, and the score grows by 240 points or more. *)
Theorem hit_next_to_a_region (difficulty : Difficulty) (accuracyBonus : R)
    (anchor : Point) (bs : list Bubble.t) (h u newB : Bubble.t) (g : Game) :
  bubbles g = bs ++ [newB] ->
  NoDup (map Bubble.id (bubbles g)) ->
  Bubble.active newB = true ->
  In h bs -> Bubble.active h = true ->
  Bubble.color newB = Bubble.color h ->
  COLOR_CONFIG (Bubble.color newB) <> None ->
  connected bs h u -> isNeighbor newB u = true ->
  (1 <= accuracyBonus)%R ->
  exists (matches : list Bubble.t) (visited : list string) (g' : Game),
    findMatches (bubbles g) newB = Some (matches, visited) /\
    checkMatches difficulty accuracyBonus newB g = Returns g' /\
    In newB matches /\
    (forall v, connected bs h v -> In v matches) /\
    (forall c : TargetCandidate.t,
        regionCandidate anchor bs c -> TargetCandidate.id c = Bubble.id h ->
        TargetCandidate.size c + 1 <= Z.of_nat (List.length matches) /\
        (2 <= TargetCandidate.size c ->
         score g + 240 <= score g' /\
         forall v v', connected bs h v -> In v' (bubbles g') ->
                      Bubble.id v' = Bubble.id v -> Bubble.active v' = false)).
Proof.
  intros Hg Hids HactB Hh Hhact Hcol Hcfg Hu Hn Hbonus.
  assert (HinB : In newB (bubbles g))
    by (rewrite Hg; apply in_app_iff; right; left; reflexivity).
  destruct (findMatches_total (bubbles g) newB) as [[matches visited] Hf].
  destruct (findMatches_region (bubbles g) newB Hids HinB HactB matches visited Hf)
    as [Hreg [Hnodup _]].
  destruct (COLOR_CONFIG (Bubble.color newB)) as [cfg|] eqn:Ecfg; [|contradiction].
  pose proof (checkMatches_returns difficulty accuracyBonus newB g cfg matches visited
                Hf Ecfg) as Hret.
  eexists matches, visited, _. split; [exact Hf|]. split; [exact Hret|].
  assert (HB : In newB matches) by (apply Hreg; constructor).
  assert (Huin : In u bs) by (apply connected_in_grid with (start := h); assumption).
  assert (Huact : Bubble.active u = true)
    by (apply connected_active with (bs := bs) (start := h); assumption).
  assert (Hucol : Bubble.color u = Bubble.color h)
    by (apply connected_color with (bs := bs); exact Hu).
  assert (Hregion : forall v, connected bs h v -> In v matches).
  { intros v Hv. apply Hreg. rewrite Hg.
    apply connected_trans with (b := u).
    - apply connected_step with (u := newB); trivial; [constructor | | congruence].
      apply in_app_iff. left. exact Huin.
    - apply connected_more. apply connected_trans with (b := h); [|exact Hv].
      apply connected_sym; assumption. }
  split; [exact HB|]. split; [exact Hregion|].
  intros c [h' [members [Hh' [_ [_ [Hid' [Hmnd [Hmem [Hsize _]]]]]]]]] Hid.
  assert (Hidsbs : NoDup (map Bubble.id bs)).
  { rewrite Hg, map_app in Hids. apply NoDup_app_remove_r in Hids. exact Hids. }
  assert (h' = h) by (apply (same_id_same_token bs); trivial; congruence).
  subst h'.
  assert (HnotB : ~ In newB members).
  { intros Hm. apply Hmem in Hm.
    assert (HBbs : In newB bs) by (apply connected_in_grid with (start := h); assumption).
    rewrite Hg, map_app in Hids. cbn [map] in Hids.
    apply NoDup_remove_2 in Hids. apply Hids. rewrite app_nil_r.
    apply in_map. exact HBbs. }
  assert (Hlen : (List.length (newB :: members) <= List.length matches)%nat).
  { apply NoDup_incl_length; [constructor; assumption|].
    intros x [<- | Hx]; [exact HB | apply Hregion, Hmem; exact Hx]. }
  cbn [List.length] in Hlen. split; [lia|].
  intros H2.
  assert (H3 : 3 <= Z.of_nat (List.length matches)) by lia.
  destruct (3 <=? Z.of_nat (List.length matches)) eqn:E3; [|apply Z.leb_gt in E3; lia].
  cbn [score bubbles setScore setBubbles]. split.
  - pose proof (pointsFor_of_a_match difficulty accuracyBonus
                  (Z.of_nat (List.length matches)) (points cfg) Hbonus H3
                  (COLOR_CONFIG_points _ _ Ecfg)). lia.
  - intros v v' Hv Hv' Hidv. unfold deactivate in Hv'. apply in_map_iff in Hv'.
    destruct Hv' as [b [<- Hb]].
    assert (Hhas : hasId matches (Bubble.id b) = true).
    { apply hasId_In. exists v. split; [apply Hregion; exact Hv|].
      destruct (hasId matches (Bubble.id b)); cbn in Hidv; congruence. }
    rewrite Hhas. reflexivity.
Qed.

Lemma hit_next_to_a_region_witness :
  exists (matches : list Bubble.t) (visited : list string) (g' : Game),
    findMatches (bubbles twoClusters) originThree = Some (matches, visited) /\
    checkMatches medium 1 originThree twoClusters = Returns g' /\
    In originThree matches /\
    In (tokenAt "4-0"%string 4 0 "red"%string) matches.
Proof.
  destruct (hit_next_to_a_region medium 1 (mkPoint 500 600)
              (fiveCluster ++ [tokenAt "4-0"%string 4 0 "red"%string;
                               tokenAt "4-1"%string 4 1 "red"%string])
              (tokenAt "4-0"%string 4 0 "red"%string)
              (tokenAt "4-1"%string 4 1 "red"%string)
              originThree twoClusters)
    as [matches [visited [g' [Hf [Hc [HB [Hreg _]]]]]]].
  - reflexivity.
  - exact twoClusters_ids.
  - reflexivity.
  - apply in_app_iff. right. left. reflexivity.
  - reflexivity.
  - reflexivity.
  - discriminate.
  - apply connected_step with (u := tokenAt "4-0"%string 4 0 "red"%string);
      [constructor | | reflexivity | reflexivity | reflexivity].
    apply in_app_iff. right. right. left. reflexivity.
  - reflexivity.
  - lra.
  - exists matches, visited, g'. split; [exact Hf|]. split; [exact Hc|].
    split; [exact HB|]. apply Hreg. constructor.
Defined.
